(** * A shallow embedding of the tower-defence simulation core

    The development follows [entities.js] (Entity, Enemy, Tower,
    Projectile), [game.js] (GameState, WaveManager, InfectionManager,
    GameManager) and the constants and path of [config.js].

    Conventions of the embedding.
    - A JavaScript number is an exact rational [Q]; the arithmetic operators
      are the rational ones.  Comparisons made by the source ([<=], [<],
      [!==]) are the boolean comparisons of [Q], which respect the value of a
      fraction and not its representation.
    - An object literal with optional properties (the stat blocks read from
      the configuration) is a record of [option] fields; [undefined] is
      [None].
    - The objects that the source shares by reference (towers, enemies) live
      in a store, a [gmap] from references to records, and the arrays of the
      game state hold references.  Mutating an object is an update of the
      store; [===] between objects is equality of references.
    - A dereference of [undefined] raises a [TypeError] in the source, and
      arithmetic on [undefined] yields not-a-number; the functions in which
      either can happen return [option], and [None] stands for that outcome.
    - Rendering, notifications and the DOM are outside of the model. *)

From Stdlib Require Import QArith Qabs Qround ZArith Lia Lqa Permutation Sorted.
From stdpp Require Import gmap strings list fin_maps option.

Local Open Scope string_scope.
Local Open Scope list_scope.
Local Open Scope Q_scope.

(** ** Numbers *)

Definition Qlt_bool (a b : Q) : bool := negb (Qle_bool b a).

(** The truthiness test [if (v)] on an optional number: [undefined] and [0]
    are falsy. *)
Definition truthy (v : option Q) : bool :=
  match v with
  | Some q => negb (Qeq_bool q 0)
  | None => false
  end.

(** [v || d] on an optional number. *)
Definition or_default (v : option Q) (d : Q) : Q :=
  match v with
  | Some q => if Qeq_bool q 0 then d else q
  | None => d
  end.

Definition Math_max (a b : Q) : Q := if Qle_bool a b then b else a.

Definition Math_min (a b : Q) : Q := if Qle_bool a b then a else b.

Definition Math_floor (a : Q) : Z := Qfloor a.

Definition Math_abs (a : Q) : Q := Qabs a.

(** [Math.hypot] on rationals.  The Euclidean norm of a rational vector need
    not be rational: the value is exact whenever the norm is rational and is
    truncated to six decimal places otherwise. *)
Definition Math_hypot (dx dy : Q) : Q :=
  let s := Qred (dx * dx + dy * dy) in
  let n := Qnum s in
  let d := Z.pos (Qden s) in
  Qred (Qmake (Z.sqrt (n * d * 1000000000000)) (Qden s * 1000000)).

(** ** Configuration ([config.js] and the game data) *)

Record Point := mkPoint { px : Q; py : Q }.

#[global] Instance Point_inhabited : Inhabited Point := populate (mkPoint 0 0).

Module GameConstants.
Definition TOWER_RADIUS : Q := 20.
Definition ENEMY_SPEED_MULTIPLIER : Q := 60.
Definition PROJECTILE_SPEED : Q := 400.
Definition SELL_REFUND_RATE : Q := 7 # 10.
Definition MAX_DELTA_TIME : Q := 1 # 10.
Definition DEFAULT_DELTA_TIME : Q := 16 # 1000.
End GameConstants.

(** The waypoints as [config.js] lists them. *)
Definition path : list Point :=
  [ mkPoint (-50) 200; mkPoint 300 200; mkPoint 300 400; mkPoint 600 400;
    mkPoint 600 100; mkPoint 900 100; mkPoint 900 500; mkPoint 1250 500 ].

(** [RenderManager.resizeCanvas] moves the last waypoint to the right edge of
    the canvas, so the functions below take the current path as an
    argument. *)
Definition resizePath (canvasWidth : Q) (p : list Point) : list Point :=
  match p !! (length p - 1)%nat with
  | Some pt => <[ (length p - 1)%nat := mkPoint (canvasWidth + 50) (py pt) ]> p
  | None => p
  end.

Module GeometryUtils.
Definition distance (p1 p2 : Point) : Q :=
  Math_hypot (px p1 - px p2) (py p1 - py p2).

Definition isPointNearLineSegment (point lineStart lineEnd : Point)
    (maxDistance : Q) : bool :=
  let lineLength := distance lineStart lineEnd in
  if Qeq_bool lineLength 0
  then Qlt_bool (distance point lineStart) maxDistance
  else
    let t :=
      Math_max 0
        (Math_min 1
           (((px point - px lineStart) * (px lineEnd - px lineStart)
             + (py point - py lineStart) * (py lineEnd - py lineStart))
            / (lineLength * lineLength))) in
    let projection :=
      mkPoint (px lineStart + t * (px lineEnd - px lineStart))
              (py lineStart + t * (py lineEnd - py lineStart)) in
    Qlt_bool (distance point projection) maxDistance.
End GeometryUtils.

Record Ability := mkAbility { slow_pct : option Q }.

(** A stat block: [base] of a tower definition or one entry of [upgrades]. *)
Record Stats := mkStats {
  dmg : option Q;
  firerate_s : option Q;
  range : option Q;
  income : option Q;
  interval_s : option Q;
  buff_firerate_pct : option Q;
  buff_range_pct : option Q;
  scan_delay_s : option Q;
  auto_heal : option bool;
  auto_heal_time_s : option Q;
  aoe_radius : option Q;
  ability : option Ability;
  cost : option Q
}.

(** The empty object [{}]. *)
Definition noStats : Stats :=
  mkStats None None None None None None None None None None None None None.

Definition set_firerate_s (v : option Q) (s : Stats) : Stats :=
  mkStats (dmg s) v (range s) (income s) (interval_s s) (buff_firerate_pct s)
    (buff_range_pct s) (scan_delay_s s) (auto_heal s) (auto_heal_time_s s)
    (aoe_radius s) (ability s) (cost s).

Definition set_range (v : option Q) (s : Stats) : Stats :=
  mkStats (dmg s) (firerate_s s) v (income s) (interval_s s)
    (buff_firerate_pct s) (buff_range_pct s) (scan_delay_s s) (auto_heal s)
    (auto_heal_time_s s) (aoe_radius s) (ability s) (cost s).

Record TowerData := mkTowerData {
  td_id : string;
  td_name : string;
  td_type : string;
  cost_place : Q;
  base : Stats;
  upgrades : list Stats
}.

Record EnemyData := mkEnemyData {
  ed_id : string;
  ed_name : string;
  ed_hp : Q;
  ed_speed : Q;
  ed_reward : Q;
  ed_color : string
}.

Record Group := mkGroup {
  enemy_id : string;
  count : nat;
  interval_ms : Q
}.

Record Wave := mkWave { composition : list Group }.

Record InfectionEffect := mkInfectionEffect {
  firerate_pct : Q;
  range_pct : Q
}.

Record InfectionMechanic := mkInfectionMechanic {
  every_s : Q;
  cure_clicks_required : Q;
  effect : InfectionEffect
}.

Record GameSettings := mkGameSettings {
  start_money : Q;
  start_lives : Q;
  infection_mechanic : option InfectionMechanic
}.

Module GameData.
Record t := mk {
  towers : list TowerData;
  enemies : list EnemyData;
  waves : list Wave;
  game_settings : GameSettings
}.
End GameData.

(** The objects behind an array of references, in the order of the array. *)
Definition deref {A} (h : gmap nat A) (rs : list nat) : list (nat * A) :=
  omap (fun r => pair r <$> h !! r) rs.

(** [Array.prototype.sort] with a comparison function.  The language
    requires the sort to be stable, and for a consistent comparison function
    the result of a stable sort is unique; it is computed here by insertion
    from the right, which keeps the earlier of two elements that compare
    equal in front. *)
Fixpoint sort_insert {A} (compareFn : A -> A -> Q) (a : A) (l : list A) : list A :=
  match l with
  | [] => [a]
  | b :: l' =>
      if Qle_bool (compareFn a b) 0 then a :: b :: l'
      else b :: sort_insert compareFn a l'
  end.

Definition Array_sort {A} (compareFn : A -> A -> Q) (l : list A) : list A :=
  foldr (sort_insert compareFn) [] l.


(** ** Entity *)

Module Entity.
Definition distanceTo (x y ox oy : Q) : Q := Math_hypot (x - ox) (y - oy).

(** [range] is read from a stat block and may be [undefined]; a comparison
    with [undefined] is false. *)
Definition isInRange (x y ox oy : Q) (range : option Q) : bool :=
  match range with
  | Some r => Qle_bool (distanceTo x y ox oy) r
  | None => false
  end.
End Entity.

(** ** Enemy *)

Module Enemy.

Record Effect := mkEffect { value : Q; duration : Q }.

Record t := mk {
  x : Q;
  y : Q;
  active : bool;
  id : string;
  name : string;
  maxHp : Q;
  hp : Q;
  baseSpeed : Q;
  speed : Q;
  reward : Q;
  color : string;
  pathIndex : nat;
  distanceAlongSegment : Q;
  reachedEnd : bool;
  statusEffects : gmap string Effect;
  radius : Q;
  healthBarWidth : Q
}.

Definition set_pos (nx ny : Q) (e : t) : t :=
  mk nx ny (active e) (id e) (name e) (maxHp e) (hp e) (baseSpeed e)
    (speed e) (reward e) (color e) (pathIndex e) (distanceAlongSegment e)
    (reachedEnd e) (statusEffects e) (radius e) (healthBarWidth e).

Definition set_hp (v : Q) (e : t) : t :=
  mk (x e) (y e) (active e) (id e) (name e) (maxHp e) v (baseSpeed e)
    (speed e) (reward e) (color e) (pathIndex e) (distanceAlongSegment e)
    (reachedEnd e) (statusEffects e) (radius e) (healthBarWidth e).

Definition set_speed (v : Q) (e : t) : t :=
  mk (x e) (y e) (active e) (id e) (name e) (maxHp e) (hp e) (baseSpeed e)
    v (reward e) (color e) (pathIndex e) (distanceAlongSegment e)
    (reachedEnd e) (statusEffects e) (radius e) (healthBarWidth e).

Definition set_pathIndex (v : nat) (e : t) : t :=
  mk (x e) (y e) (active e) (id e) (name e) (maxHp e) (hp e) (baseSpeed e)
    (speed e) (reward e) (color e) v (distanceAlongSegment e)
    (reachedEnd e) (statusEffects e) (radius e) (healthBarWidth e).

Definition set_distanceAlongSegment (v : Q) (e : t) : t :=
  mk (x e) (y e) (active e) (id e) (name e) (maxHp e) (hp e) (baseSpeed e)
    (speed e) (reward e) (color e) (pathIndex e) v
    (reachedEnd e) (statusEffects e) (radius e) (healthBarWidth e).

Definition set_reachedEnd (v : bool) (e : t) : t :=
  mk (x e) (y e) (active e) (id e) (name e) (maxHp e) (hp e) (baseSpeed e)
    (speed e) (reward e) (color e) (pathIndex e) (distanceAlongSegment e)
    v (statusEffects e) (radius e) (healthBarWidth e).

Definition set_statusEffects (v : gmap string Effect) (e : t) : t :=
  mk (x e) (y e) (active e) (id e) (name e) (maxHp e) (hp e) (baseSpeed e)
    (speed e) (reward e) (color e) (pathIndex e) (distanceAlongSegment e)
    (reachedEnd e) v (radius e) (healthBarWidth e).

(** The constructor reads [path[0]]; with an empty path that dereference
    raises. *)
Definition new_ (p : list Point) (enemyData : EnemyData) : option t :=
  p0 ← p !! 0%nat;
  Some (mk (px p0) (py p0) true
          (ed_id enemyData) (ed_name enemyData)
          (ed_hp enemyData) (ed_hp enemyData)
          (ed_speed enemyData) (ed_speed enemyData)
          (ed_reward enemyData) (ed_color enemyData)
          0%nat 0 false ∅
          (if String.eqb (ed_id enemyData) "pest_boss" then 15 else 10)
          (if String.eqb (ed_id enemyData) "pest_boss" then 30 else 20)).

Definition isAlive (e : t) : bool := Qlt_bool 0 (hp e).

Definition takeDamage (amount : Q) (e : t) : t :=
  set_hp (Math_max 0 (hp e - amount)) e.

Definition recalculateSpeed (e : t) : t :=
  let speedMultiplier :=
    match statusEffects e !! "slow" with
    | Some slowEffect => 1 * (1 - value slowEffect)
    | None => 1
    end in
  set_speed (baseSpeed e * speedMultiplier) e.

Definition removeStatusEffect (type : string) (e : t) : t :=
  recalculateSpeed (set_statusEffects (delete type (statusEffects e)) e).

Definition applyStatusEffect (type : string) (value duration : Q) (e : t) : t :=
  if String.eqb (id e) "pest_boss" && String.eqb type "slow"
     && Qlt_bool value (35 # 100)
  then e
  else
    let existingEffect := statusEffects e !! type in
    if match existingEffect with
       | None => true
       | Some ex =>
           Qlt_bool (Enemy.value ex) value
           || Qlt_bool (Enemy.duration ex) duration
       end
    then
      recalculateSpeed
        (set_statusEffects
           (<[ type := mkEffect value duration ]> (statusEffects e)) e)
    else e.

(** One iteration of the loop of [updateStatusEffects], for the entry
    [effectType]: the record is aged in place and removed when it has run
    out.  The iterations for distinct keys commute, so the order in which
    the entries are visited is immaterial. *)
Definition ageEffect (deltaTime : Q) (effectType : string) (e : t) : t :=
  match statusEffects e !! effectType with
  | None => e
  | Some ef =>
      let ef' := mkEffect (value ef) (duration ef - deltaTime) in
      let e' := set_statusEffects (<[ effectType := ef' ]> (statusEffects e)) e in
      if Qle_bool (duration ef') 0
      then removeStatusEffect effectType e'
      else e'
  end.

Definition updateStatusEffects (deltaTime : Q) (e : t) : t :=
  map_fold (fun effectType _ acc => ageEffect deltaTime effectType acc)
    e (statusEffects e).

Definition moveAlongPath (p : list Point) (deltaTime : Q) (e : t) : t :=
  if (Z.of_nat (length p) - 1 <=? Z.of_nat (pathIndex e))%Z
  then set_reachedEnd true e
  else
    let currentPoint := p !!! pathIndex e in
    let nextPoint := p !!! (pathIndex e + 1)%nat in
    let dx := px nextPoint - px currentPoint in
    let dy := py nextPoint - py currentPoint in
    let segmentLength := Math_hypot dx dy in
    let moveDistance :=
      speed e * deltaTime * GameConstants.ENEMY_SPEED_MULTIPLIER in
    let e1 :=
      set_distanceAlongSegment (distanceAlongSegment e + moveDistance) e in
    if Qle_bool segmentLength (distanceAlongSegment e1)
    then
      let e2 :=
        set_distanceAlongSegment 0
          (set_pathIndex (pathIndex e1 + 1)%nat e1) in
      if (Z.of_nat (length p) - 1 <=? Z.of_nat (pathIndex e2))%Z
      then set_reachedEnd true e2
      else e2
    else
      let t := distanceAlongSegment e1 / segmentLength in
      set_pos (px currentPoint + dx * t) (py currentPoint + dy * t) e1.

Definition update (p : list Point) (deltaTime : Q) (e : t) : t :=
  if reachedEnd e || negb (isAlive e)
  then e
  else moveAlongPath p deltaTime (updateStatusEffects deltaTime e).

End Enemy.

(** ** The objects of the game state *)

Module TowerObj.

Record Infection := mkInfection { cureClicks : Z; cureRequired : Q }.

Record t := mk {
  x : Q;
  y : Q;
  active : bool;
  id : string;
  gameData : GameData.t;
  towerData : TowerData;
  name : string;
  type : string;
  level : nat;
  totalCost : Q;
  stats : Stats;
  baseStats : Stats;
  buffedStats : Stats;
  cooldown : Q;
  lastActionTime : Q;
  infection : option Infection;
  radius : Q;
  rangeAlpha : Q
}.

Definition set_level_cost (l : nat) (c : Q) (t0 : t) : t :=
  mk (x t0) (y t0) (active t0) (id t0) (gameData t0) (towerData t0)
    (name t0) (type t0) l c (stats t0) (baseStats t0) (buffedStats t0)
    (cooldown t0) (lastActionTime t0) (infection t0) (radius t0)
    (rangeAlpha t0).

Definition set_snapshots (s b bf : Stats) (t0 : t) : t :=
  mk (x t0) (y t0) (active t0) (id t0) (gameData t0) (towerData t0)
    (name t0) (type t0) (level t0) (totalCost t0) s b bf
    (cooldown t0) (lastActionTime t0) (infection t0) (radius t0)
    (rangeAlpha t0).

Definition set_cooldown (c : Q) (t0 : t) : t :=
  mk (x t0) (y t0) (active t0) (id t0) (gameData t0) (towerData t0)
    (name t0) (type t0) (level t0) (totalCost t0) (stats t0) (baseStats t0)
    (buffedStats t0) c (lastActionTime t0) (infection t0) (radius t0)
    (rangeAlpha t0).

Definition set_infection (i : option Infection) (t0 : t) : t :=
  mk (x t0) (y t0) (active t0) (id t0) (gameData t0) (towerData t0)
    (name t0) (type t0) (level t0) (totalCost t0) (stats t0) (baseStats t0)
    (buffedStats t0) (cooldown t0) (lastActionTime t0) i (radius t0)
    (rangeAlpha t0).

(** The getter [isInfected]. *)
Definition isInfected (t0 : t) : bool :=
  match infection t0 with Some _ => true | None => false end.

End TowerObj.

Module ProjectileObj.

Record t := mk {
  x : Q;
  y : Q;
  active : bool;
  damage : Q;
  towerId : string;
  towerType : string;
  target : option nat;
  targetPos : option Point;
  aoeRadius : Q;
  speed : Q;
  maxLifetime : Q;
  lifetime : Q;
  ability : option Ability;
  radius : Q;
  color : string;
  trail : list Point;
  maxTrailLength : nat
}.

Definition set_pos (nx ny : Q) (p : t) : t :=
  mk nx ny (active p) (damage p) (towerId p) (towerType p) (target p)
    (targetPos p) (aoeRadius p) (speed p) (maxLifetime p) (lifetime p)
    (ability p) (radius p) (color p) (trail p) (maxTrailLength p).

Definition set_active (a : bool) (p : t) : t :=
  mk (x p) (y p) a (damage p) (towerId p) (towerType p) (target p)
    (targetPos p) (aoeRadius p) (speed p) (maxLifetime p) (lifetime p)
    (ability p) (radius p) (color p) (trail p) (maxTrailLength p).

Definition set_lifetime (l : Q) (p : t) : t :=
  mk (x p) (y p) (active p) (damage p) (towerId p) (towerType p) (target p)
    (targetPos p) (aoeRadius p) (speed p) (maxLifetime p) l
    (ability p) (radius p) (color p) (trail p) (maxTrailLength p).

Definition set_trail (tr : list Point) (p : t) : t :=
  mk (x p) (y p) (active p) (damage p) (towerId p) (towerType p) (target p)
    (targetPos p) (aoeRadius p) (speed p) (maxLifetime p) (lifetime p)
    (ability p) (radius p) (color p) tr (maxTrailLength p).

(** The argument of the constructor, an object literal. *)
Record Data := mkData {
  d_x : Q;
  d_y : Q;
  d_damage : Q;
  d_towerId : string;
  d_towerType : string;
  d_target : option nat;
  d_targetPos : option Point;
  d_aoeRadius : option Q;
  d_ability : option Ability
}.

Definition new_ (data : Data) : t :=
  let aoeRadius := or_default (d_aoeRadius data) 0 in
  mk (d_x data) (d_y data) true
    (d_damage data) (d_towerId data) (d_towerType data)
    (d_target data) (d_targetPos data) aoeRadius
    GameConstants.PROJECTILE_SPEED 5 0
    (d_ability data)
    (if Qlt_bool 0 aoeRadius then 7 else 5)
    (if Qlt_bool 0 aoeRadius then "#1E90FF" else "#FFA500")
    [] 5%nat.

End ProjectileObj.

(** ** GameState *)

Module GameState.

Record Statistics := mkStatistics {
  moneyEarned : Q;
  towersPlaced : Z;
  towersUpgraded : Z;
  infectionsTotal : Z;
  infectionsCured : Z;
  enemiesKilled : Z;
  damageDealt : gmap string Q
}.

(** [enemyObjs] and [towerObjs] are the store; [nextRef] is the next
    unused reference.  The arrays [enemies] and [towers] hold
    references. *)
Record t := mk {
  gameData : GameData.t;
  money : Q;
  lives : Q;
  currentWave : Z;
  waveInProgress : bool;
  enemies : list nat;
  towers : list nat;
  projectiles : list ProjectileObj.t;
  selectedTower : option nat;
  placingTowerType : option string;
  gameStats : Statistics;
  enemyObjs : gmap nat Enemy.t;
  towerObjs : gmap nat TowerObj.t;
  nextRef : nat
}.

Definition set_money (m : Q) (g : t) : t :=
  mk (gameData g) m (lives g) (currentWave g) (waveInProgress g)
    (enemies g) (towers g) (projectiles g) (selectedTower g)
    (placingTowerType g) (gameStats g) (enemyObjs g) (towerObjs g)
    (nextRef g).

Definition set_lives (l : Q) (g : t) : t :=
  mk (gameData g) (money g) l (currentWave g) (waveInProgress g)
    (enemies g) (towers g) (projectiles g) (selectedTower g)
    (placingTowerType g) (gameStats g) (enemyObjs g) (towerObjs g)
    (nextRef g).

Definition set_enemies (l : list nat) (g : t) : t :=
  mk (gameData g) (money g) (lives g) (currentWave g) (waveInProgress g)
    l (towers g) (projectiles g) (selectedTower g)
    (placingTowerType g) (gameStats g) (enemyObjs g) (towerObjs g)
    (nextRef g).

Definition set_towers (l : list nat) (g : t) : t :=
  mk (gameData g) (money g) (lives g) (currentWave g) (waveInProgress g)
    (enemies g) l (projectiles g) (selectedTower g)
    (placingTowerType g) (gameStats g) (enemyObjs g) (towerObjs g)
    (nextRef g).

Definition set_projectiles (l : list ProjectileObj.t) (g : t) : t :=
  mk (gameData g) (money g) (lives g) (currentWave g) (waveInProgress g)
    (enemies g) (towers g) l (selectedTower g)
    (placingTowerType g) (gameStats g) (enemyObjs g) (towerObjs g)
    (nextRef g).

Definition set_selectedTower (s : option nat) (g : t) : t :=
  mk (gameData g) (money g) (lives g) (currentWave g) (waveInProgress g)
    (enemies g) (towers g) (projectiles g) s
    (placingTowerType g) (gameStats g) (enemyObjs g) (towerObjs g)
    (nextRef g).

Definition set_placingTowerType (s : option string) (g : t) : t :=
  mk (gameData g) (money g) (lives g) (currentWave g) (waveInProgress g)
    (enemies g) (towers g) (projectiles g) (selectedTower g)
    s (gameStats g) (enemyObjs g) (towerObjs g) (nextRef g).

Definition set_gameStats (s : Statistics) (g : t) : t :=
  mk (gameData g) (money g) (lives g) (currentWave g) (waveInProgress g)
    (enemies g) (towers g) (projectiles g) (selectedTower g)
    (placingTowerType g) s (enemyObjs g) (towerObjs g) (nextRef g).

Definition set_enemyObjs (h : gmap nat Enemy.t) (g : t) : t :=
  mk (gameData g) (money g) (lives g) (currentWave g) (waveInProgress g)
    (enemies g) (towers g) (projectiles g) (selectedTower g)
    (placingTowerType g) (gameStats g) h (towerObjs g) (nextRef g).

Definition set_towerObjs (h : gmap nat TowerObj.t) (g : t) : t :=
  mk (gameData g) (money g) (lives g) (currentWave g) (waveInProgress g)
    (enemies g) (towers g) (projectiles g) (selectedTower g)
    (placingTowerType g) (gameStats g) (enemyObjs g) h (nextRef g).

Definition set_nextRef (n : nat) (g : t) : t :=
  mk (gameData g) (money g) (lives g) (currentWave g) (waveInProgress g)
    (enemies g) (towers g) (projectiles g) (selectedTower g)
    (placingTowerType g) (gameStats g) (enemyObjs g) (towerObjs g) n.

Definition set_moneyEarned (v : Q) (s : Statistics) : Statistics :=
  mkStatistics v (towersPlaced s) (towersUpgraded s) (infectionsTotal s)
    (infectionsCured s) (enemiesKilled s) (damageDealt s).

Definition set_towersPlaced (v : Z) (s : Statistics) : Statistics :=
  mkStatistics (moneyEarned s) v (towersUpgraded s) (infectionsTotal s)
    (infectionsCured s) (enemiesKilled s) (damageDealt s).

Definition set_towersUpgraded (v : Z) (s : Statistics) : Statistics :=
  mkStatistics (moneyEarned s) (towersPlaced s) v (infectionsTotal s)
    (infectionsCured s) (enemiesKilled s) (damageDealt s).

Definition set_infectionsTotal (v : Z) (s : Statistics) : Statistics :=
  mkStatistics (moneyEarned s) (towersPlaced s) (towersUpgraded s) v
    (infectionsCured s) (enemiesKilled s) (damageDealt s).

Definition set_infectionsCured (v : Z) (s : Statistics) : Statistics :=
  mkStatistics (moneyEarned s) (towersPlaced s) (towersUpgraded s)
    (infectionsTotal s) v (enemiesKilled s) (damageDealt s).

Definition set_damageDealt (v : gmap string Q) (s : Statistics) : Statistics :=
  mkStatistics (moneyEarned s) (towersPlaced s) (towersUpgraded s)
    (infectionsTotal s) (infectionsCured s) (enemiesKilled s) v.

(** [reset] followed by [initialize(gameData)]. *)
Definition initialize (gd : GameData.t) : t :=
  let settings := GameData.game_settings gd in
  mk gd (start_money settings) (start_lives settings)
    0%Z false [] [] [] None None
    (mkStatistics (start_money settings) 0 0 0 0 0
       (foldl (fun m td => <[ td_id td := 0 ]> m) ∅ (GameData.towers gd)))
    ∅ ∅ 0%nat.

Definition earnMoney (amount : Q) (g : t) : t :=
  set_gameStats
    (set_moneyEarned (moneyEarned (gameStats g) + amount) (gameStats g))
    (set_money (money g + amount) g).

Definition takeDamage (amount : Q) (g : t) : t * bool :=
  let g' := set_lives (Math_max 0 (lives g - amount)) g in
  (g', Qle_bool (lives g') 0).

Definition canAfford (cost : Q) (g : t) : bool := Qle_bool cost (money g).

Definition purchase (cost : Q) (g : t) : t * bool :=
  if canAfford cost g then (set_money (money g - cost) g, true)
  else (g, false).

End GameState.

(** ** Tower *)

Module Tower.
Import TowerObj.

(** The stat block of the current level: [towerData.base] at level 0,
    [towerData.upgrades[level - 1]] above; spreading [undefined] gives the
    empty object. *)
Definition levelData (t0 : t) : Stats :=
  if (level t0 =? 0)%nat then base (towerData t0)
  else default noStats (upgrades (towerData t0) !! (level t0 - 1)%nat).

(** The body of the [forEach] of [calculateBuffedStats]; the accumulator
    is the pair [(firerateMultiplier, rangeMultiplier)]. *)
Definition buffStep (self : nat) (this : t) (acc : Q * Q)
    (entry : nat * t) : Q * Q :=
  let tower := entry.2 in
  if (entry.1 =? self)%nat || negb (String.eqb (type tower) "support")
  then acc
  else if negb (Entity.isInRange (x this) (y this) (x tower) (y tower)
                  (range (baseStats tower)))
  then acc
  else
    let buffs := baseStats tower in
    let firerateMultiplier :=
      match buff_firerate_pct buffs with
      | Some pct =>
          if Qeq_bool pct 0 then acc.1 else acc.1 * (1 - pct / 100)
      | None => acc.1
      end in
    let rangeMultiplier :=
      match buff_range_pct buffs with
      | Some pct =>
          if Qeq_bool pct 0 then acc.2 else acc.2 * (1 + pct / 100)
      | None => acc.2
      end in
    (firerateMultiplier, rangeMultiplier).

Definition buffMultipliers (self : nat) (this : t)
    (allTowers : list (nat * t)) : Q * Q :=
  foldl (buffStep self this) (1, 1) allTowers.

(** [stats.field *= m], guarded by [if (stats.field)]. *)
Definition scale (v : option Q) (m : Q) : option Q :=
  match v with
  | Some q => if Qeq_bool q 0 then v else Some (q * m)
  | None => None
  end.

Definition calculateBuffedStats (self : nat) (allTowers : list (nat * t))
    (this : t) : Stats :=
  let stats := baseStats this in
  if String.eqb (type this) "support"
     || String.eqb (type this) "support_sensor"
  then stats
  else
    let m := buffMultipliers self this allTowers in
    let stats1 := set_firerate_s (scale (firerate_s stats) m.1) stats in
    set_range (scale (range stats1) m.2) stats1.

Definition applyInfectionDebuff (this : t) (stats : Stats) : option Stats :=
  match infection this with
  | None => Some stats
  | Some _ =>
      mechanic ← infection_mechanic (GameData.game_settings (gameData this));
      let debuff := effect mechanic in
      let stats1 :=
        set_firerate_s
          (scale (firerate_s stats)
             (1 + Math_abs (firerate_pct debuff) / 100)) stats in
      Some (set_range
              (scale (range stats1) (1 + range_pct debuff / 100)) stats1)
  end.

(** [applyStats(allTowers)].  [self] is the reference of [this], and
    [allTowers] the objects behind the array passed by the caller. *)
Definition applyStats (self : nat) (allTowers : list (nat * t))
    (this : t) : option t :=
  let data := levelData this in
  let this1 := set_snapshots (stats this) data (buffedStats this) this in
  let buffed := calculateBuffedStats self allTowers this1 in
  let this2 := set_snapshots (stats this1) data buffed this1 in
  final ←
    (if isInfected this2 then applyInfectionDebuff this2 buffed
     else Some buffed);
  Some (set_snapshots final data buffed this2).

(** The call [tower.applyStats(allTowers)] on the store. *)
Definition applyStats_in (r : nat) (allTowers : list nat)
    (h : gmap nat t) : option (gmap nat t) :=
  this ← h !! r;
  this' ← applyStats r (deref h allTowers) this;
  Some (<[ r := this' ]> h).

(** [new Tower(x, y, towerId, gameData)]; the last statement of the
    constructor is [this.applyStats()], with the default argument [[]]. *)
Definition new_ (self : nat) (x0 y0 : Q) (towerId : string)
    (gd : GameData.t) : option t :=
  td ← List.find (fun d => String.eqb (td_id d) towerId) (GameData.towers gd);
  applyStats self []
    (mk x0 y0 true towerId gd td (td_name td) (td_type td)
       0%nat (cost_place td) noStats noStats noStats 0 0 None
       GameConstants.TOWER_RADIUS (1 # 10)).

Definition canAttack (this : t) : bool :=
  truthy (dmg (stats this)) && truthy (firerate_s (stats this))
  && truthy (range (stats this)).

Definition findTargets (this : t) (enemies : list (nat * Enemy.t))
    : list (nat * Enemy.t) :=
  filter
    (fun enemy : nat * Enemy.t =>
       Enemy.isAlive enemy.2
       && Entity.isInRange (x this) (y this)
            (Enemy.x enemy.2) (Enemy.y enemy.2) (range (stats this)))
    enemies.

Definition distanceToEnemy (this : t) (e : Enemy.t) : Q :=
  Entity.distanceTo (x this) (y this) (Enemy.x e) (Enemy.y e).

(** The comparison function handed to [sort] by [selectTarget]. *)
Definition compareTargets (this : t) (a b : nat * Enemy.t) : Q :=
  if negb (Enemy.pathIndex a.2 =? Enemy.pathIndex b.2)%nat
  then inject_Z (Z.of_nat (Enemy.pathIndex b.2)
                 - Z.of_nat (Enemy.pathIndex a.2))
  else if negb (Qeq_bool (Enemy.hp a.2) (Enemy.hp b.2))
  then Enemy.hp b.2 - Enemy.hp a.2
  else distanceToEnemy this a.2 - distanceToEnemy this b.2.

(** [sort(...)[0]]: [None] is the [undefined] read from an empty array. *)
Definition selectTarget (this : t) (targets : list (nat * Enemy.t))
    : option (nat * Enemy.t) :=
  head (Array_sort (compareTargets this) targets).

Definition createProjectile (this : t) (target : nat * Enemy.t)
    : option ProjectileObj.t :=
  damage ← dmg (stats this);
  let data :=
    if String.eqb (type this) "aoe"
    then
      ProjectileObj.mkData (x this) (y this) damage (id this) (type this)
        None
        (Some (mkPoint (Enemy.x target.2) (Enemy.y target.2)))
        (Some (or_default (aoe_radius (stats this)) 50))
        None
    else
      ProjectileObj.mkData (x this) (y this) damage (id this) (type this)
        (Some target.1) None None (ability (stats this)) in
  Some (ProjectileObj.new_ data).

Definition attack (r : nat) (g : GameState.t) : option GameState.t :=
  this ← GameState.towerObjs g !! r;
  let targets :=
    findTargets this (deref (GameState.enemyObjs g) (GameState.enemies g)) in
  match targets with
  | [] => Some g
  | _ =>
      target ← selectTarget this targets;
      firerate ← firerate_s (stats this);
      let this' := set_cooldown firerate this in
      projectile ← createProjectile this' target;
      Some (GameState.set_projectiles
              (GameState.projectiles g ++ [projectile])
              (GameState.set_towerObjs
                 (<[ r := this' ]> (GameState.towerObjs g)) g))
  end.

Definition updateCombat (r : nat) (g : GameState.t) : option GameState.t :=
  this ← GameState.towerObjs g !! r;
  if Qle_bool (cooldown this) 0 && canAttack this then attack r g
  else Some g.

Definition upgrade (self : nat) (allTowers : list (nat * t)) (this : t)
    : option (t * bool) :=
  if (length (upgrades (towerData this)) <=? level this)%nat
  then Some (this, false)
  else
    data ← upgrades (towerData this) !! level this;
    upgradeCost ← cost data;
    this' ←
      applyStats self allTowers
        (set_level_cost (level this + 1)%nat (totalCost this + upgradeCost)
           this);
    Some (this', true).

(** [infect()] ends with [this.applyStats()]: no array is passed, so the
    default argument [[]] is used. *)
Definition infect (self : nat) (this : t) : option t :=
  if String.eqb (type this) "support_sensor" then Some this
  else
    mechanic ← infection_mechanic (GameData.game_settings (gameData this));
    applyStats self []
      (set_infection
         (Some (mkInfection 0 (cure_clicks_required mechanic))) this).

Definition cure (r : nat) (g : GameState.t) : option GameState.t :=
  this ← GameState.towerObjs g !! r;
  match infection this with
  | None => Some g
  | Some _ =>
      let h := <[ r := set_infection None this ]> (GameState.towerObjs g) in
      h' ← applyStats_in r (GameState.towers g) h;
      let st := GameState.gameStats g in
      Some (GameState.set_gameStats
              (GameState.set_infectionsCured
                 (GameState.infectionsCured st + 1)%Z st)
              (GameState.set_towerObjs h' g))
  end.

Definition handleClickCure (r : nat) (g : GameState.t)
    : option GameState.t :=
  this ← GameState.towerObjs g !! r;
  match infection this with
  | None => Some g
  | Some inf =>
      let inf' := mkInfection (cureClicks inf + 1)%Z (cureRequired inf) in
      let g' :=
        GameState.set_towerObjs
          (<[ r := set_infection (Some inf') this ]> (GameState.towerObjs g))
          g in
      if Qle_bool (cureRequired inf') (inject_Z (cureClicks inf'))
      then cure r g'
      else Some g'
  end.

(** The callback that [scanForInfections] hands to [setTimeout]: the tower
    to heal and the delay in milliseconds. *)
Record AutoHeal := mkAutoHeal { healTower : nat; healDelay : Q }.

Definition updateEconomy (r : nat) (g : GameState.t) : option GameState.t :=
  this ← GameState.towerObjs g !! r;
  match income (stats this) with
  | Some amount =>
      if Qle_bool (cooldown this) 0 && negb (Qeq_bool amount 0)
      then
        let g' := GameState.earnMoney amount g in
        Some (GameState.set_towerObjs
                (<[ r := set_cooldown (or_default (interval_s (stats this)) 1)
                           this ]> (GameState.towerObjs g')) g')
      else Some g
  | None => Some g
  end.

(** [scanForInfections] changes no state; its result is the timer it sets,
    if any. *)
Definition scanForInfections (this : t) (g : GameState.t) : option AutoHeal :=
  let infectedTowers :=
    filter
      (fun tower : nat * t =>
         isInfected tower.2
         && Entity.isInRange (x this) (y this) (x tower.2) (y tower.2)
              (range (stats this)))
      (deref (GameState.towerObjs g) (GameState.towers g)) in
  match infectedTowers with
  | [] => None
  | tower :: _ =>
      match auto_heal (stats this) with
      | Some true =>
          Some (mkAutoHeal tower.1
                  (or_default (auto_heal_time_s (stats this)) 5 * 1000))
      | _ => None
      end
  end.

(** The body of the timer callback: [if (tower.infection) tower.cure(...)]. *)
Definition autoHealCallback (tower : nat) (g : GameState.t)
    : option GameState.t :=
  this ← GameState.towerObjs g !! tower;
  match infection this with
  | Some _ => cure tower g
  | None => Some g
  end.

Definition updateSensor (r : nat) (g : GameState.t)
    : option (GameState.t * option AutoHeal) :=
  this ← GameState.towerObjs g !! r;
  if Qle_bool (cooldown this) 0
  then
    Some (GameState.set_towerObjs
            (<[ r := set_cooldown (or_default (scan_delay_s (stats this)) 5)
                       this ]> (GameState.towerObjs g)) g,
          scanForInfections this g)
  else Some (g, None).

Definition update (deltaTime : Q) (r : nat) (g : GameState.t)
    : option (GameState.t * option AutoHeal) :=
  this ← GameState.towerObjs g !! r;
  let g1 :=
    if Qlt_bool 0 (cooldown this)
    then GameState.set_towerObjs
           (<[ r := set_cooldown (cooldown this - deltaTime) this ]>
              (GameState.towerObjs g)) g
    else g in
  if String.eqb (type this) "eco"
  then g' ← updateEconomy r g1; Some (g', None)
  else if String.eqb (type this) "support_sensor"
  then updateSensor r g1
  else if String.eqb (type this) "single"
          || String.eqb (type this) "single_heavy"
          || String.eqb (type this) "aoe"
  then g' ← updateCombat r g1; Some (g', None)
  else Some (g1, None).

End Tower.

(** ** Projectile *)

Module Projectile.
Import ProjectileObj.

Definition updateTrail (p : t) : t :=
  let tr := trail p ++ [mkPoint (x p) (y p)] in
  set_trail (if (maxTrailLength p <? length tr)%nat then tail tr else tr) p.

(** [damageDealt[towerId] += damage], guarded by
    [damageDealt[towerId] !== undefined]. *)
Definition trackDamage (p : t) (g : GameState.t) : GameState.t :=
  let st := GameState.gameStats g in
  match GameState.damageDealt st !! towerId p with
  | Some total =>
      GameState.set_gameStats
        (GameState.set_damageDealt
           (<[ towerId p := total + damage p ]> (GameState.damageDealt st))
           st) g
  | None => g
  end.

(** [this.x += (dx / distance) * moveDistance], and the same for [y]. *)
Definition moveTowards (deltaTime dx dy distance : Q) (p : t) : t :=
  let moveDistance := speed p * deltaTime in
  set_pos (x p + (dx / distance) * moveDistance)
          (y p + (dy / distance) * moveDistance) p.

(** A bound enemy is a reference into the store; a reference that the
    store does not hold is treated like a missing target. *)
Definition liveTarget (p : t) (g : GameState.t) : option (nat * Enemy.t) :=
  r ← target p;
  e ← GameState.enemyObjs g !! r;
  if Enemy.isAlive e then Some (r, e) else None.

Definition hit (p : t) (g : GameState.t) : t * GameState.t :=
  match liveTarget p g with
  | None => (set_active false p, g)
  | Some (r, e) =>
      let e1 := Enemy.takeDamage (damage p) e in
      let g1 := trackDamage p g in
      let e2 :=
        match ability p with
        | Some ab =>
            match slow_pct ab with
            | Some pct =>
                if Qeq_bool pct 0 then e1
                else Enemy.applyStatusEffect "slow" (pct / 100) (15 # 10) e1
            | None => e1
            end
        | None => e1
        end in
      (set_active false p,
       GameState.set_enemyObjs (<[ r := e2 ]> (GameState.enemyObjs g1)) g1)
  end.

Definition explode (p : t) (g : GameState.t) : t * GameState.t :=
  let targets :=
    filter
      (fun enemy : nat * Enemy.t =>
         Enemy.isAlive enemy.2
         && Entity.isInRange (x p) (y p) (Enemy.x enemy.2) (Enemy.y enemy.2)
              (Some (aoeRadius p)))
      (deref (GameState.enemyObjs g) (GameState.enemies g)) in
  let g' :=
    foldl
      (fun acc (enemy : nat * Enemy.t) =>
         trackDamage p
           (GameState.set_enemyObjs
              (alter (Enemy.takeDamage (damage p)) enemy.1
                 (GameState.enemyObjs acc)) acc))
      g targets in
  (set_active false p, g').

Definition updateSingleTarget (deltaTime : Q) (p : t) (g : GameState.t)
    : t * GameState.t :=
  match liveTarget p g with
  | None => (set_active false p, g)
  | Some (_, e) =>
      let dx := Enemy.x e - x p in
      let dy := Enemy.y e - y p in
      let distance := Math_hypot dx dy in
      if Qlt_bool distance 10 then hit p g
      else (moveTowards deltaTime dx dy distance p, g)
  end.

Definition updateAOE (deltaTime : Q) (p : t) (g : GameState.t)
    : option (t * GameState.t) :=
  pos ← targetPos p;
  let dx := px pos - x p in
  let dy := py pos - y p in
  let distance := Math_hypot dx dy in
  if Qlt_bool distance 10 then Some (explode p g)
  else Some (moveTowards deltaTime dx dy distance p, g).

Definition update (deltaTime : Q) (p : t) (g : GameState.t)
    : option (t * GameState.t) :=
  if negb (active p) then Some (p, g)
  else
    let p1 := set_lifetime (lifetime p + deltaTime) p in
    if Qlt_bool (maxLifetime p1) (lifetime p1)
    then Some (set_active false p1, g)
    else
      let p2 := updateTrail p1 in
      if Qlt_bool 0 (aoeRadius p2) then updateAOE deltaTime p2 g
      else Some (updateSingleTarget deltaTime p2 g).

End Projectile.

(** ** WaveManager *)

Module WaveManager.

Record Spawn := mkSpawn { enemyData : EnemyData; spawnTime : Q }.

Record t := mk { spawnQueue : list Spawn; spawnTimer : Q }.

(** The inner [for] loop of [startWave]: the entries pushed for one
    composition group. *)
Definition groupSpawns (data : EnemyData) (group : Group) : list Spawn :=
  map (fun i : nat =>
         mkSpawn data (inject_Z (Z.of_nat i) * (interval_ms group / 1000)))
      (seq 0 (count group)).

Definition buildQueue (gd : GameData.t) (groups : list Group) : list Spawn :=
  foldl
    (fun queue group =>
       match List.find (fun e => String.eqb (ed_id e) (enemy_id group))
               (GameData.enemies gd) with
       | None => queue
       | Some data => queue ++ groupSpawns data group
       end)
    [] groups.

Definition startWave (waveNumber : Z) (gd : GameData.t) (w : t) : t * bool :=
  match
    (if (waveNumber - 1 <? 0)%Z then None
     else GameData.waves gd !! Z.to_nat (waveNumber - 1))
  with
  | None => (w, false)
  | Some waveData => (mk (buildQueue gd (composition waveData)) 0, true)
  end.

(** [gameState.enemies.push(new Enemy(data))]. *)
Definition spawn (p : list Point) (data : EnemyData) (g : GameState.t)
    : option GameState.t :=
  e ← Enemy.new_ p data;
  let r := GameState.nextRef g in
  Some (GameState.set_nextRef (S r)
          (GameState.set_enemies (GameState.enemies g ++ [r])
             (GameState.set_enemyObjs
                (<[ r := e ]> (GameState.enemyObjs g)) g))).

(** The [while] loop of [update]: entries are taken from the front of the
    queue for as long as the front entry is due. *)
Fixpoint spawnDue (p : list Point) (timer : Q) (queue : list Spawn)
    (g : GameState.t) : option (list Spawn * GameState.t) :=
  match queue with
  | [] => Some ([], g)
  | s :: queue' =>
      if Qle_bool (spawnTime s) timer
      then g' ← spawn p (enemyData s) g; spawnDue p timer queue' g'
      else Some (queue, g)
  end.

Definition update (p : list Point) (deltaTime : Q) (w : t) (g : GameState.t)
    : option (t * GameState.t) :=
  match spawnQueue w with
  | [] => Some (w, g)
  | _ =>
      let timer := spawnTimer w + deltaTime in
      '(queue, g') ← spawnDue p timer (spawnQueue w) g;
      Some (mk queue timer, g')
  end.

Definition isComplete (w : t) (g : GameState.t) : bool :=
  (length (spawnQueue w) =? 0)%nat && (length (GameState.enemies g) =? 0)%nat.

End WaveManager.

(** ** InfectionManager *)

Module InfectionManager.

Record t := mk { timer : Q; interval : Q; enabled : bool }.

Definition initialize (gd : GameData.t) (m : t) : t :=
  match infection_mechanic (GameData.game_settings gd) with
  | None => m
  | Some settings => mk 0 (every_s settings) true
  end.

(** [random] is the value returned by [Math.random()]. *)
Definition infectRandomTower (random : Q) (g : GameState.t)
    : option GameState.t :=
  let eligible :=
    filter
      (fun tw : nat * TowerObj.t =>
         negb (TowerObj.isInfected tw.2)
         && negb (String.eqb (TowerObj.type tw.2) "support_sensor"))
      (deref (GameState.towerObjs g) (GameState.towers g)) in
  match eligible with
  | [] => Some g
  | _ =>
      let index :=
        Math_floor (random * inject_Z (Z.of_nat (length eligible))) in
      tower ← (if (index <? 0)%Z then None else eligible !! Z.to_nat index);
      tower' ← Tower.infect tower.1 tower.2;
      let st := GameState.gameStats g in
      Some (GameState.set_gameStats
              (GameState.set_infectionsTotal
                 (GameState.infectionsTotal st + 1)%Z st)
              (GameState.set_towerObjs
                 (<[ tower.1 := tower' ]> (GameState.towerObjs g)) g))
  end.

Definition update (deltaTime random : Q) (m : t) (g : GameState.t)
    : option (t * GameState.t) :=
  if negb (enabled m) || negb (GameState.waveInProgress g) then Some (m, g)
  else
    let m1 := mk (timer m + deltaTime) (interval m) (enabled m) in
    if Qle_bool (interval m1) (timer m1)
    then
      g' ← infectRandomTower random g;
      Some (mk 0 (interval m1) (enabled m1), g')
    else Some (m1, g).

Definition stop (m : t) : t := mk 0 (interval m) false.

End InfectionManager.

(** ** GameManager: the commands on the game state *)

Module GameManager.

(** [this.gameState.towers.forEach(t => t.applyStats(this.gameState.towers))]:
    the towers are recomputed one after the other, each against the store
    as the previous calls left it. *)
Fixpoint forEach_applyStats (rs allTowers : list nat)
    (h : gmap nat TowerObj.t) : option (gmap nat TowerObj.t) :=
  match rs with
  | [] => Some h
  | r :: rs' =>
      h' ← Tower.applyStats_in r allTowers h;
      forEach_applyStats rs' allTowers h'
  end.

Definition reapplyStats (g : GameState.t) : option GameState.t :=
  h ← forEach_applyStats (GameState.towers g) (GameState.towers g)
        (GameState.towerObjs g);
  Some (GameState.set_towerObjs h g).

Definition cancelTowerPlacement (g : GameState.t) : GameState.t :=
  GameState.set_placingTowerType None g.

Definition canPlaceTowerAt (canvasWidth canvasHeight : Q) (p : list Point)
    (x y : Q) (g : GameState.t) : bool :=
  if Qlt_bool x 20 || Qlt_bool (canvasWidth - 20) x
     || Qlt_bool y 20 || Qlt_bool (canvasHeight - 20) y
  then false
  else if existsb
            (fun seg : Point * Point =>
               GeometryUtils.isPointNearLineSegment (mkPoint x y)
                 seg.1 seg.2 45)
            (zip p (tail p))
  then false
  else negb
         (existsb
            (fun tw : nat * TowerObj.t =>
               Qlt_bool
                 (Math_hypot (x - TowerObj.x tw.2) (y - TowerObj.y tw.2)) 40)
            (deref (GameState.towerObjs g) (GameState.towers g))).

Definition selectTowerToPlace (towerId : option string) (g : GameState.t)
    : GameState.t :=
  match towerId with
  | None => cancelTowerPlacement g
  | Some ident =>
      match List.find (fun d => String.eqb (td_id d) ident)
              (GameData.towers (GameState.gameData g)) with
      | None => g
      | Some towerData =>
          if GameState.canAfford (cost_place towerData) g
          then GameState.set_selectedTower None
                 (GameState.set_placingTowerType (Some ident) g)
          else g
      end
  end.

Definition placeTower (canvasWidth canvasHeight : Q) (p : list Point)
    (x y : Q) (g : GameState.t) : option GameState.t :=
  match GameState.placingTowerType g with
  | None => Some g
  | Some towerId =>
      match List.find (fun d => String.eqb (td_id d) towerId)
              (GameData.towers (GameState.gameData g)) with
      | None => Some g
      | Some towerData =>
          if canPlaceTowerAt canvasWidth canvasHeight p x y g
          then
            let '(g1, paid) := GameState.purchase (cost_place towerData) g in
            if paid then
              let r := GameState.nextRef g1 in
              tower ← Tower.new_ r x y towerId (GameState.gameData g1);
              let st := GameState.gameStats g1 in
              let g2 :=
                GameState.set_gameStats
                  (GameState.set_towersPlaced
                     (GameState.towersPlaced st + 1)%Z st)
                  (GameState.set_nextRef (S r)
                     (GameState.set_towers (GameState.towers g1 ++ [r])
                        (GameState.set_towerObjs
                           (<[ r := tower ]> (GameState.towerObjs g1)) g1)))
              in
              g3 ← reapplyStats g2;
              Some (cancelTowerPlacement
                      (GameState.set_selectedTower (Some r) g3))
            else Some g1
          else Some g
      end
  end.

Definition upgradeTower (tower : option nat) (g : GameState.t)
    : option GameState.t :=
  match tower with
  | None => Some g
  | Some r =>
      this ← GameState.towerObjs g !! r;
      match List.find (fun d => String.eqb (td_id d) (TowerObj.id this))
              (GameData.towers (GameState.gameData g)) with
      | None => Some g
      | Some towerData =>
          if (length (upgrades towerData) <=? TowerObj.level this)%nat
          then Some g
          else
            data ← upgrades towerData !! TowerObj.level this;
            match cost data with
            | None => Some g
            | Some upgradeCost =>
                let '(g1, paid) := GameState.purchase upgradeCost g in
                if paid then
                  res ←
                    Tower.upgrade r
                      (deref (GameState.towerObjs g1) (GameState.towers g1))
                      this;
                  let st := GameState.gameStats g1 in
                  let g2 :=
                    GameState.set_gameStats
                      (GameState.set_towersUpgraded
                         (GameState.towersUpgraded st + 1)%Z st)
                      (GameState.set_towerObjs
                         (<[ r := res.1 ]> (GameState.towerObjs g1)) g1) in
                  reapplyStats g2
                else Some g1
            end
      end
  end.



(** The enum [GameStates]. *)
Inductive GameStates :=
  | LOADING | MENU | PLAYING | WAVE_BREAK | PAUSED | GAME_OVER | VICTORY.

(** The game manager: the game state and the two managers it owns, the flow
    fields, and the timers set through [setTimeout] that have not fired
    yet.  [animationFrameId] records whether a frame is requested. *)
Record t := mk {
  gameState : GameState.t;
  waveManager : WaveManager.t;
  infectionManager : InfectionManager.t;
  currentState : GameStates;
  lastTime : Q;
  animationFrameId : bool;
  isPaused : bool;
  timers : list Tower.AutoHeal
}.

Definition set_gameState (g : GameState.t) (m : t) : t :=
  mk g (waveManager m) (infectionManager m) (currentState m) (lastTime m)
    (animationFrameId m) (isPaused m) (timers m).

Definition set_waveManager (w : WaveManager.t) (m : t) : t :=
  mk (gameState m) w (infectionManager m) (currentState m) (lastTime m)
    (animationFrameId m) (isPaused m) (timers m).

Definition set_infectionManager (i : InfectionManager.t) (m : t) : t :=
  mk (gameState m) (waveManager m) i (currentState m) (lastTime m)
    (animationFrameId m) (isPaused m) (timers m).

Definition set_currentState (c : GameStates) (m : t) : t :=
  mk (gameState m) (waveManager m) (infectionManager m) c (lastTime m)
    (animationFrameId m) (isPaused m) (timers m).

Definition set_lastTime (l : Q) (m : t) : t :=
  mk (gameState m) (waveManager m) (infectionManager m) (currentState m) l
    (animationFrameId m) (isPaused m) (timers m).

Definition set_animationFrameId (a : bool) (m : t) : t :=
  mk (gameState m) (waveManager m) (infectionManager m) (currentState m)
    (lastTime m) a (isPaused m) (timers m).

Definition set_isPaused (b : bool) (m : t) : t :=
  mk (gameState m) (waveManager m) (infectionManager m) (currentState m)
    (lastTime m) (animationFrameId m) b (timers m).

Definition set_timers (l : list Tower.AutoHeal) (m : t) : t :=
  mk (gameState m) (waveManager m) (infectionManager m) (currentState m)
    (lastTime m) (animationFrameId m) (isPaused m) l.

Definition set_waveInProgress (b : bool) (g : GameState.t) : GameState.t :=
  GameState.mk (GameState.gameData g) (GameState.money g) (GameState.lives g)
    (GameState.currentWave g) b (GameState.enemies g) (GameState.towers g)
    (GameState.projectiles g) (GameState.selectedTower g)
    (GameState.placingTowerType g) (GameState.gameStats g)
    (GameState.enemyObjs g) (GameState.towerObjs g) (GameState.nextRef g).

Definition set_currentWave (n : Z) (g : GameState.t) : GameState.t :=
  GameState.mk (GameState.gameData g) (GameState.money g) (GameState.lives g)
    n (GameState.waveInProgress g) (GameState.enemies g) (GameState.towers g)
    (GameState.projectiles g) (GameState.selectedTower g)
    (GameState.placingTowerType g) (GameState.gameStats g)
    (GameState.enemyObjs g) (GameState.towerObjs g) (GameState.nextRef g).

Definition set_enemiesKilled (n : Z) (s : GameState.Statistics)
    : GameState.Statistics :=
  GameState.mkStatistics (GameState.moneyEarned s) (GameState.towersPlaced s)
    (GameState.towersUpgraded s) (GameState.infectionsTotal s)
    (GameState.infectionsCured s) n (GameState.damageDealt s).

(** The manager once the constructor and [initialize] have run with the
    loaded game data. *)
Definition initialize (gd : GameData.t) : t :=
  mk (GameState.initialize gd) (WaveManager.mk [] 0)
    (InfectionManager.initialize gd (InfectionManager.mk 0 0 false))
    MENU 0 false false [].

Definition gameOver (m : t) : t :=
  set_infectionManager (InfectionManager.stop (infectionManager m))
    (set_currentState GAME_OVER m).

Definition victory (m : t) : t :=
  set_infectionManager (InfectionManager.stop (infectionManager m))
    (set_currentState VICTORY m).

(** [this.gameState.towers.forEach(tower => tower.update(...))]; the timers
    that the sensors set are collected in order. *)
Fixpoint forEach_update (deltaTime : Q) (rs : list nat) (g : GameState.t)
    (pending : list Tower.AutoHeal)
    : option (GameState.t * list Tower.AutoHeal) :=
  match rs with
  | [] => Some (g, pending)
  | r :: rs' =>
      '(g', timer) ← Tower.update deltaTime r g;
      forEach_update deltaTime rs' g'
        (match timer with
         | Some tm => pending ++ [tm]
         | None => pending
         end)
  end.

Definition updateTowers (deltaTime : Q) (m : t) : option t :=
  '(g, pending) ←
    forEach_update deltaTime (GameState.towers (gameState m)) (gameState m)
      (timers m);
  Some (set_timers pending (set_gameState g m)).

Fixpoint forEach_projectile (deltaTime : Q) (ps : list ProjectileObj.t)
    (g : GameState.t) : option (list ProjectileObj.t * GameState.t) :=
  match ps with
  | [] => Some ([], g)
  | p :: ps' =>
      '(p', g') ← Projectile.update deltaTime p g;
      '(ps'', g'') ← forEach_projectile deltaTime ps' g';
      Some (p' :: ps'', g'')
  end.

Definition updateProjectiles (deltaTime : Q) (m : t) : option t :=
  '(ps, g) ←
    forEach_projectile deltaTime (GameState.projectiles (gameState m))
      (gameState m);
  Some (set_gameState
          (GameState.set_projectiles
             (List.filter ProjectileObj.active ps) g) m).

(** One iteration of the [forEach] of [updateEnemies]; the accumulator is
    the manager and the array [enemiesToRemove]. *)
Definition updateEnemy (p : list Point) (deltaTime : Q)
    (acc : t * list nat) (r : nat) : t * list nat :=
  let '(m, enemiesToRemove) := acc in
  let g := gameState m in
  match GameState.enemyObjs g !! r with
  | None => acc
  | Some e =>
      let enemy := Enemy.update p deltaTime e in
      let g1 :=
        GameState.set_enemyObjs (<[ r := enemy ]> (GameState.enemyObjs g)) g in
      if Enemy.reachedEnd enemy
      then
        let '(g2, over) := GameState.takeDamage 1 g1 in
        let m' := set_gameState g2 m in
        (if over then gameOver m' else m', enemiesToRemove ++ [r])
      else if negb (Enemy.isAlive enemy)
      then
        let g2 := GameState.earnMoney (Enemy.reward enemy) g1 in
        let st := GameState.gameStats g2 in
        (set_gameState
           (GameState.set_gameStats
              (set_enemiesKilled (GameState.enemiesKilled st + 1)%Z st) g2)
           m,
         enemiesToRemove ++ [r])
      else (set_gameState g1 m, enemiesToRemove)
  end.

Definition updateEnemies (p : list Point) (deltaTime : Q) (m : t) : t :=
  let '(m', enemiesToRemove) :=
    foldl (updateEnemy p deltaTime) (m, [])
      (GameState.enemies (gameState m)) in
  set_gameState
    (GameState.set_enemies
       (List.filter
          (fun r => negb (existsb (Nat.eqb r) enemiesToRemove))
          (GameState.enemies (gameState m')))
       (gameState m'))
    m'.

Definition waveComplete (m : t) : t :=
  let m' :=
    set_currentState WAVE_BREAK
      (set_gameState (set_waveInProgress false (gameState m)) m) in
  if (Z.of_nat (length (GameData.waves (GameState.gameData (gameState m'))))
      <=? GameState.currentWave (gameState m'))%Z
  then victory m'
  else m'.

Definition startNextWave (m : t) : t :=
  match currentState m with
  | WAVE_BREAK =>
      let g :=
        set_currentWave (GameState.currentWave (gameState m) + 1)
          (gameState m) in
      let m1 := set_gameState g m in
      if (Z.of_nat (length (GameData.waves (GameState.gameData g)))
          <? GameState.currentWave g)%Z
      then victory m1
      else
        let m2 :=
          set_currentState PLAYING
            (set_gameState (set_waveInProgress true g) m1) in
        let '(w, started) :=
          WaveManager.startWave (GameState.currentWave g)
            (GameState.gameData g) (waveManager m2) in
        if started then set_waveManager w m2
        else
          set_currentState WAVE_BREAK
            (set_gameState (set_waveInProgress false (gameState m2)) m2)
  | _ => m
  end.

(** [random] is the value that [Math.random()] returns if it is called
    during the tick. *)
Definition updateGameplay (p : list Point) (deltaTime random : Q) (m : t)
    : option t :=
  '(im, g1) ←
    InfectionManager.update deltaTime random (infectionManager m)
      (gameState m);
  '(w, g2) ← WaveManager.update p deltaTime (waveManager m) g1;
  let m2 := set_gameState g2 (set_waveManager w (set_infectionManager im m)) in
  m3 ← updateTowers deltaTime m2;
  m4 ← updateProjectiles deltaTime m3;
  let m5 := updateEnemies p deltaTime m4 in
  if GameState.waveInProgress (gameState m5)
     && WaveManager.isComplete (waveManager m5) (gameState m5)
  then Some (waveComplete m5)
  else Some m5.

(** The time step that [update] works with: zero and negative values are
    replaced by the default step. *)
Definition validDelta (deltaTime : Q) : Q :=
  if Qeq_bool deltaTime 0 || Qle_bool deltaTime 0 then 16 # 1000
  else deltaTime.

Definition update (p : list Point) (deltaTime random : Q) (m : t)
    : option t :=
  let deltaTime := validDelta deltaTime in
  match currentState m with
  | PLAYING => updateGameplay p deltaTime random m
  | WAVE_BREAK => updateTowers deltaTime m
  | _ => Some m
  end.

Definition gameLoop (p : list Point) (timestamp random : Q) (m : t)
    : option t :=
  let deltaTime := Math_min ((timestamp - lastTime m) / 1000) (1 # 10) in
  let m1 := set_lastTime timestamp m in
  m2 ← (if isPaused m1 then Some m1 else update p deltaTime random m1);
  Some (set_animationFrameId
          (match currentState m2 with
           | GAME_OVER | VICTORY => false
           | _ => true
           end) m2).

Definition togglePause (m : t) : t :=
  match currentState m with
  | PLAYING => set_isPaused (negb (isPaused m)) m
  | _ => m
  end.

(** The host runs the callback of the pending timer number [index]. *)
Definition fireTimer (index : nat) (m : t) : option t :=
  timer ← timers m !! index;
  g ← Tower.autoHealCallback (Tower.healTower timer) (gameState m);
  Some (set_timers (delete index (timers m)) (set_gameState g m)).

End GameManager.

(** * Vocabulary of the properties *)

(** Path progress of an enemy, and its lexicographic order. *)
Definition progress (e : Enemy.t) : nat * Q :=
  (Enemy.pathIndex e, Enemy.distanceAlongSegment e).

Definition progress_le (a b : nat * Q) : Prop :=
  (a.1 < b.1)%nat \/ (a.1 = b.1 /\ a.2 <= b.2).

(** Length of the segment that starts at waypoint [i]. *)
Definition segmentLength (p : list Point) (i : nat) : Q :=
  Math_hypot (px (p !!! (i + 1)%nat) - px (p !!! i))
             (py (p !!! (i + 1)%nat) - py (p !!! i)).

(** The boss guard of [applyStatusEffect]. *)
Definition immune (e : Enemy.t) (type : string) (value : Q) : bool :=
  String.eqb (Enemy.id e) "pest_boss" && String.eqb type "slow"
  && Qlt_bool value (35 # 100).

(** The replacement rule for a status effect as the specification words it:
    an existing record of the same type is replaced exactly when the new
    value or the new duration is strictly greater, and otherwise the enemy
    is left as it was. *)
Definition replaces_exactly_when_stronger (e : Enemy.t) (type : string)
    (value duration : Q) : Prop :=
  forall ex, Enemy.statusEffects e !! type = Some ex ->
    ((Enemy.value ex < value \/ Enemy.duration ex < duration) ->
       Enemy.statusEffects (Enemy.applyStatusEffect type value duration e)
         !! type = Some (Enemy.mkEffect value duration))
    /\ (~ (Enemy.value ex < value \/ Enemy.duration ex < duration) ->
       Enemy.applyStatusEffect type value duration e = e).

(** [n] successive cure clicks on the tower [r]. *)
Fixpoint cureClicksN (n : nat) (r : nat) (g : GameState.t)
    : option GameState.t :=
  match n with
  | O => Some g
  | S n' => g' ← Tower.handleClickCure r g; cureClicksN n' r g'
  end.

(** What [calculateBuffedStats] reads of another tower: its type, its
    position and its base stats. *)
Definition sourceEq (a b : TowerObj.t) : Prop :=
  TowerObj.type a = TowerObj.type b
  /\ TowerObj.x a = TowerObj.x b
  /\ TowerObj.y a = TowerObj.y b
  /\ TowerObj.baseStats a = TowerObj.baseStats b.

(** Two stores agree on everything a recompute of [self] reads from the
    other towers. *)
Definition sourcesAgree (self : nat) (h h' : gmap nat TowerObj.t) : Prop :=
  forall r, r <> self -> option_Forall2 sourceEq (h !! r) (h' !! r).

(** The stats of tower [r] are up to date: recomputing them against the
    current tower array changes nothing. *)
Definition statsCurrent (g : GameState.t) (r : nat) : Prop :=
  exists this,
    GameState.towerObjs g !! r = Some this
    /\ Tower.applyStats r
         (deref (GameState.towerObjs g) (GameState.towers g)) this
       = Some this.








(** [sort] places [a] no later than [b] when the comparison function does
    not return a positive number for them. *)
Definition before {A} (compareFn : A -> A -> Q) (a b : A) : Prop :=
  compareFn a b <= 0.

(** The order of target selection: [a] is at least as good a target as
    [b] when it is further along the path, or as far with more hit points,
    or as far with the same hit points and not further from the tower. *)
Definition prefers (this : TowerObj.t) (a b : nat * Enemy.t) : Prop :=
  (Enemy.pathIndex b.2 < Enemy.pathIndex a.2)%nat
  \/ (Enemy.pathIndex a.2 = Enemy.pathIndex b.2
      /\ (Enemy.hp b.2 < Enemy.hp a.2
          \/ (Enemy.hp a.2 == Enemy.hp b.2
              /\ Tower.distanceToEnemy this a.2
                 <= Tower.distanceToEnemy this b.2))).


(** [e'] is [e] up to its hit points: every other field, the status-effect
    map and the speed among them, is the same. *)
Definition sameButHp (e e' : Enemy.t) : Prop :=
  e' = Enemy.set_hp (Enemy.hp e') e.

(** The enemies hit by the explosion of [p]: alive and within the blast
    radius, the boundary included. *)
Definition inBlast (p : ProjectileObj.t) (e : Enemy.t) : bool :=
  Enemy.isAlive e
  && Entity.isInRange (ProjectileObj.x p) (ProjectileObj.y p)
       (Enemy.x e) (Enemy.y e) (Some (ProjectileObj.aoeRadius p)).

(** No enemy of the store is lost and none changes but in its hit points. *)
Definition onlyHpChanges (g g' : GameState.t) : Prop :=
  forall r e,
    GameState.enemyObjs g !! r = Some e ->
    exists e', GameState.enemyObjs g' !! r = Some e' /\ sameButHp e e'.

(** The same tower up to the three stat snapshots. *)
Definition sameButSnapshots (a b : TowerObj.t) : Prop :=
  b = TowerObj.set_snapshots (TowerObj.stats b) (TowerObj.baseStats b)
        (TowerObj.buffedStats b) a.

(** What the constructor and [upgrade] establish for a tower: its base
    stats are the stat block of its level; and what [infect] establishes:
    an infected tower belongs to a game with the infection mechanic. *)
Definition towerOk (this : TowerObj.t) : Prop :=
  TowerObj.baseStats this = Tower.levelData this
  /\ (TowerObj.isInfected this = true ->
      is_Some (infection_mechanic
                 (GameData.game_settings (TowerObj.gameData this)))).

Definition towersOk (h : gmap nat TowerObj.t) (rs : list nat) : Prop :=
  forall r, r ∈ rs -> exists this, h !! r = Some this /\ towerOk this.

(** Two stores hold the same towers up to their stat snapshots, with the
    same base stats. *)
Definition sourcesSame (h h' : gmap nat TowerObj.t) : Prop :=
  forall r,
    option_Forall2
      (fun a b => sameButSnapshots a b
                  /\ TowerObj.baseStats a = TowerObj.baseStats b)
      (h !! r) (h' !! r).

(** The offsets of a spawn queue, in queue order. *)
Definition spawnTimes (queue : list WaveManager.Spawn) : list Q :=
  map WaveManager.spawnTime queue.

(** No entry left in the queue is due. *)
Definition noneDue (w : WaveManager.t) : Prop :=
  Forall (fun s => WaveManager.spawnTimer w < WaveManager.spawnTime s)
    (WaveManager.spawnQueue w).





(** Sample objects used to exercise the statements. *)
Module Sample.

Definition pestAt (x y : Q) (ident : string) (hp0 speed0 : Q) (index : nat)
    (effects : gmap string Enemy.Effect) : Enemy.t :=
  Enemy.mk x y true ident ident 50 hp0 speed0 speed0 5 "red"
    index 0 false effects 10 20.

Definition pest : string -> Q -> Q -> nat -> gmap string Enemy.Effect
                  -> Enemy.t :=
  pestAt (-50) 200.

Definition boss : Enemy.t :=
  pest "pest_boss" 50 1 0 {[ "slow" := Enemy.mkEffect (1 # 2) (1 # 5) ]}.

Definition stats3 (d f r : option Q) : Stats :=
  mkStats d f r None None None None None None None None None None.

(** A small configuration: a single-target tower with one upgrade, a
    support tower, an area tower with a slowing ability, a sensor; two
    kinds of enemies; a wave of two groups; the infection mechanic. *)
Definition gameData : GameData.t :=
  GameData.mk
    [ mkTowerData "drone" "Drone" "single" 100
        (stats3 (Some 10) (Some 1) (Some 100))
        [ mkStats (Some 15) (Some (4 # 5)) (Some 110) None None None None
            None None None None None (Some 30) ];
      mkTowerData "greenhouse" "Greenhouse" "support" 150
        (mkStats None None (Some 100) None None (Some 10) (Some 20) None
           None None None None None) [];
      mkTowerData "sprinkler" "Sprinkler" "aoe" 120
        (mkStats (Some 5) (Some 2) (Some 90) None None None None None None
           None (Some 40) (Some (mkAbility (Some 30))) None) [];
      mkTowerData "sensor" "Sensor" "support_sensor" 80
        (mkStats None None (Some 150) None None None None (Some 5)
           (Some true) None None None None) [] ]
    [ mkEnemyData "pest" "Pest" 50 1 5 "red";
      mkEnemyData "pest_fast" "Fast pest" 30 2 5 "blue" ]
    [ mkWave [ mkGroup "pest" 2 1000; mkGroup "pest_fast" 2 500 ] ]
    (mkGameSettings 500 20
       (Some (mkInfectionMechanic 30 4 (mkInfectionEffect 50 (-20))))).

Definition initial : GameState.t := GameState.initialize gameData.

(** The wave manager after [startWave(1)]. *)
Definition wave1 : WaveManager.t :=
  (WaveManager.startWave 1 gameData (WaveManager.mk [] 0)).1.

Definition state_of (o : option GameState.t) : GameState.t :=
  default initial o.

(** Select a tower in the shop and click on an 800 x 600 canvas. *)
Definition place (towerId : string) (x y : Q) (g : GameState.t)
    : option GameState.t :=
  GameManager.placeTower 800 600 path x y
    (GameManager.selectTowerToPlace (Some towerId) g).

(** A greenhouse (reference 0) and, 50 away from it, a drone
    (reference 1). *)
Definition first : GameState.t :=
  state_of (place "greenhouse" 100 100 initial).

Definition placed : GameState.t :=
  state_of (place "drone" 130 140 first).

(** The same state after [infectRandomTower] has drawn 1/2, which picks
    the drone. *)
Definition infected : GameState.t :=
  state_of (InfectionManager.infectRandomTower (1 # 2) placed).

Definition blank : TowerObj.t :=
  TowerObj.mk 0 0 true "blank" gameData
    (mkTowerData "blank" "blank" "none" 0 noStats [])
    "blank" "none" 0 0 noStats noStats noStats 0 0 None 0 0.

(** The tower behind a reference that the store holds. *)
Definition tower_at (g : GameState.t) (r : nat) : TowerObj.t :=
  default blank (GameState.towerObjs g !! r).


(** The drone upgraded once: its total cost is 100 + 30. *)
Definition upgraded : GameState.t :=
  state_of (GameManager.upgradeTower (Some 1%nat) placed).

(** Three enemies within the range of the drone. *)
Definition crowd : list (nat * Enemy.t) :=
  [ (0%nat, pestAt 130 200 "pest" 50 1 1 ∅);
    (1%nat, pestAt 130 220 "pest" 30 1 2 ∅);
    (2%nat, pestAt 100 200 "pest" 50 1 2 ∅) ].

Definition sprinkler : TowerObj.t :=
  tower_at (state_of (place "sprinkler" 400 300 initial)) 0.

(** A game state holding the three enemies of [crowd]. *)
Definition battle : GameState.t :=
  GameState.set_nextRef 3
    (GameState.set_enemies [0; 1; 2]%nat
       (GameState.set_enemyObjs (list_to_map crowd) initial)).

End Sample.

(** * Vocabulary of the further properties *)

(** The factor that [recalculateSpeed] applies to the base speed. *)
Definition speedMultiplier (effects : gmap string Enemy.Effect) : Q :=
  match effects !! "slow" with
  | Some slowEffect => 1 * (1 - Enemy.value slowEffect)
  | None => 1
  end.

(** The speed of the enemy is the one its status effects give. *)
Definition speedOk (e : Enemy.t) : Prop :=
  Enemy.speed e == Enemy.baseSpeed e * speedMultiplier (Enemy.statusEffects e).

(** The same enemy up to its status effects and its speed. *)
Definition sameButEffects (e e' : Enemy.t) : Prop :=
  e' = Enemy.set_speed (Enemy.speed e')
         (Enemy.set_statusEffects (Enemy.statusEffects e') e).

(** What one tick leaves of an effect record: nothing once its remaining
    duration is used up, otherwise the record with less time left. *)
Definition aged (deltaTime : Q) (ef : Enemy.Effect) : option Enemy.Effect :=
  if Qle_bool (Enemy.duration ef - deltaTime) 0 then None
  else Some (Enemy.mkEffect (Enemy.value ef) (Enemy.duration ef - deltaTime)).

(** The same tower up to its cooldown. *)
Definition sameButCooldown (a b : TowerObj.t) : Prop :=
  b = TowerObj.set_cooldown (TowerObj.cooldown b) a.

(** What the update of tower [r] may change of the game state: the tower
    itself, and of the tower the cooldown only; the money and the
    statistics; the projectile array. *)
Definition towerTick (r : nat) (g g' : GameState.t) : Prop :=
  exists this this',
    GameState.towerObjs g !! r = Some this
    /\ sameButCooldown this this'
    /\ g' = GameState.set_money (GameState.money g')
              (GameState.set_gameStats (GameState.gameStats g')
                 (GameState.set_projectiles (GameState.projectiles g')
                    (GameState.set_towerObjs
                       (<[ r := this' ]> (GameState.towerObjs g)) g))).

(** The tower types that [Tower.update] sends to [updateCombat]. *)
Definition isCombat (this : TowerObj.t) : bool :=
  String.eqb (TowerObj.type this) "single"
  || String.eqb (TowerObj.type this) "single_heavy"
  || String.eqb (TowerObj.type this) "aoe".

(** A second configuration: the sample one with an income tower. *)
Module Play.

Definition gameData : GameData.t :=
  GameData.mk
    (GameData.towers Sample.gameData
     ++ [ mkTowerData "farm" "Farm" "eco" 200
            (mkStats None None None (Some 25) (Some 5) None None None None
               None None None None) [] ])
    (GameData.enemies Sample.gameData)
    (GameData.waves Sample.gameData)
    (GameData.game_settings Sample.gameData).

Definition initial : GameState.t := GameState.initialize gameData.

(** A farm (reference 0). *)
Definition farmed : GameState.t :=
  Sample.state_of (Sample.place "farm" 100 100 initial).

(** The greenhouse and the drone of [Sample.placed], and three enemies
    within the range of the drone. *)
Definition fight : GameState.t :=
  GameState.set_nextRef 5
    (GameState.set_enemies [2; 3; 4]%nat
       (GameState.set_enemyObjs
          (list_to_map
             [ (2%nat, Sample.pestAt 130 200 "pest" 50 1 1 ∅);
               (3%nat, Sample.pestAt 130 220 "pest" 30 1 2 ∅);
               (4%nat, Sample.pestAt 100 200 "pest" 50 1 2 ∅) ])
          Sample.placed)).

(** The greenhouse, the drone and a sensor (reference 2); the drone is
    infected. *)
Definition watched : GameState.t :=
  Sample.state_of
    (InfectionManager.infectRandomTower (1 # 2)
       (Sample.state_of (Sample.place "sensor" 100 50 Sample.placed))).

(** A projectile of the drone bound to the enemy with reference 2, next to
    it. *)
Definition shot : ProjectileObj.t :=
  ProjectileObj.new_
    (ProjectileObj.mkData 130 195 10 "drone" "single" (Some 2%nat) None None
       (Some (mkAbility (Some 30)))).

(** A manager in the middle of a tick. *)
Definition playing (g : GameState.t) : GameManager.t :=
  GameManager.set_currentState GameManager.PLAYING
    (GameManager.set_gameState (GameManager.set_waveInProgress true g)
       (GameManager.initialize Sample.gameData)).

(** The last wave with its queue spawned out, one life left, and the last
    enemy six units before the end of the path. *)
Definition lastStand : GameManager.t :=
  playing
    (GameManager.set_currentWave 1
       (GameState.set_lives 1
          (GameState.set_nextRef 1
             (GameState.set_enemies [0%nat]
                (GameState.set_enemyObjs
                   {[ 0%nat :=
                        Enemy.mk 1244 500 true "pest" "Pest" 50 50 1 1 5
                          "red" 6 344 false ∅ 10 20 ]}
                   Sample.initial))))).


End Play.

(** The number of entries that [startWave] queues for a composition group:
    none when the enemy of the group is not configured. *)
Definition knownCount (gd : GameData.t) (group : Group) : nat :=
  match List.find (fun e => String.eqb (ed_id e) (enemy_id group))
          (GameData.enemies gd) with
  | Some _ => count group
  | None => 0
  end.

(** The entries that [startWave] queues for a composition group. *)
Definition groupEntries (gd : GameData.t) (group : Group)
    : list WaveManager.Spawn :=
  match List.find (fun e => String.eqb (ed_id e) (enemy_id group))
          (GameData.enemies gd) with
  | Some data => WaveManager.groupSpawns data group
  | None => []
  end.

(** What a projectile may change of the game state: the enemies behind the
    references and the statistics. *)
Definition combatFrame (g g' : GameState.t) : Prop :=
  g' = GameState.set_gameStats (GameState.gameStats g')
         (GameState.set_enemyObjs (GameState.enemyObjs g') g).

(** * Properties *)

(** ** Comparisons on rationals *)

Lemma Qlt_bool_iff (a b : Q) : Qlt_bool a b = true <-> a < b.
Proof.
  unfold Qlt_bool. rewrite negb_true_iff.
  split; intros H.
  - apply Qnot_le_lt. intros Hle. apply Qle_bool_iff in Hle. congruence.
  - destruct (Qle_bool b a) eqn:E; [|reflexivity].
    apply Qle_bool_iff in E. exfalso. apply (Qlt_not_le _ _ H E).
Qed.

Lemma Qlt_bool_false (a b : Q) : Qlt_bool a b = false <-> b <= a.
Proof.
  unfold Qlt_bool. rewrite negb_false_iff. apply Qle_bool_iff.
Qed.

Lemma Qle_bool_false (a b : Q) : Qle_bool a b = false <-> b < a.
Proof.
  rewrite <- Qlt_bool_iff. unfold Qlt_bool.
  destruct (Qle_bool a b); simpl; split; congruence.
Qed.

(** ** Enemy *)

Lemma update_reachedEnd (p : list Point) (deltaTime : Q) (e : Enemy.t) :
  Enemy.reachedEnd e = true -> Enemy.update p deltaTime e = e.
Proof. intros Hend. unfold Enemy.update. now rewrite Hend. Qed.

Lemma update_dead (p : list Point) (deltaTime : Q) (e : Enemy.t) :
  Enemy.hp e <= 0 -> Enemy.update p deltaTime e = e.
Proof.
  intros Hdead. unfold Enemy.update.
  assert (Halive : Enemy.isAlive e = false).
  { unfold Enemy.isAlive. now apply Qlt_bool_false. }
  rewrite Halive. now rewrite orb_true_r.
Qed.

(** C10. An enemy that has reached the end of the path, or whose hit points
    are zero, is returned unchanged by [update], whatever the time step:
    no field of it moves. *)
Theorem enemy_update_frozen (p : list Point) (deltaTime : Q) (e : Enemy.t) :
  Enemy.reachedEnd e = true \/ Enemy.hp e == 0 ->
  Enemy.update p deltaTime e = e.
Proof.
  intros [Hend | Hdead].
  - now apply update_reachedEnd.
  - apply update_dead. rewrite Hdead. apply Qle_refl.
Qed.

Lemma enemy_update_frozen_witness :
  Enemy.update path (1 # 10) (Sample.pest "pest" 0 1 2 ∅)
  = Sample.pest "pest" 0 1 2 ∅.
Proof.
  apply (enemy_update_frozen path (1 # 10) (Sample.pest "pest" 0 1 2 ∅)).
  right. reflexivity.
Defined.

Lemma moveAlongPath_at_end (p : list Point) (deltaTime : Q) (e : Enemy.t) :
  (Z.of_nat (length p) - 1 <= Z.of_nat (Enemy.pathIndex e))%Z ->
  Enemy.moveAlongPath p deltaTime e = Enemy.set_reachedEnd true e.
Proof.
  intros H. unfold Enemy.moveAlongPath.
  apply Z.leb_le in H. now rewrite H.
Qed.

(** The three outcomes of [moveAlongPath]: already at the last waypoint; the
    segment boundary is reached; the enemy stays inside the segment. *)
Lemma moveAlongPath_cases (p : list Point) (deltaTime : Q) (e : Enemy.t) :
  let e' := Enemy.moveAlongPath p deltaTime e in
  let advanced :=
    Enemy.distanceAlongSegment e
    + Enemy.speed e * deltaTime * GameConstants.ENEMY_SPEED_MULTIPLIER in
  ((Z.of_nat (length p) - 1 <= Z.of_nat (Enemy.pathIndex e))%Z
   /\ e' = Enemy.set_reachedEnd true e)
  \/ ((Z.of_nat (Enemy.pathIndex e) < Z.of_nat (length p) - 1)%Z
      /\ segmentLength p (Enemy.pathIndex e) <= advanced
      /\ Enemy.pathIndex e' = S (Enemy.pathIndex e)
      /\ Enemy.distanceAlongSegment e' = 0
      /\ ((Z.of_nat (length p) - 1 <= Z.of_nat (S (Enemy.pathIndex e)))%Z ->
          Enemy.reachedEnd e' = true))
  \/ ((Z.of_nat (Enemy.pathIndex e) < Z.of_nat (length p) - 1)%Z
      /\ advanced < segmentLength p (Enemy.pathIndex e)
      /\ Enemy.pathIndex e' = Enemy.pathIndex e
      /\ Enemy.distanceAlongSegment e' = advanced).
Proof.
  cbv zeta. unfold Enemy.moveAlongPath.
  fold (segmentLength p (Enemy.pathIndex e)).
  destruct (Z.of_nat (length p) - 1 <=? Z.of_nat (Enemy.pathIndex e))%Z eqn:Hend.
  - left. apply Z.leb_le in Hend. split; [exact Hend | reflexivity].
  - right. apply Z.leb_gt in Hend. cbv zeta. simpl Enemy.distanceAlongSegment.
    simpl Enemy.pathIndex.
    destruct (Qle_bool _ _) eqn:Hcross.
    + left. apply Qle_bool_iff in Hcross.
      split; [exact Hend|]. split; [exact Hcross|].
      destruct (_ <=? _)%Z eqn:Hlast; simpl.
      * repeat split; try lia.
      * apply Z.leb_gt in Hlast. repeat split; try lia.
    + right. apply Qle_bool_false in Hcross.
      split; [exact Hend|]. split; [exact Hcross|]. simpl. split; reflexivity.
Qed.

(** C6. With a non-negative speed and a time step in (0, MAX_DELTA_TIME],
    one call of [moveAlongPath] never decreases the progress
    (pathIndex, distanceAlongSegment) in the lexicographic order; when the
    advanced distance reaches the length of the current segment the index
    grows by one and the distance is reset to 0, the overshoot being
    dropped; an index at the last waypoint sets [reachedEnd]; and an enemy
    with [reachedEnd] set is not advanced by later updates. *)
Theorem moveAlongPath_progress (p : list Point) (deltaTime : Q) (e : Enemy.t) :
  0 <= Enemy.speed e ->
  0 < deltaTime ->
  deltaTime <= GameConstants.MAX_DELTA_TIME ->
  let e' := Enemy.moveAlongPath p deltaTime e in
  progress_le (progress e) (progress e')
  /\ ((Z.of_nat (Enemy.pathIndex e) < Z.of_nat (length p) - 1)%Z ->
      segmentLength p (Enemy.pathIndex e)
        <= Enemy.distanceAlongSegment e
           + Enemy.speed e * deltaTime * GameConstants.ENEMY_SPEED_MULTIPLIER ->
      Enemy.pathIndex e' = S (Enemy.pathIndex e)
      /\ Enemy.distanceAlongSegment e' = 0)
  /\ ((Z.of_nat (length p) - 1 <= Z.of_nat (Enemy.pathIndex e'))%Z ->
      Enemy.reachedEnd e' = true)
  /\ (Enemy.reachedEnd e' = true ->
      forall dt', Enemy.update p dt' e' = e').
Proof.
  intros Hspeed Hdt Hmax e'.
  assert (Hmove : 0 <= Enemy.speed e * deltaTime
                       * GameConstants.ENEMY_SPEED_MULTIPLIER).
  { unfold GameConstants.ENEMY_SPEED_MULTIPLIER.
    apply Qmult_le_0_compat; [apply Qmult_le_0_compat|]; lra. }
  assert (Hfrozen : Enemy.reachedEnd e' = true ->
            forall dt', Enemy.update p dt' e' = e').
  { intros Hr dt'. now apply update_reachedEnd. }
  pose proof (moveAlongPath_cases p deltaTime e) as Hcases.
  cbv zeta in Hcases. fold e' in Hcases.
  unfold progress_le, progress. simpl.
  destruct Hcases as [[Hend He'] | [(Hin & Hcross & Hidx & Hdist & Hlast)
                                   | (Hin & Hstay & Hidx & Hdist)]].
  - assert (Hidx : Enemy.pathIndex e' = Enemy.pathIndex e)
      by (rewrite He'; reflexivity).
    assert (Hdist : Enemy.distanceAlongSegment e'
                    = Enemy.distanceAlongSegment e)
      by (rewrite He'; reflexivity).
    assert (Hr : Enemy.reachedEnd e' = true) by (rewrite He'; reflexivity).
    rewrite Hidx, Hdist. split; [|split; [|split]].
    + right. split; [reflexivity | apply Qle_refl].
    + intros Hlt. lia.
    + intros _. exact Hr.
    + exact Hfrozen.
  - rewrite Hidx, Hdist. split; [|split; [|split]].
    + left. lia.
    + intros _ _. split; reflexivity.
    + exact Hlast.
    + exact Hfrozen.
  - rewrite Hidx, Hdist. split; [|split; [|split]].
    + right. split; [reflexivity | lra].
    + intros _ Hge. exfalso. apply (Qlt_not_le _ _ Hstay Hge).
    + intros Hge. lia.
    + exact Hfrozen.
Qed.

Lemma moveAlongPath_progress_witness :
  let e := Sample.pest "pest" 50 1 0 ∅ in
  let e' := Enemy.moveAlongPath path (1 # 10) e in
  progress_le (progress e) (progress e').
Proof.
  intros e e'.
  apply (moveAlongPath_progress path (1 # 10) e); vm_compute; congruence.
Defined.

Lemma statusEffects_recalculateSpeed (e : Enemy.t) :
  Enemy.statusEffects (Enemy.recalculateSpeed e) = Enemy.statusEffects e.
Proof. reflexivity. Qed.

Lemma stronger_test (ex : Enemy.Effect) (value duration : Q) :
  Qlt_bool (Enemy.value ex) value || Qlt_bool (Enemy.duration ex) duration
  = true
  <-> (Enemy.value ex < value \/ Enemy.duration ex < duration).
Proof.
  rewrite orb_true_iff, !Qlt_bool_iff. reflexivity.
Qed.

(** C5, as the code has it.  Unless the boss guard applies, an existing
    record of the same type is replaced exactly when the new value or the new
    duration is strictly greater, and is otherwise left alone together with
    the whole enemy; a type without a record receives the new one; records of
    other types are never touched, so a type has at most one record.  When
    the guard applies (a slow weaker than 0.35 on the boss) the call changes
    nothing. *)
Theorem applyStatusEffect_replacement (e : Enemy.t) (type : string)
    (value duration : Q) :
  let e' := Enemy.applyStatusEffect type value duration e in
  (immune e type value = false ->
     replaces_exactly_when_stronger e type value duration
     /\ (Enemy.statusEffects e !! type = None ->
         Enemy.statusEffects e' !! type
         = Some (Enemy.mkEffect value duration)))
  /\ (immune e type value = true -> e' = e)
  /\ (forall other, other <> type ->
        Enemy.statusEffects e' !! other = Enemy.statusEffects e !! other).
Proof.
  intros e'. subst e'. unfold replaces_exactly_when_stronger.
  unfold Enemy.applyStatusEffect. fold (immune e type value).
  split; [|split].
  - intros Himm. rewrite Himm. split.
    + intros ex Hex. rewrite Hex. split.
      * intros Hs. apply stronger_test in Hs. rewrite Hs.
        rewrite statusEffects_recalculateSpeed. simpl.
        apply lookup_insert_eq.
      * intros Hs.
        destruct (Qlt_bool (Enemy.value ex) value
                  || Qlt_bool (Enemy.duration ex) duration) eqn:E;
          [|reflexivity].
        apply stronger_test in E. contradiction.
    + intros Hnone. rewrite Hnone.
      rewrite statusEffects_recalculateSpeed. simpl.
      apply lookup_insert_eq.
  - intros Himm. now rewrite Himm.
  - intros other Hne.
    destruct (immune e type value); [reflexivity|].
    destruct (match Enemy.statusEffects e !! type with
              | Some ex => _
              | None => true
              end); [|reflexivity].
    rewrite statusEffects_recalculateSpeed. simpl.
    now apply lookup_insert_ne.
Qed.

Lemma applyStatusEffect_replacement_witness :
  replaces_exactly_when_stronger
    (Sample.pest "pest" 50 1 0 {[ "slow" := Enemy.mkEffect (1 # 2) (1 # 5) ]})
    "slow" (3 # 10) (3 # 2)
  /\ Enemy.applyStatusEffect "slow" (3 # 10) (3 # 2) Sample.boss = Sample.boss.
Proof.
  split.
  - apply (applyStatusEffect_replacement
             (Sample.pest "pest" 50 1 0
                {[ "slow" := Enemy.mkEffect (1 # 2) (1 # 5) ]})
             "slow" (3 # 10) (3 # 2)).
    reflexivity.
  - apply (applyStatusEffect_replacement Sample.boss "slow" (3 # 10) (3 # 2)).
    reflexivity.
Defined.

(** The rule as the specification words it fails on the boss: its slow of
    value 1/2 with 1/5 s left is not replaced by a slow of value 3/10 lasting
    3/2 s, although the new duration is strictly greater. *)
Lemma applyStatusEffect_boss_counterexample :
  ~ replaces_exactly_when_stronger Sample.boss "slow" (3 # 10) (3 # 2).
Proof.
  intros H.
  destruct (H (Enemy.mkEffect (1 # 2) (1 # 5)) eq_refl) as [Hrep _].
  assert (Hlonger : Enemy.value (Enemy.mkEffect (1 # 2) (1 # 5)) < 3 # 10
                    \/ Enemy.duration (Enemy.mkEffect (1 # 2) (1 # 5)) < 3 # 2).
  { right. reflexivity. }
  specialize (Hrep Hlonger). vm_compute in Hrep. discriminate Hrep.
Qed.

(** ** Tower: recomputation of the stats *)

Section TowerFacts.
Import TowerObj.

Lemma deref_cons {A} (h : gmap nat A) (r : nat) (rs : list nat) :
  deref h (r :: rs)
  = match h !! r with
    | Some a => (r, a) :: deref h rs
    | None => deref h rs
    end.
Proof. unfold deref. simpl. now destruct (h !! r). Qed.

Lemma buffStep_self (self : nat) (this other : t) (acc : Q * Q) :
  Tower.buffStep self this acc (self, other) = acc.
Proof. unfold Tower.buffStep. simpl. now rewrite Nat.eqb_refl. Qed.

Lemma buffStep_sourceEq (self r : nat) (this a b : t) (acc : Q * Q) :
  sourceEq a b ->
  Tower.buffStep self this acc (r, a) = Tower.buffStep self this acc (r, b).
Proof.
  intros (Ht & Hx & Hy & Hb). unfold Tower.buffStep. simpl.
  now rewrite Ht, Hx, Hy, Hb.
Qed.

Lemma foldl_buffStep_agree (self : nat) (this : t) (h h' : gmap nat t) :
  sourcesAgree self h h' ->
  forall rs acc,
    foldl (Tower.buffStep self this) acc (deref h rs)
    = foldl (Tower.buffStep self this) acc (deref h' rs).
Proof.
  intros Hagree rs. induction rs as [|r rs IH]; intros acc; [reflexivity|].
  rewrite !deref_cons.
  destruct (decide (r = self)) as [->|Hne].
  - destruct (h !! self), (h' !! self); simpl;
      rewrite ?buffStep_self; apply IH.
  - specialize (Hagree r Hne).
    destruct Hagree as [a b Hab|]; simpl; [|apply IH].
    rewrite (buffStep_sourceEq self r this a b acc Hab). apply IH.
Qed.

Lemma calculateBuffedStats_agree (self : nat) (this : t) (h h' : gmap nat t)
    (rs : list nat) :
  sourcesAgree self h h' ->
  Tower.calculateBuffedStats self (deref h rs) this
  = Tower.calculateBuffedStats self (deref h' rs) this.
Proof.
  intros Hagree. unfold Tower.calculateBuffedStats, Tower.buffMultipliers.
  now rewrite (foldl_buffStep_agree self this h h' Hagree).
Qed.

Lemma applyStats_agree (self : nat) (this : t) (h h' : gmap nat t)
    (rs : list nat) :
  sourcesAgree self h h' ->
  Tower.applyStats self (deref h rs) this
  = Tower.applyStats self (deref h' rs) this.
Proof.
  intros Hagree. unfold Tower.applyStats.
  now rewrite (calculateBuffedStats_agree self _ h h' rs Hagree).
Qed.

Lemma sourcesAgree_insert (self : nat) (this : t) (h : gmap nat t) :
  sourcesAgree self h (<[ self := this ]> h).
Proof.
  intros r Hne. rewrite lookup_insert_ne by congruence.
  destruct (h !! r); constructor. repeat split.
Qed.

(** What a recompute keeps and what it sets. *)
Lemma applyStats_fields (self : nat) (ts : list (nat * t)) (this this' : t) :
  Tower.applyStats self ts this = Some this' ->
  x this' = x this /\ y this' = y this /\ type this' = type this
  /\ level this' = level this /\ towerData this' = towerData this
  /\ gameData this' = gameData this /\ infection this' = infection this
  /\ totalCost this' = totalCost this
  /\ baseStats this' = Tower.levelData this.
Proof.
  unfold Tower.applyStats. intros H.
  destruct (if isInfected _ then _ else _); [|discriminate].
  simpl in H. injection H as <-. simpl. repeat split.
Qed.

Lemma applyStats_unfold (self : nat) (ts : list (nat * t)) (this : t) :
  Tower.applyStats self ts this
  = (let data := Tower.levelData this in
     let buffed :=
       Tower.calculateBuffedStats self ts
         (set_snapshots (stats this) data (buffedStats this) this) in
     final ← (if isInfected this then Tower.applyInfectionDebuff this buffed
              else Some buffed);
     Some (set_snapshots final data buffed this)).
Proof. reflexivity. Qed.

Lemma calculateBuffedStats_reads (self : nat) (ts : list (nat * t)) (a b : t) :
  type a = type b -> x a = x b -> y a = y b -> baseStats a = baseStats b ->
  Tower.calculateBuffedStats self ts a = Tower.calculateBuffedStats self ts b.
Proof.
  intros Ht Hx Hy Hb.
  unfold Tower.calculateBuffedStats, Tower.buffMultipliers.
  rewrite Ht, Hb.
  assert (Hstep : Tower.buffStep self a = Tower.buffStep self b).
  { unfold Tower.buffStep. now rewrite Hx, Hy. }
  now rewrite Hstep.
Qed.

(** A recompute is idempotent: a second call with the same array returns
    the tower unchanged. *)
Lemma applyStats_idem (self : nat) (ts : list (nat * t)) (this this' : t) :
  Tower.applyStats self ts this = Some this' ->
  Tower.applyStats self ts this' = Some this'.
Proof.
  rewrite applyStats_unfold. cbv zeta. intros H.
  destruct (if isInfected this then _ else _) as [final|] eqn:E;
    [|discriminate].
  injection H as <-.
  rewrite applyStats_unfold. cbv zeta.
  set (buffed := Tower.calculateBuffedStats self ts
         (set_snapshots (stats this) (Tower.levelData this)
            (buffedStats this) this)) in *.
  set (this' := set_snapshots final (Tower.levelData this) buffed this).
  assert (Hl : Tower.levelData this' = Tower.levelData this) by reflexivity.
  rewrite Hl.
  assert (Hb : Tower.calculateBuffedStats self ts
                 (set_snapshots (stats this') (Tower.levelData this)
                    (buffedStats this') this') = buffed).
  { apply calculateBuffedStats_reads; reflexivity. }
  rewrite Hb.
  assert (Hi : (if isInfected this'
                then Tower.applyInfectionDebuff this' buffed
                else Some buffed) = Some final).
  { rewrite <- E. reflexivity. }
  rewrite Hi. reflexivity.
Qed.

End TowerFacts.

(** ** Tower: curing an infection *)

Section CureFacts.
Import TowerObj.

Lemma applyStats_healthy (self : nat) (ts : list (nat * t)) (this : t) :
  infection this = None ->
  exists this',
    Tower.applyStats self ts this = Some this' /\ infection this' = None.
Proof.
  intros Hinf. rewrite applyStats_unfold. cbv zeta.
  unfold isInfected. rewrite Hinf. simpl. eexists. split; [reflexivity|].
  exact Hinf.
Qed.

(** [cure] on an infected tower clears the record, recomputes the stats of
    the tower against the tower array and counts the cure. *)
Lemma cure_infected (r : nat) (g : GameState.t) (this : t) (inf : Infection) :
  GameState.towerObjs g !! r = Some this ->
  infection this = Some inf ->
  exists g' this',
    Tower.cure r g = Some g'
    /\ GameState.towerObjs g' !! r = Some this'
    /\ infection this' = None
    /\ statsCurrent g' r
    /\ GameState.towers g' = GameState.towers g
    /\ GameState.infectionsCured (GameState.gameStats g')
       = (GameState.infectionsCured (GameState.gameStats g) + 1)%Z.
Proof.
  intros Hlook Hinf. unfold Tower.cure. rewrite Hlook.
  cbn -[Tower.applyStats_in]. rewrite Hinf. unfold Tower.applyStats_in.
  rewrite lookup_insert_eq. cbn -[Tower.applyStats deref].
  set (h := <[ r := set_infection None this ]> (GameState.towerObjs g)).
  destruct (applyStats_healthy r (deref h (GameState.towers g))
              (set_infection None this) eq_refl) as (this' & Happly & Hnone).
  rewrite Happly. cbn -[Tower.applyStats deref].
  eexists. exists this'. split; [reflexivity|]. cbn -[Tower.applyStats deref].
  split; [apply lookup_insert_eq|]. split; [exact Hnone|].
  split; [|split; reflexivity].
  exists this'. cbn -[Tower.applyStats deref].
  split; [apply lookup_insert_eq|].
  rewrite <- (applyStats_agree r this' h (<[ r := this' ]> h)
                (GameState.towers g) (sourcesAgree_insert r this' h)).
  exact (applyStats_idem _ _ _ _ Happly).
Qed.

(** A click that does not yet reach [cureRequired] only counts. *)
Lemma handleClickCure_counts (r : nat) (g : GameState.t) (this : t)
    (inf : Infection) :
  GameState.towerObjs g !! r = Some this ->
  infection this = Some inf ->
  inject_Z (cureClicks inf + 1) < cureRequired inf ->
  Tower.handleClickCure r g
  = Some (GameState.set_towerObjs
            (<[ r := set_infection
                       (Some (mkInfection (cureClicks inf + 1)
                                (cureRequired inf))) this ]>
               (GameState.towerObjs g)) g).
Proof.
  intros Hlook Hinf Hlt. unfold Tower.handleClickCure.
  rewrite Hlook. simpl. rewrite Hinf. simpl.
  apply Qle_bool_false in Hlt. now rewrite Hlt.
Qed.

(** The click that reaches [cureRequired] cures. *)
Lemma handleClickCure_cures (r : nat) (g : GameState.t) (this : t)
    (inf : Infection) :
  GameState.towerObjs g !! r = Some this ->
  infection this = Some inf ->
  cureRequired inf <= inject_Z (cureClicks inf + 1) ->
  exists g' this',
    Tower.handleClickCure r g = Some g'
    /\ GameState.towerObjs g' !! r = Some this'
    /\ infection this' = None
    /\ statsCurrent g' r
    /\ GameState.towers g' = GameState.towers g
    /\ GameState.infectionsCured (GameState.gameStats g')
       = (GameState.infectionsCured (GameState.gameStats g) + 1)%Z.
Proof.
  intros Hlook Hinf Hle. unfold Tower.handleClickCure.
  rewrite Hlook. simpl. rewrite Hinf. simpl.
  apply Qle_bool_iff in Hle. rewrite Hle.
  set (this1 := set_infection
                  (Some (mkInfection (cureClicks inf + 1) (cureRequired inf)))
                  this).
  set (g1 := GameState.set_towerObjs
               (<[ r := this1 ]> (GameState.towerObjs g)) g).
  apply (cure_infected r g1 this1
           (mkInfection (cureClicks inf + 1) (cureRequired inf))).
  - apply lookup_insert_eq.
  - reflexivity.
Qed.

Lemma handleClickCure_healthy (r : nat) (g : GameState.t) (this : t) :
  GameState.towerObjs g !! r = Some this ->
  infection this = None ->
  Tower.handleClickCure r g = Some g.
Proof.
  intros Hlook Hinf. unfold Tower.handleClickCure.
  rewrite Hlook. simpl. now rewrite Hinf.
Qed.

(** [j] clicks that stay below [cureRequired] leave the record in place
    with [j] more clicks counted. *)
Lemma cureClicksN_counts (r : nat) (required : Q) (j : nat) :
  forall (g : GameState.t) (this : t) (c : Z),
    GameState.towerObjs g !! r = Some this ->
    infection this = Some (mkInfection c required) ->
    inject_Z (c + Z.of_nat j) < required ->
    (0 <= c)%Z ->
    exists g' this',
      cureClicksN j r g = Some g'
      /\ GameState.towerObjs g' !! r = Some this'
      /\ infection this' = Some (mkInfection (c + Z.of_nat j) required)
      /\ GameState.infectionsCured (GameState.gameStats g')
         = GameState.infectionsCured (GameState.gameStats g).
Proof.
  induction j as [|j IH]; intros g this c Hlook Hinf Hlt Hc.
  - exists g, this. rewrite Z.add_0_r. simpl. auto.
  - simpl.
    assert (Hstep : inject_Z (c + 1) < required).
    { eapply Qle_lt_trans; [|exact Hlt].
      rewrite <- Zle_Qle. lia. }
    rewrite (handleClickCure_counts r g this _ Hlook Hinf Hstep). simpl.
    edestruct (IH (GameState.set_towerObjs
                     (<[ r := set_infection
                                (Some (mkInfection (c + 1) required)) this ]>
                        (GameState.towerObjs g)) g)
                  (set_infection (Some (mkInfection (c + 1) required)) this)
                  (c + 1)%Z)
      as (g' & this' & Hrun & Hlook' & Hinf' & Hstat).
    + apply lookup_insert_eq.
    + reflexivity.
    + replace (c + 1 + Z.of_nat j)%Z with (c + Z.of_nat (S j))%Z by lia.
      exact Hlt.
    + lia.
    + exists g', this'. split; [exact Hrun|]. split; [exact Hlook'|].
      split; [|exact Hstat].
      rewrite Hinf'. do 2 f_equal. lia.
Qed.

Lemma cureClicksN_snoc (n : nat) (r : nat) (g : GameState.t) :
  cureClicksN (S n) r g = cureClicksN n r g ≫= Tower.handleClickCure r.
Proof.
  revert g. induction n as [|n IH]; intros g.
  - simpl. now destruct (Tower.handleClickCure r g).
  - change (cureClicksN (S (S n)) r g)
      with (Tower.handleClickCure r g ≫= cureClicksN (S n) r).
    change (cureClicksN (S n) r g)
      with (Tower.handleClickCure r g ≫= cureClicksN n r).
    destruct (Tower.handleClickCure r g) as [g1|]; simpl; [|reflexivity].
    apply IH.
Qed.

End CureFacts.

(** C8. A tower infected with [cureRequired = N] (N at least 1) keeps its
    infection record through the first N - 1 cure clicks, each of which
    counts one click, and loses it on the Nth click, which also recomputes
    its stats against the tower array; a cure click on a tower without an
    infection record returns the game state unchanged, so a further click
    after the cure changes nothing. *)
Theorem cure_on_nth_click (r : nat) (g : GameState.t) (this : TowerObj.t)
    (N : nat) (required : Q) :
  GameState.towerObjs g !! r = Some this ->
  TowerObj.infection this = Some (TowerObj.mkInfection 0 required) ->
  required == inject_Z (Z.of_nat N) ->
  (1 <= N)%nat ->
  (forall k, (k < N)%nat ->
     exists g' this',
       cureClicksN k r g = Some g'
       /\ GameState.towerObjs g' !! r = Some this'
       /\ TowerObj.infection this'
          = Some (TowerObj.mkInfection (Z.of_nat k) required))
  /\ (exists g' this',
        cureClicksN N r g = Some g'
        /\ GameState.towerObjs g' !! r = Some this'
        /\ TowerObj.infection this' = None
        /\ statsCurrent g' r
        /\ cureClicksN (S N) r g = Some g')
  /\ (forall g0 this0,
        GameState.towerObjs g0 !! r = Some this0 ->
        TowerObj.infection this0 = None ->
        Tower.handleClickCure r g0 = Some g0).
Proof.
  intros Hlook Hinf Hreq HN.
  assert (Hbelow : forall k, (k < N)%nat ->
            inject_Z (0 + Z.of_nat k) < required).
  { intros k Hk. rewrite Hreq, <- Zlt_Qlt. lia. }
  split; [|split].
  - intros k Hk.
    destruct (cureClicksN_counts r required k g this 0%Z Hlook Hinf
                (Hbelow k Hk) (Z.le_refl 0))
      as (g' & this' & Hrun & Hlook' & Hinf' & _).
    exists g', this'. split; [exact Hrun|]. split; [exact Hlook'|].
    rewrite Hinf'. reflexivity.
  - destruct N as [|n]; [lia|].
    destruct (cureClicksN_counts r required n g this 0%Z Hlook Hinf
                (Hbelow n (Nat.lt_succ_diag_r n)) (Z.le_refl 0))
      as (g1 & this1 & Hrun & Hlook1 & Hinf1 & _).
    destruct (handleClickCure_cures r g1 this1 _ Hlook1 Hinf1)
      as (g' & this' & Hclick & Hlook' & Hinf' & Hcur & _).
    { simpl. rewrite Hreq, <- Zle_Qle. lia. }
    exists g', this'.
    assert (HrunN : cureClicksN (S n) r g = Some g').
    { rewrite cureClicksN_snoc, Hrun. exact Hclick. }
    split; [exact HrunN|]. split; [exact Hlook'|]. split; [exact Hinf'|].
    split; [exact Hcur|].
    rewrite cureClicksN_snoc, HrunN. simpl.
    exact (handleClickCure_healthy r g' this' Hlook' Hinf').
  - intros g0 this0. apply handleClickCure_healthy.
Qed.

Lemma cure_on_nth_click_witness :
  exists g' this',
    cureClicksN 4 1 Sample.infected = Some g'
    /\ GameState.towerObjs g' !! 1%nat = Some this'
    /\ TowerObj.infection this' = None.
Proof.
  destruct (cure_on_nth_click 1 Sample.infected
              (Sample.tower_at Sample.infected 1) 4 4)
    as (_ & (g' & this' & Hrun & Hlook & Hinf & _) & _).
  - vm_compute. reflexivity.
  - vm_compute. reflexivity.
  - reflexivity.
  - lia.
  - exists g', this'. auto.
Defined.

(** ** Tower: how the buffs of the supports combine *)

Section BuffFacts.
Import TowerObj.









End BuffFacts.



(** ** Array.prototype.sort *)

Section SortFacts.
Context {A : Type} (compareFn : A -> A -> Q).

Hypothesis before_total :
  forall a b, before compareFn a b \/ before compareFn b a.
Hypothesis before_trans :
  forall a b c,
    before compareFn a b -> before compareFn b c -> before compareFn a c.

Lemma sort_insert_perm (a : A) (l : list A) :
  Permutation (sort_insert compareFn a l) (a :: l).
Proof.
  induction l as [|b l IH]; simpl; [reflexivity|].
  destruct (Qle_bool (compareFn a b) 0); [reflexivity|].
  rewrite IH. apply perm_swap.
Qed.

Lemma Array_sort_perm (l : list A) : Permutation (Array_sort compareFn l) l.
Proof.
  induction l as [|a l IH]; simpl; [reflexivity|].
  unfold Array_sort in *. simpl. rewrite sort_insert_perm.
  now apply perm_skip.
Qed.

Lemma sort_insert_sorted (a : A) (l : list A) :
  StronglySorted (before compareFn) l ->
  StronglySorted (before compareFn) (sort_insert compareFn a l).
Proof.
  induction 1 as [|b l Hsorted IH Hall]; simpl.
  - repeat constructor.
  - destruct (Qle_bool (compareFn a b) 0) eqn:E.
    + apply Qle_bool_iff in E. fold (before compareFn a b) in E.
      constructor; [constructor; assumption|].
      constructor; [exact E|].
      revert Hall. apply List.Forall_impl.
      intros c Hbc. exact (before_trans a b c E Hbc).
    + constructor; [exact IH|].
      rewrite sort_insert_perm. constructor; [|exact Hall].
      destruct (before_total a b) as [Hab|Hba]; [|exact Hba].
      unfold before in Hab. apply Qle_bool_iff in Hab. congruence.
Qed.

Lemma Array_sort_sorted (l : list A) :
  StronglySorted (before compareFn) (Array_sort compareFn l).
Proof.
  induction l as [|a l IH]; [constructor|].
  unfold Array_sort in *. simpl. now apply sort_insert_sorted.
Qed.

(** The first element of the sorted array is placed no later than any
    element of the array. *)
Lemma Array_sort_head (l : list A) :
  l <> [] ->
  exists first,
    head (Array_sort compareFn l) = Some first
    /\ first ∈ l
    /\ forall b, b ∈ l -> before compareFn first b.
Proof.
  intros Hne.
  pose proof (Array_sort_perm l) as Hperm.
  pose proof (Array_sort_sorted l) as Hsorted.
  destruct (Array_sort compareFn l) as [|first rest].
  - apply Permutation_nil in Hperm. congruence.
  - exists first. split; [reflexivity|]. split.
    + rewrite <- Hperm. apply list_elem_of_here.
    + intros b Hb. rewrite <- Hperm in Hb.
      apply StronglySorted_inv in Hsorted as [_ Hall].
      apply elem_of_cons in Hb as [->|Hb].
      * destruct (before_total first first); assumption.
      * rewrite Forall_forall in Hall. apply Hall.
        now apply list_elem_of_In.
Qed.

End SortFacts.

(** ** Tower: target selection *)

Section TargetFacts.
Import TowerObj.
Variable this : t.

Lemma compareTargets_prefers (a b : nat * Enemy.t) :
  Tower.compareTargets this a b <= 0 <-> prefers this a b.
Proof.
  unfold Tower.compareTargets, prefers.
  destruct (Nat.eqb_spec (Enemy.pathIndex a.2) (Enemy.pathIndex b.2))
    as [Hidx|Hidx]; simpl.
  - destruct (Qeq_bool (Enemy.hp a.2) (Enemy.hp b.2)) eqn:Hhp; simpl.
    + apply Qeq_bool_eq in Hhp. split.
      * intros H. right. split; [exact Hidx|]. right. split; [exact Hhp|].
        lra.
      * intros [Hlt | [_ [Hlt | [_ Hle]]]]; [lia | lra | lra].
    + apply Qeq_bool_neq in Hhp. split.
      * intros H. right. split; [exact Hidx|]. left. lra.
      * intros [Hlt | [_ [Hlt | [Heq _]]]]; [lia | lra | contradiction].
  - rewrite <- (Zle_Qle _ 0). split.
    + intros H. left. lia.
    + intros [Hlt | [Heq _]]; [lia | contradiction].
Qed.

Lemma prefers_total (a b : nat * Enemy.t) :
  prefers this a b \/ prefers this b a.
Proof.
  unfold prefers.
  destruct (Nat.lt_trichotomy (Enemy.pathIndex a.2) (Enemy.pathIndex b.2))
    as [H | [H | H]]; [right; left; exact H | | left; left; exact H].
  destruct (Q_dec (Enemy.hp a.2) (Enemy.hp b.2)) as [[Hh | Hh] | Hh].
  - right. right. split; [now symmetry|]. now left.
  - left. right. split; [exact H|]. now left.
  - destruct (Qlt_le_dec (Tower.distanceToEnemy this b.2)
                (Tower.distanceToEnemy this a.2)) as [Hd | Hd].
    + right. right. split; [now symmetry|]. right.
      split; [now symmetry | lra].
    + left. right. split; [exact H|]. right. split; [exact Hh | exact Hd].
Qed.

Lemma prefers_trans (a b c : nat * Enemy.t) :
  prefers this a b -> prefers this b c -> prefers this a c.
Proof.
  unfold prefers.
  intros [Hab | [Iab [Hab | [Eab Dab]]]] [Hbc | [Ibc [Hbc | [Ebc Dbc]]]];
    try (left; lia);
    right; (split; [congruence|]);
    try (left; lra);
    right; split; lra.
Qed.


Lemma selectTarget_best (targets : list (nat * Enemy.t)) :
  targets <> [] ->
  exists best,
    Tower.selectTarget this targets = Some best
    /\ best ∈ targets
    /\ forall e, e ∈ targets -> prefers this best e.
Proof.
  intros Hne. unfold Tower.selectTarget.
  destruct (Array_sort_head (Tower.compareTargets this)) with (l := targets)
    as (best & Hhead & Hin & Hbest).
  - intros a b. unfold before. rewrite !compareTargets_prefers.
    apply prefers_total.
  - intros a b c. unfold before. rewrite !compareTargets_prefers.
    apply prefers_trans.
  - exact Hne.
  - exists best. split; [exact Hhead|]. split; [exact Hin|].
    intros e He. apply compareTargets_prefers. now apply Hbest.
Qed.


End TargetFacts.



Lemma truthy_Some (v : option Q) : truthy v = true -> exists q, v = Some q.
Proof. destruct v as [q|]; [eauto | discriminate]. Qed.

(** A tower that can attack and whose cooldown has run out fires at the
    candidate that [selectTarget] returns: the cooldown is reset to the fire
    rate and one projectile, created for that candidate, is appended. *)
Lemma updateCombat_fires_at_best (r : nat) (g : GameState.t)
    (this : TowerObj.t) :
  GameState.towerObjs g !! r = Some this ->
  TowerObj.cooldown this <= 0 ->
  Tower.canAttack this = true ->
  Tower.findTargets this
    (deref (GameState.enemyObjs g) (GameState.enemies g)) <> [] ->
  exists best firerate projectile,
    Tower.selectTarget this
      (Tower.findTargets this
         (deref (GameState.enemyObjs g) (GameState.enemies g))) = Some best
    /\ firerate_s (TowerObj.stats this) = Some firerate
    /\ Tower.createProjectile (TowerObj.set_cooldown firerate this) best
       = Some projectile
    /\ Tower.updateCombat r g
       = Some (GameState.set_projectiles
                 (GameState.projectiles g ++ [projectile])
                 (GameState.set_towerObjs
                    (<[ r := TowerObj.set_cooldown firerate this ]>
                       (GameState.towerObjs g)) g)).
Proof.
  intros Hlook Hcool Hcan Hne.
  destruct (selectTarget_best this _ Hne) as (best & Hsel & _ & _).
  unfold Tower.canAttack in Hcan.
  apply andb_true_iff in Hcan as [Hcan Hrange].
  apply andb_true_iff in Hcan as [Hdmg Hfire].
  destruct (truthy_Some _ Hdmg) as [damage Hd].
  destruct (truthy_Some _ Hfire) as [firerate Hf].
  exists best, firerate.
  unfold Tower.createProjectile. cbn [TowerObj.stats TowerObj.set_cooldown].
  rewrite Hd. cbn [mbind option_bind]. eexists.
  split; [exact Hsel|]. split; [exact Hf|]. split; [reflexivity|].
  unfold Tower.updateCombat. rewrite Hlook. cbn [mbind option_bind].
  apply Qle_bool_iff in Hcool. rewrite Hcool.
  unfold Tower.canAttack. rewrite Hdmg, Hfire, Hrange.
  cbn [andb]. unfold Tower.attack. rewrite Hlook. cbn [mbind option_bind].
  cbv zeta.
  destruct (Tower.findTargets this _) as [|first others] eqn:E;
    [congruence|].
  rewrite Hsel. cbn [mbind option_bind]. rewrite Hf.
  cbn [mbind option_bind]. unfold Tower.createProjectile.
  cbn [TowerObj.stats TowerObj.set_cooldown]. rewrite Hd.
  cbn [mbind option_bind]. reflexivity.
Qed.

(** ** Projectile: area damage *)

Section BlastFacts.

Lemma sameButHp_refl (e : Enemy.t) : sameButHp e e.
Proof. now destruct e. Qed.

Lemma sameButHp_takeDamage (amount : Q) (e e' : Enemy.t) :
  sameButHp e e' -> sameButHp e (Enemy.takeDamage amount e').
Proof.
  unfold sameButHp. intros ->. reflexivity.
Qed.

Lemma sameButHp_effects (e e' : Enemy.t) :
  sameButHp e e' ->
  Enemy.statusEffects e' = Enemy.statusEffects e
  /\ Enemy.speed e' = Enemy.speed e.
Proof. unfold sameButHp. intros ->. split; reflexivity. Qed.

Lemma onlyHpChanges_refl (g : GameState.t) : onlyHpChanges g g.
Proof. intros r e H. exists e. split; [exact H | apply sameButHp_refl]. Qed.

Lemma enemyObjs_trackDamage (p : ProjectileObj.t) (g : GameState.t) :
  GameState.enemyObjs (Projectile.trackDamage p g) = GameState.enemyObjs g.
Proof.
  unfold Projectile.trackDamage.
  now destruct (GameState.damageDealt (GameState.gameStats g) !! _).
Qed.

(** The [forEach] of [explode]: every visit of a reference damages the
    object behind it once more, and nothing else happens to the store. *)
Lemma explode_loop (p : ProjectileObj.t) (targets : list (nat * Enemy.t)) :
  forall (g : GameState.t) (r : nat),
    GameState.enemyObjs
      (foldl
         (fun acc (enemy : nat * Enemy.t) =>
            Projectile.trackDamage p
              (GameState.set_enemyObjs
                 (alter (Enemy.takeDamage (ProjectileObj.damage p)) enemy.1
                    (GameState.enemyObjs acc)) acc))
         g targets) !! r
    = Nat.iter (count_occ Nat.eq_dec (targets.*1) r)
        (Enemy.takeDamage (ProjectileObj.damage p))
      <$> GameState.enemyObjs g !! r.
Proof.
  induction targets as [|enemy targets IH]; intros g r.
  - simpl. now destruct (GameState.enemyObjs g !! r).
  - simpl foldl. rewrite IH, enemyObjs_trackDamage. simpl.
    destruct (Nat.eq_dec enemy.1 r) as [->|Hne].
    + rewrite lookup_alter_eq.
      destruct (GameState.enemyObjs g !! r); simpl; [|reflexivity].
      f_equal. rewrite <- Nat.iter_succ_r. reflexivity.
    + now rewrite lookup_alter_ne.
Qed.

Lemma sameButHp_iter (amount : Q) (n : nat) (e : Enemy.t) :
  sameButHp e (Nat.iter n (Enemy.takeDamage amount) e).
Proof.
  induction n as [|n IH]; simpl.
  - apply sameButHp_refl.
  - now apply sameButHp_takeDamage.
Qed.

Lemma explode_onlyHp (p : ProjectileObj.t) (g : GameState.t) :
  onlyHpChanges g (Projectile.explode p g).2.
Proof.
  intros r e Hlook. unfold Projectile.explode. simpl.
  rewrite explode_loop, Hlook. simpl.
  eexists. split; [reflexivity | apply sameButHp_iter].
Qed.

Lemma deref_fst_sub {A} (h : gmap nat A) (rs : list nat) (r : nat) :
  r ∈ (deref h rs).*1 -> r ∈ rs.
Proof.
  induction rs as [|a rs IH].
  - simpl. intros H. inversion H.
  - rewrite deref_cons.
    destruct (h !! a); simpl; rewrite ?elem_of_cons; intuition.
Qed.

Lemma deref_NoDup {A} (h : gmap nat A) (rs : list nat) :
  NoDup rs -> NoDup (deref h rs).*1.
Proof.
  induction 1 as [|a rs Hnotin Hnodup IH].
  - constructor.
  - rewrite deref_cons.
    destruct (h !! a); [|exact IH]. simpl. constructor; [|exact IH].
    intros Hin. apply Hnotin. now apply deref_fst_sub in Hin.
Qed.

Lemma deref_elem {A} (h : gmap nat A) (rs : list nat) (r : nat) (a : A) :
  (r, a) ∈ deref h rs <-> r ∈ rs /\ h !! r = Some a.
Proof.
  unfold deref. rewrite list_elem_of_omap. split.
  - intros (r' & Hin & Heq).
    destruct (h !! r') as [a'|] eqn:E; [|discriminate].
    simpl in Heq. injection Heq as <- <-. auto.
  - intros [Hin Hlook]. exists r. split; [exact Hin|]. now rewrite Hlook.
Qed.

Lemma count_occ_NoDup_elem (l : list nat) (r : nat) :
  NoDup l -> r ∈ l -> count_occ Nat.eq_dec l r = 1%nat.
Proof.
  intros Hnd Hin. apply NoDup_ListNoDup in Hnd.
  rewrite List.NoDup_count_occ' in Hnd. apply Hnd.
  now apply list_elem_of_In.
Qed.

(** An enemy of the array that is alive and within the blast radius is
    damaged, once. *)
Lemma explode_hits (p : ProjectileObj.t) (g : GameState.t) (r : nat)
    (e : Enemy.t) :
  NoDup (GameState.enemies g) ->
  r ∈ GameState.enemies g ->
  GameState.enemyObjs g !! r = Some e ->
  inBlast p e = true ->
  GameState.enemyObjs (Projectile.explode p g).2 !! r
  = Some (Enemy.takeDamage (ProjectileObj.damage p) e).
Proof.
  intros Hnd Hin Hlook Hblast. unfold Projectile.explode. simpl.
  rewrite explode_loop, Hlook. simpl. rewrite count_occ_NoDup_elem.
  - reflexivity.
  - apply NoDup_fmap_2_strong.
    + intros [r1 e1] [r2 e2] H1 H2 Heq. simpl in Heq. subst r2.
      apply list_elem_of_filter in H1 as [_ H1], H2 as [_ H2].
      apply deref_elem in H1 as [_ H1], H2 as [_ H2]. congruence.
    + apply list.NoDup_filter.
      apply (NoDup_fmap_1 fst). now apply deref_NoDup.
  - apply list_elem_of_fmap. exists (r, e). split; [reflexivity|].
    apply list_elem_of_filter. split.
    + change (Is_true (inBlast p e)). now rewrite Hblast.
    + now apply deref_elem.
Qed.

End BlastFacts.

Section ProjectileFacts.
Import ProjectileObj.

Lemma liveTarget_lookup (p : t) (g : GameState.t) (r : nat) (e : Enemy.t) :
  Projectile.liveTarget p g = Some (r, e) ->
  GameState.enemyObjs g !! r = Some e.
Proof.
  unfold Projectile.liveTarget.
  destruct (target p) as [r0|]; simpl; [|discriminate].
  destruct (GameState.enemyObjs g !! r0) as [e0|] eqn:E; simpl;
    [|discriminate].
  destruct (Enemy.isAlive e0); [|discriminate].
  intros H. injection H as <- <-. exact E.
Qed.

(** A hit by a projectile that carries no ability only damages. *)
Lemma hit_onlyHp (p : t) (g : GameState.t) :
  ability p = None -> onlyHpChanges g (Projectile.hit p g).2.
Proof.
  intros Hab. unfold Projectile.hit.
  destruct (Projectile.liveTarget p g) as [[r e]|] eqn:E.
  - apply liveTarget_lookup in E. rewrite Hab. simpl.
    intros r' e' Hlook. simpl.
    destruct (decide (r' = r)) as [->|Hne].
    + rewrite lookup_insert_eq. eexists. split; [reflexivity|].
      rewrite E in Hlook. injection Hlook as <-.
      apply sameButHp_takeDamage, sameButHp_refl.
    + rewrite lookup_insert_ne by congruence.
      rewrite enemyObjs_trackDamage.
      exists e'. split; [exact Hlook | apply sameButHp_refl].
  - apply onlyHpChanges_refl.
Qed.

(** One update of a projectile that carries no ability changes no enemy
    but in its hit points. *)
Lemma update_onlyHp (deltaTime : Q) (p p' : t) (g g' : GameState.t) :
  ability p = None ->
  Projectile.update deltaTime p g = Some (p', g') ->
  onlyHpChanges g g'.
Proof.
  intros Hab. unfold Projectile.update.
  destruct (active p); cbn [negb];
    [|intros H; injection H as <- <-; apply onlyHpChanges_refl].
  cbv zeta.
  destruct (Qlt_bool _ _);
    [intros H; injection H as <- <-; apply onlyHpChanges_refl|].
  set (p2 := Projectile.updateTrail (set_lifetime (lifetime p + deltaTime) p)).
  assert (Hab2 : ability p2 = None) by exact Hab.
  destruct (Qlt_bool 0 (aoeRadius p2)).
  - unfold Projectile.updateAOE.
    destruct (targetPos p2) as [pos|]; [|discriminate].
    cbn [mbind option_bind]. cbv zeta.
    destruct (Qlt_bool _ 10).
    + intros H. injection H as <- <-.
      change (onlyHpChanges g (Projectile.explode p2 g).2).
      apply explode_onlyHp.
    + intros H. injection H as <- <-. apply onlyHpChanges_refl.
  - intros H. injection H as H. unfold Projectile.updateSingleTarget in H.
    destruct (Projectile.liveTarget p2 g) as [[r e]|];
      [|injection H as <- <-; apply onlyHpChanges_refl].
    cbv zeta in H. destruct (Qlt_bool _ 10).
    + assert (Hg : g' = (Projectile.hit p2 g).2) by (now rewrite H).
      rewrite Hg. now apply hit_onlyHp.
    + injection H as <- <-. apply onlyHpChanges_refl.
Qed.

End ProjectileFacts.

(** C9. The projectile that a tower of type aoe creates carries no ability
    and no bound enemy, whatever ability the stats of the tower define; its
    explosion damages every living enemy of the enemy array within the blast
    radius and changes no enemy but in its hit points, so the status
    effects and the speed of every enemy are as before; no update of that
    projectile changes them either.  A tower of another type passes the
    ability of its stats and the bound enemy to the projectile. *)
Theorem aoe_projectile_no_status_effect (this : TowerObj.t)
    (target : nat * Enemy.t) (p : ProjectileObj.t) :
  Tower.createProjectile this target = Some p ->
  (TowerObj.type this = "aoe" ->
     ProjectileObj.ability p = None
     /\ ProjectileObj.target p = None
     /\ (forall g r e e',
           GameState.enemyObjs g !! r = Some e ->
           GameState.enemyObjs (Projectile.explode p g).2 !! r = Some e' ->
           Enemy.statusEffects e' = Enemy.statusEffects e
           /\ Enemy.speed e' = Enemy.speed e)
     /\ (forall g, onlyHpChanges g (Projectile.explode p g).2)
     /\ (forall g r e,
           NoDup (GameState.enemies g) ->
           r ∈ GameState.enemies g ->
           GameState.enemyObjs g !! r = Some e ->
           inBlast p e = true ->
           GameState.enemyObjs (Projectile.explode p g).2 !! r
           = Some (Enemy.takeDamage (ProjectileObj.damage p) e))
     /\ (forall deltaTime g p' g',
           Projectile.update deltaTime p g = Some (p', g') ->
           onlyHpChanges g g'))
  /\ (TowerObj.type this <> "aoe" ->
      ProjectileObj.ability p = ability (TowerObj.stats this)
      /\ ProjectileObj.target p = Some target.1).
Proof.
  unfold Tower.createProjectile.
  destruct (dmg (TowerObj.stats this)) as [damage|]; [|discriminate].
  cbn [mbind option_bind]. cbv zeta. intros Hp. injection Hp as Hp. split.
  - intros Haoe. rewrite Haoe in Hp.
    assert (Hab : ProjectileObj.ability p = None) by (now rewrite <- Hp).
    assert (Htg : ProjectileObj.target p = None) by (now rewrite <- Hp).
    split; [exact Hab|]. split; [exact Htg|]. split; [|split; [|split]].
    + intros g r e e' Hlook Hlook'.
      destruct (explode_onlyHp p g r e Hlook) as (e2 & Hlook2 & Hsame).
      rewrite Hlook' in Hlook2. injection Hlook2 as <-.
      now apply sameButHp_effects.
    + intros g. apply explode_onlyHp.
    + intros g r e. apply explode_hits.
    + intros deltaTime g p' g'. now apply update_onlyHp.
  - intros Hne. apply String.eqb_neq in Hne. rewrite Hne in Hp.
    rewrite <- Hp. split; reflexivity.
Qed.

Lemma aoe_projectile_no_status_effect_witness :
  let target := (2%nat, Sample.pestAt 100 200 "pest" 50 1 2 ∅) in
  let p :=
    default (ProjectileObj.new_
               (ProjectileObj.mkData 0 0 0 "none" "none" None None None None))
      (Tower.createProjectile Sample.sprinkler target) in
  ability (TowerObj.stats Sample.sprinkler) = Some (mkAbility (Some 30))
  /\ ProjectileObj.ability p = None
  /\ onlyHpChanges Sample.battle (Projectile.explode p Sample.battle).2.
Proof.
  intros target p.
  destruct (aoe_projectile_no_status_effect Sample.sprinkler target p)
    as [Haoe _].
  - reflexivity.
  - split; [reflexivity|].
    destruct Haoe as (Hab & _ & _ & Hexp & _); [reflexivity|].
    split; [exact Hab | apply Hexp].
Defined.

(** ** GameManager: the recompute over all towers *)

Section RecomputeFacts.
Import TowerObj.

Lemma sameButSnapshots_refl (a : t) : sameButSnapshots a a.
Proof. now destruct a. Qed.

Lemma sameButSnapshots_trans (a b c : t) :
  sameButSnapshots a b -> sameButSnapshots b c -> sameButSnapshots a c.
Proof. unfold sameButSnapshots. intros -> ->. reflexivity. Qed.

Lemma sameButSnapshots_sourceEq (a b : t) :
  sameButSnapshots a b -> baseStats a = baseStats b -> sourceEq a b.
Proof.
  unfold sameButSnapshots, sourceEq. intros -> Hb. simpl. auto.
Qed.

Lemma sameButSnapshots_ok (a b : t) :
  sameButSnapshots a b -> baseStats a = baseStats b ->
  towerOk a -> towerOk b.
Proof.
  unfold sameButSnapshots, towerOk. intros Hs Hb [Hbase Hinf].
  rewrite Hs in *. simpl in *. split; [|exact Hinf].
  rewrite <- Hb. exact Hbase.
Qed.

Lemma sourcesSame_refl (h : gmap nat t) : sourcesSame h h.
Proof.
  intros r. destruct (h !! r); constructor.
  split; [apply sameButSnapshots_refl | reflexivity].
Qed.

Lemma sourcesSame_trans (h1 h2 h3 : gmap nat t) :
  sourcesSame h1 h2 -> sourcesSame h2 h3 -> sourcesSame h1 h3.
Proof.
  intros H12 H23 r. specialize (H12 r). specialize (H23 r).
  destruct H12 as [a b [Hab Eab]|]; inversion H23 as [b' c [Hbc Ebc]|];
    subst; constructor.
  split; [exact (sameButSnapshots_trans _ _ _ Hab Hbc) | congruence].
Qed.

Lemma sourcesSame_agree (self : nat) (h h' : gmap nat t) :
  sourcesSame h h' -> sourcesAgree self h h'.
Proof.
  intros Hsame r _. specialize (Hsame r).
  destruct Hsame as [a b [Hab Eab]|]; constructor.
  now apply sameButSnapshots_sourceEq.
Qed.

Lemma sourcesSame_ok (h h' : gmap nat t) (rs : list nat) :
  sourcesSame h h' -> towersOk h rs -> towersOk h' rs.
Proof.
  intros Hsame Hok r Hr. destruct (Hok r Hr) as (a & Hlook & Ha).
  specialize (Hsame r). rewrite Hlook in Hsame.
  inversion Hsame as [a' b [Hab Eab]|]; subst.
  exists b. split; [reflexivity|].
  exact (sameButSnapshots_ok a b Hab Eab Ha).
Qed.

(** The recompute of a well-formed tower succeeds and alters only its
    stats and buffed stats. *)
Lemma applyStats_ok (self : nat) (ts : list (nat * t)) (this : t) :
  towerOk this ->
  exists this',
    Tower.applyStats self ts this = Some this'
    /\ sameButSnapshots this this'
    /\ baseStats this = baseStats this'.
Proof.
  intros [Hbase Hinf]. rewrite applyStats_unfold. cbv zeta.
  assert (Hfinal : is_Some
            (if isInfected this
             then Tower.applyInfectionDebuff this
                    (Tower.calculateBuffedStats self ts
                       (set_snapshots (stats this) (Tower.levelData this)
                          (buffedStats this) this))
             else Some (Tower.calculateBuffedStats self ts
                          (set_snapshots (stats this) (Tower.levelData this)
                             (buffedStats this) this)))).
  { destruct (isInfected this) eqn:E; [|eexists; reflexivity].
    destruct (Hinf eq_refl) as [mechanic Hm].
    unfold Tower.applyInfectionDebuff. unfold isInfected in E.
    destruct (infection this); [|discriminate].
    rewrite Hm. eexists. reflexivity. }
  destruct Hfinal as [final Hfinal]. rewrite Hfinal.
  eexists. split; [reflexivity|]. split; [reflexivity|].
  simpl. exact Hbase.
Qed.

Lemma applyStats_in_ok (r : nat) (all : list nat) (h : gmap nat t)
    (this : t) :
  h !! r = Some this ->
  towerOk this ->
  exists this',
    Tower.applyStats_in r all h = Some (<[ r := this' ]> h)
    /\ Tower.applyStats r (deref h all) this = Some this'
    /\ sourcesSame h (<[ r := this' ]> h).
Proof.
  intros Hlook Hok.
  destruct (applyStats_ok r (deref h all) this Hok)
    as (this' & Happly & Hsame & Hbase).
  exists this'. unfold Tower.applyStats_in. rewrite Hlook.
  cbn [mbind option_bind]. rewrite Happly. cbn [mbind option_bind].
  split; [reflexivity|]. split; [reflexivity|].
  intros r'. destruct (decide (r' = r)) as [->|Hne].
  - rewrite lookup_insert_eq, Hlook. constructor. auto.
  - rewrite lookup_insert_ne by congruence.
    destruct (h !! r'); constructor.
    split; [apply sameButSnapshots_refl | reflexivity].
Qed.

(** The pass over [rs]: it succeeds, it alters nothing but snapshots, it
    leaves the towers outside [rs] alone, and it leaves every tower of
    [rs] with stats that are up to date with respect to the final
    store. *)
Lemma forEach_applyStats_ok (all : list nat) (rs : list nat) :
  forall h,
    towersOk h all ->
    rs ⊆ all ->
    exists h',
      GameManager.forEach_applyStats rs all h = Some h'
      /\ sourcesSame h h'
      /\ (forall r, r ∉ rs -> h' !! r = h !! r)
      /\ (forall r, r ∈ rs ->
            exists this',
              h' !! r = Some this'
              /\ Tower.applyStats r (deref h' all) this' = Some this').
Proof.
  induction rs as [|r rs IH]; intros h Hok Hsub.
  - exists h. split; [reflexivity|]. split; [apply sourcesSame_refl|].
    split; [reflexivity|]. intros r Hr. inversion Hr.
  - assert (Hr : r ∈ all) by (apply Hsub; left).
    destruct (Hok r Hr) as (this & Hlook & Hthis).
    destruct (applyStats_in_ok r all h this Hlook Hthis)
      as (this1 & Hstep & Happly & Hsame1).
    destruct (IH (<[ r := this1 ]> h)) as (h' & Hrun & Hsame & Hout & Hin).
    { exact (sourcesSame_ok _ _ _ Hsame1 Hok). }
    { intros r' Hr'. apply Hsub. now right. }
    exists h'. simpl. rewrite Hstep. cbn [mbind option_bind].
    split; [exact Hrun|].
    split; [exact (sourcesSame_trans _ _ _ Hsame1 Hsame)|].
    split.
    + intros r' Hr'. rewrite not_elem_of_cons in Hr'.
      destruct Hr' as [Hne Hr'].
      rewrite (Hout r' Hr'). now apply lookup_insert_ne.
    + intros r' Hr'.
      destruct (decide (r' ∈ rs)) as [Hrs|Hrs]; [now apply Hin|].
      apply elem_of_cons in Hr' as [->|Hr']; [|contradiction].
      exists this1. split.
      * rewrite (Hout r Hrs). apply lookup_insert_eq.
      * rewrite <- (applyStats_agree r this1 h h' all).
        -- exact (applyStats_idem _ _ _ _ Happly).
        -- apply sourcesSame_agree.
           exact (sourcesSame_trans _ _ _ Hsame1 Hsame).
Qed.

(** After the recompute over all towers every tower of the array has
    stats that are up to date, and nothing else of the game state has
    changed. *)
Lemma reapplyStats_ok (g : GameState.t) :
  towersOk (GameState.towerObjs g) (GameState.towers g) ->
  exists h',
    GameManager.reapplyStats g = Some (GameState.set_towerObjs h' g)
    /\ sourcesSame (GameState.towerObjs g) h'
    /\ forall r, r ∈ GameState.towers g ->
         statsCurrent (GameState.set_towerObjs h' g) r.
Proof.
  intros Hok.
  destruct (forEach_applyStats_ok (GameState.towers g) (GameState.towers g)
              (GameState.towerObjs g) Hok)
    as (h' & Hrun & Hsame & _ & Hin); [intros r Hr; exact Hr|].
  exists h'. unfold GameManager.reapplyStats. rewrite Hrun.
  split; [reflexivity|]. split; [exact Hsame|].
  intros r Hr. destruct (Hin r Hr) as (this' & Hlook & Happly).
  exists this'. split; [exact Hlook | exact Happly].
Qed.

(** A second recompute over all towers changes nothing. *)
Lemma forEach_applyStats_current (all : list nat) (h : gmap nat t)
    (rs : list nat) :
  (forall r, r ∈ rs ->
     exists this, h !! r = Some this
                  /\ Tower.applyStats r (deref h all) this = Some this) ->
  GameManager.forEach_applyStats rs all h = Some h.
Proof.
  induction rs as [|r rs IH]; intros Hcur; [reflexivity|].
  destruct (Hcur r) as (this & Hlook & Happly); [left|].
  simpl. unfold Tower.applyStats_in. rewrite Hlook.
  cbn [mbind option_bind]. rewrite Happly. cbn [mbind option_bind].
  rewrite insert_id by exact Hlook.
  apply IH. intros r' Hr'. apply Hcur. now right.
Qed.

Lemma reapplyStats_idem (g g' : GameState.t) :
  towersOk (GameState.towerObjs g) (GameState.towers g) ->
  GameManager.reapplyStats g = Some g' ->
  GameManager.reapplyStats g' = Some g'.
Proof.
  intros Hok Hrun.
  destruct (reapplyStats_ok g Hok) as (h' & Hrun' & _ & Hcur).
  rewrite Hrun' in Hrun. injection Hrun as <-.
  unfold GameManager.reapplyStats.
  cbn [GameState.towers GameState.towerObjs GameState.set_towerObjs].
  rewrite (forEach_applyStats_current (GameState.towers g) h'
             (GameState.towers g)).
  - reflexivity.
  - intros r Hr. destruct (Hcur r Hr) as (this & Hlook & Happly).
    exists this. split; [exact Hlook | exact Happly].
Qed.

End RecomputeFacts.

(** ** The recompute after a change of the tower set *)

Section TopologyFacts.
Import TowerObj.



















End TopologyFacts.

(** ** GameManager: selling a tower *)

Section SellFacts.



End SellFacts.




(** ** WaveManager *)

Section WaveFacts.
Import WaveManager.

Lemma spawn_succeeds (p : list Point) (data : EnemyData) (g : GameState.t) :
  p <> [] ->
  exists g',
    spawn p data g = Some g'
    /\ length (GameState.enemies g') = S (length (GameState.enemies g)).
Proof.
  intros Hp. unfold spawn, Enemy.new_.
  destruct p as [|p0 p]; [congruence|]. simpl.
  eexists. split; [reflexivity|]. simpl.
  rewrite length_app. simpl. lia.
Qed.

(** The loop of [update] removes the longest prefix of the queue whose
    entries are all due, and creates one enemy for each of them. *)
Lemma spawnDue_prefix (p : list Point) (timer : Q) (queue : list Spawn) :
  p <> [] ->
  forall g,
    exists due rest g',
      spawnDue p timer queue g = Some (rest, g')
      /\ queue = due ++ rest
      /\ Forall (fun s => spawnTime s <= timer) due
      /\ match rest with
         | [] => True
         | s :: _ => timer < spawnTime s
         end
      /\ length (GameState.enemies g')
         = (length (GameState.enemies g) + length due)%nat.
Proof.
  intros Hp. induction queue as [|s queue IH]; intros g.
  - exists [], [], g. simpl. repeat split; auto.
  - simpl. destruct (Qle_bool (spawnTime s) timer) eqn:E.
    + apply Qle_bool_iff in E.
      destruct (spawn_succeeds p (enemyData s) g Hp) as (g1 & Hspawn & Hlen).
      rewrite Hspawn. cbn [mbind option_bind].
      destruct (IH g1) as (due & rest & g' & Hrun & Hq & Hdue & Hrest & Hlen').
      exists (s :: due), rest, g'. split; [exact Hrun|].
      split; [now rewrite Hq|]. split; [now constructor|].
      split; [exact Hrest|]. rewrite Hlen', Hlen. simpl. lia.
    + apply Qle_bool_false in E.
      exists [], (s :: queue), g. simpl. repeat split; auto.
Qed.

(** On a queue sorted by offset nothing that is due stays behind. *)
Lemma spawnDue_sorted (p : list Point) (timer : Q) (queue rest : list Spawn)
    (g g' : GameState.t) :
  p <> [] ->
  StronglySorted Qle (spawnTimes queue) ->
  spawnDue p timer queue g = Some (rest, g') ->
  Forall (fun s => timer < spawnTime s) rest.
Proof.
  intros Hp Hsorted Hrun.
  destruct (spawnDue_prefix p timer queue Hp g)
    as (due & rest' & g2 & Hrun' & Hq & _ & Hrest & _).
  rewrite Hrun in Hrun'. injection Hrun' as <- <-.
  rewrite Hq in Hsorted. unfold spawnTimes in Hsorted.
  rewrite map_app in Hsorted.
  clear Hq Hrun. induction due as [|d due IH].
  - simpl in Hsorted. destruct rest as [|s rest]; [constructor|].
    simpl in Hsorted. apply StronglySorted_inv in Hsorted as [_ Hall].
    constructor; [exact Hrest|].
    rewrite List.Forall_map in Hall. revert Hall. apply List.Forall_impl.
    intros s' Hs'. eapply Qlt_le_trans; eassumption.
  - simpl in Hsorted. apply StronglySorted_inv in Hsorted as [Hsorted _].
    now apply IH.
Qed.

(** The entries of one composition group are in ascending order when the
    interval is not negative. *)
Lemma groupSpawns_sorted (data : EnemyData) (group : Group) :
  0 <= interval_ms group ->
  StronglySorted Qle (spawnTimes (groupSpawns data group)).
Proof.
  intros Hint. unfold spawnTimes, groupSpawns. rewrite List.map_map. simpl.
  assert (Hc : 0 <= interval_ms group / 1000).
  { apply Qle_shift_div_l; [reflexivity | lra]. }
  generalize (interval_ms group / 1000) Hc. intros c Hc'.
  generalize 0%nat as start. generalize (count group) as n.
  induction n as [|n IH]; intros start; simpl; [constructor|].
  constructor; [apply IH|].
  rewrite List.Forall_map, List.Forall_forall. intros i Hi.
  apply in_seq in Hi. apply Qmult_le_compat_r; [|exact Hc'].
  rewrite <- Zle_Qle. lia.
Qed.

Lemma buildQueue_single_sorted (gd : GameData.t) (group : Group) :
  0 <= interval_ms group ->
  StronglySorted Qle (spawnTimes (buildQueue gd [group])).
Proof.
  intros Hint. unfold buildQueue. simpl.
  destruct (List.find _ _); [|constructor].
  now apply groupSpawns_sorted.
Qed.

(** With a sorted queue, [update] leaves no due entry in the queue. *)
Lemma update_sorted_drains (p : list Point) (deltaTime : Q) (w w' : t)
    (g g' : GameState.t) :
  p <> [] ->
  StronglySorted Qle (spawnTimes (spawnQueue w)) ->
  update p deltaTime w g = Some (w', g') ->
  noneDue w'.
Proof.
  intros Hp Hsorted. unfold update.
  destruct (spawnQueue w) as [|s queue] eqn:E.
  - intros H. injection H as <- <-. unfold noneDue. rewrite E. constructor.
  - destruct (spawnDue p (spawnTimer w + deltaTime) (s :: queue) g)
      as [[rest g1]|] eqn:Hrun; [|discriminate].
    cbn [mbind option_bind]. intros H. injection H as <- <-.
    unfold noneDue. simpl.
    exact (spawnDue_sorted p _ _ _ _ _ Hp Hsorted Hrun).
Qed.

End WaveFacts.

(** C2, evaluated on a wave of two groups (2 enemies every 1000 ms, then 2
    enemies every 500 ms).  [startWave] appends the entries of the second
    group, whose offsets restart at 0, after those of the first: the queue
    is not sorted.  After a tick of 0.1 s one enemy has been created and the
    first entry of the second group, due since offset 0, is still queued
    behind the entry of the first group that is due at 1 s. *)
Theorem later_group_waits_behind_earlier :
  Forall2 Qeq (spawnTimes (WaveManager.spawnQueue Sample.wave1))
    [0; 1; 0; 1 # 2]
  /\ ~ StronglySorted Qle (spawnTimes (WaveManager.spawnQueue Sample.wave1))
  /\ exists w' g',
       WaveManager.update path (1 # 10) Sample.wave1 Sample.initial
       = Some (w', g')
       /\ length (GameState.enemies g') = 1%nat
       /\ Forall2 Qeq (spawnTimes (WaveManager.spawnQueue w')) [1; 0; 1 # 2]
       /\ ~ noneDue w'.
Proof.
  split; [|split].
  - vm_compute. repeat constructor.
  - intros H. vm_compute in H.
    apply StronglySorted_inv in H as [H _].
    apply StronglySorted_inv in H as [_ H].
    apply List.Forall_inv in H. vm_compute in H. now apply H.
  - eexists. eexists. split; [vm_compute; reflexivity|].
    split; [reflexivity|]. split; [vm_compute; repeat constructor|].
    intros H. unfold noneDue in H. simpl in H.
    apply List.Forall_inv_tail in H. apply List.Forall_inv in H.
    vm_compute in H. discriminate H.
Qed.

(** C1, evaluated on a drone standing within the range of a greenhouse
    (fire rate -10 %, range +20 %).  After the placement the stats of both
    towers are up to date: the drone has range 120.  [infectRandomTower]
    then infects the drone, and [infect] recomputes with the empty default
    array: the stats of the infected drone are range 80 and fire rate 3/2,
    the debuff applied to the base stats, whereas a recompute against the
    tower array, as [cure] and the placement do it, gives range 96 and fire
    rate 27/20.  The stats of the infected drone are not up to date. *)
Theorem infect_drops_support_buffs :
  (forall r, r ∈ GameState.towers Sample.placed -> statsCurrent Sample.placed r)
  /\ InfectionManager.infectRandomTower (1 # 2) Sample.placed
     = Some Sample.infected
  /\ TowerObj.isInfected (Sample.tower_at Sample.infected 1) = true
  /\ (exists rg fr,
        range (TowerObj.stats (Sample.tower_at Sample.infected 1)) = Some rg
        /\ firerate_s (TowerObj.stats (Sample.tower_at Sample.infected 1))
           = Some fr
        /\ rg == 80 /\ fr == 3 # 2)
  /\ (exists this' rg fr,
        Tower.applyStats 1
          (deref (GameState.towerObjs Sample.infected)
             (GameState.towers Sample.infected))
          (Sample.tower_at Sample.infected 1) = Some this'
        /\ range (TowerObj.stats this') = Some rg
        /\ firerate_s (TowerObj.stats this') = Some fr
        /\ rg == 96 /\ fr == 27 # 20)
  /\ ~ statsCurrent Sample.infected 1.
Proof.
  split; [|split; [|split; [|split; [|split]]]].
  - intros r Hr.
    change (GameState.towers Sample.placed) with [0%nat; 1%nat] in Hr.
    apply elem_of_cons in Hr as [->|Hr];
      [|apply elem_of_cons in Hr as [->|Hr]; [|inversion Hr]].
    + exists (Sample.tower_at Sample.placed 0).
      split; vm_compute; reflexivity.
    + exists (Sample.tower_at Sample.placed 1).
      split; vm_compute; reflexivity.
  - vm_compute. reflexivity.
  - vm_compute. reflexivity.
  - eexists. eexists. split; [vm_compute; reflexivity|].
    split; [vm_compute; reflexivity|]. split; reflexivity.
  - eexists. eexists. eexists. split; [vm_compute; reflexivity|].
    split; [reflexivity|]. split; [reflexivity|]. split; reflexivity.
  - intros (this & Hlook & Happly).
    assert (Hthis : this = Sample.tower_at Sample.infected 1).
    { unfold Sample.tower_at. now rewrite Hlook. }
    subst this. vm_compute in Happly. discriminate Happly.
Qed.

(** * Further properties *)

(** ** GameState: money and lives *)

Lemma Math_max_0_nonneg (a : Q) : 0 <= Math_max 0 a.
Proof.
  unfold Math_max. destruct (Qle_bool 0 a) eqn:E.
  - now apply Qle_bool_iff.
  - apply Qle_refl.
Qed.

Lemma Math_max_0_le (a : Q) : Math_max 0 a <= 0 <-> a <= 0.
Proof.
  unfold Math_max. destruct (Qle_bool 0 a) eqn:E.
  - reflexivity.
  - apply Qle_bool_false in E. split; intros _; [lra | apply Qle_refl].
Qed.

Lemma Math_max_0_pos (a : Q) : 0 <= a -> Math_max 0 a = a.
Proof.
  intros H. unfold Math_max. apply Qle_bool_iff in H. now rewrite H.
Qed.

(** X1. [purchase] succeeds exactly when the money covers the cost; a
    purchase that fails changes nothing, and one that succeeds takes the
    cost from the money, which does not become negative, and changes nothing
    else. *)
Theorem purchase_all_or_nothing (cost : Q) (g : GameState.t) :
  let g' := (GameState.purchase cost g).1 in
  let paid := (GameState.purchase cost g).2 in
  (paid = true <-> cost <= GameState.money g)
  /\ (paid = false -> g' = g)
  /\ (paid = true ->
      g' = GameState.set_money (GameState.money g - cost) g
      /\ 0 <= GameState.money g').
Proof.
  unfold GameState.purchase, GameState.canAfford.
  destruct (Qle_bool cost (GameState.money g)) eqn:E; simpl.
  - apply Qle_bool_iff in E. split; [tauto|]. split; [discriminate|].
    intros _. split; [reflexivity | lra].
  - apply Qle_bool_false in E. split; [|split; [reflexivity | discriminate]].
    split; [discriminate|]. intros H. lra.
Qed.

Lemma purchase_all_or_nothing_witness :
  (GameState.purchase 600 Sample.initial).1 = Sample.initial
  /\ GameState.money (GameState.purchase 150 Sample.initial).1 == 350.
Proof.
  split.
  - apply (purchase_all_or_nothing 600 Sample.initial). reflexivity.
  - destruct (purchase_all_or_nothing 150 Sample.initial) as (_ & _ & H).
    destruct (H eq_refl) as [-> _]. reflexivity.
Defined.

(** X2. [GameState.takeDamage] never leaves a negative number of lives; it
    reports the game as lost exactly when the damage is at least the lives
    that were left; a smaller damage is subtracted in full; nothing but the
    lives changes. *)
Theorem lives_never_negative (amount : Q) (g : GameState.t) :
  let g' := (GameState.takeDamage amount g).1 in
  let lost := (GameState.takeDamage amount g).2 in
  0 <= GameState.lives g'
  /\ (lost = true <-> GameState.lives g <= amount)
  /\ (amount <= GameState.lives g ->
      GameState.lives g' = GameState.lives g - amount)
  /\ g' = GameState.set_lives (GameState.lives g') g.
Proof.
  unfold GameState.takeDamage. simpl.
  split; [apply Math_max_0_nonneg|]. split; [|split].
  - rewrite Qle_bool_iff, Math_max_0_le. split; intros H; lra.
  - intros H. apply Math_max_0_pos. lra.
  - reflexivity.
Qed.

Lemma lives_never_negative_witness :
  GameState.lives (GameState.takeDamage 1 Sample.initial).1
  = GameState.lives Sample.initial - 1
  /\ (GameState.takeDamage 25 Sample.initial).2 = true.
Proof.
  split.
  - apply (lives_never_negative 1 Sample.initial). vm_compute. discriminate.
  - apply (lives_never_negative 25 Sample.initial). vm_compute. discriminate.
Defined.

Lemma foldl_insert_zero (ids : list TowerData) (ident : string) :
  forall m : gmap string Q,
    foldl (fun acc td => <[ td_id td := 0 ]> acc) m ids !! ident
    = if existsb (fun td => String.eqb (td_id td) ident) ids
      then Some 0 else m !! ident.
Proof.
  induction ids as [|td ids IH]; intros m; [reflexivity|].
  simpl. rewrite IH.
  destruct (existsb _ ids); [now rewrite orb_true_r|].
  rewrite orb_false_r.
  destruct (String.eqb_spec (td_id td) ident) as [->|Hne].
  - apply lookup_insert_eq.
  - now apply lookup_insert_ne.
Qed.

(** X3. [GameState.initialize] opens a damage counter at 0 for every tower
    id of the game data and for no other key; the money earned so far is
    the starting money, and there is no tower, enemy or projectile. *)
Theorem initialize_damage_counters (gd : GameData.t) (ident : string) :
  let g := GameState.initialize gd in
  GameState.damageDealt (GameState.gameStats g) !! ident
  = (if existsb (fun td => String.eqb (td_id td) ident) (GameData.towers gd)
     then Some 0 else None)
  /\ GameState.moneyEarned (GameState.gameStats g) = GameState.money g
  /\ GameState.money g = start_money (GameData.game_settings gd)
  /\ GameState.towers g = []
  /\ GameState.enemies g = []
  /\ GameState.projectiles g = [].
Proof.
  simpl. split; [|repeat split].
  rewrite foldl_insert_zero. now rewrite lookup_empty.
Qed.

(** ** Enemy: damage *)

(** X4. [Enemy.takeDamage] leaves hit points that are never negative; the
    enemy is dead afterwards exactly when the damage was at least its hit
    points; a non-negative damage never raises the hit points, so a dead
    enemy stays dead and the hit points stay within [maxHp]; no other field
    changes. *)
Theorem enemy_takeDamage_bounds (amount : Q) (e : Enemy.t) :
  let e' := Enemy.takeDamage amount e in
  0 <= Enemy.hp e'
  /\ (Enemy.isAlive e' = false <-> Enemy.hp e <= amount)
  /\ (0 <= amount -> 0 <= Enemy.hp e -> Enemy.hp e' <= Enemy.hp e)
  /\ (0 <= amount -> Enemy.isAlive e = false -> Enemy.isAlive e' = false)
  /\ (0 <= amount -> 0 <= Enemy.hp e -> Enemy.hp e <= Enemy.maxHp e ->
      Enemy.hp e' <= Enemy.maxHp e')
  /\ sameButHp e e'.
Proof.
  unfold Enemy.takeDamage, Enemy.isAlive. simpl.
  assert (Hle : forall a, 0 <= a -> Math_max 0 (Enemy.hp e - a) <= Enemy.hp e
                          \/ Enemy.hp e < 0).
  { intros a Ha. unfold Math_max.
    destruct (Qle_bool 0 (Enemy.hp e - a)) eqn:E.
    - left. lra.
    - destruct (Qlt_le_dec (Enemy.hp e) 0); [now right | now left]. }
  split; [apply Math_max_0_nonneg|]. split; [|split; [|split; [|split]]].
  - rewrite Qlt_bool_false, Math_max_0_le. split; intros H; lra.
  - intros Ha Hhp. destruct (Hle amount Ha); lra.
  - rewrite !Qlt_bool_false, Math_max_0_le. intros Ha H. lra.
  - intros Ha Hhp Hmax. destruct (Hle amount Ha); lra.
  - reflexivity.
Qed.

Lemma enemy_takeDamage_bounds_witness :
  let e := Sample.pest "pest" 50 1 0 ∅ in
  Enemy.hp (Enemy.takeDamage 20 e) <= Enemy.hp e
  /\ Enemy.isAlive (Enemy.takeDamage 60 e) = false.
Proof.
  intros e. split.
  - destruct (enemy_takeDamage_bounds 20 e) as (_ & _ & H & _).
    apply H; vm_compute; discriminate.
  - destruct (enemy_takeDamage_bounds 60 e) as (_ & H & _).
    apply H. vm_compute. discriminate.
Defined.

(** ** Enemy: status effects and speed *)

Section EffectFacts.

Lemma recalculateSpeed_speedOk (e : Enemy.t) :
  speedOk (Enemy.recalculateSpeed e).
Proof. unfold speedOk, Enemy.recalculateSpeed, speedMultiplier. simpl. reflexivity. Qed.

Lemma applyStatusEffect_speedOk (type : string) (value duration : Q)
    (e : Enemy.t) :
  speedOk e -> speedOk (Enemy.applyStatusEffect type value duration e).
Proof.
  intros Hok. unfold Enemy.applyStatusEffect.
  destruct (_ && _); [exact Hok|].
  destruct (match Enemy.statusEffects e !! type with
            | Some ex => _
            | None => true
            end); [apply recalculateSpeed_speedOk | exact Hok].
Qed.

Lemma speedMultiplier_same_value (m : gmap string Enemy.Effect) (k : string)
    (ef ef' : Enemy.Effect) :
  m !! k = Some ef ->
  Enemy.value ef' = Enemy.value ef ->
  speedMultiplier (<[ k := ef' ]> m) = speedMultiplier m.
Proof.
  intros Hlook Hval. unfold speedMultiplier.
  destruct (decide (k = "slow")) as [->|Hne].
  - rewrite lookup_insert_eq, Hlook, Hval. reflexivity.
  - now rewrite lookup_insert_ne.
Qed.

Lemma ageEffect_speedOk (deltaTime : Q) (k : string) (e : Enemy.t) :
  speedOk e -> speedOk (Enemy.ageEffect deltaTime k e).
Proof.
  intros Hok. unfold Enemy.ageEffect.
  destruct (Enemy.statusEffects e !! k) as [ef|] eqn:Hlook; [|exact Hok].
  cbv zeta. destruct (Qle_bool _ 0).
  - apply recalculateSpeed_speedOk.
  - unfold speedOk in *. simpl.
    rewrite (speedMultiplier_same_value _ k ef); [exact Hok | exact Hlook|].
    reflexivity.
Qed.

Lemma updateStatusEffects_speedOk (deltaTime : Q) (e : Enemy.t) :
  speedOk e -> speedOk (Enemy.updateStatusEffects deltaTime e).
Proof.
  intros Hok. unfold Enemy.updateStatusEffects.
  apply (map_fold_weak_ind (fun r _ => speedOk r)); [exact Hok|].
  intros k ef m r _ Hr. now apply ageEffect_speedOk.
Qed.

(** [moveAlongPath] moves the enemy and nothing else. *)
Lemma moveAlongPath_keeps (p : list Point) (deltaTime : Q) (e : Enemy.t) :
  let e' := Enemy.moveAlongPath p deltaTime e in
  Enemy.speed e' = Enemy.speed e
  /\ Enemy.baseSpeed e' = Enemy.baseSpeed e
  /\ Enemy.statusEffects e' = Enemy.statusEffects e
  /\ Enemy.hp e' = Enemy.hp e
  /\ Enemy.maxHp e' = Enemy.maxHp e
  /\ Enemy.reward e' = Enemy.reward e
  /\ Enemy.id e' = Enemy.id e.
Proof.
  unfold Enemy.moveAlongPath.
  destruct (_ <=? _)%Z; [repeat split|].
  cbv zeta. destruct (Qle_bool _ _); [|repeat split].
  destruct (_ <=? _)%Z; repeat split.
Qed.

Lemma sameButEffects_refl (e : Enemy.t) : sameButEffects e e.
Proof. now destruct e. Qed.

Lemma ageEffect_sameButEffects (deltaTime : Q) (k : string) (e r : Enemy.t) :
  sameButEffects e r -> sameButEffects e (Enemy.ageEffect deltaTime k r).
Proof.
  unfold sameButEffects. intros Hr. unfold Enemy.ageEffect.
  destruct (Enemy.statusEffects r !! k) as [ef|]; [|exact Hr].
  cbv zeta. destruct e, r. simpl in Hr.
  injection Hr; intros; subst.
  destruct (Qle_bool _ 0); reflexivity.
Qed.

End EffectFacts.

(** X5. The speed of an enemy is always its base speed times the factor of
    its slow effect: a new enemy has it so, and applying or removing a status
    effect, ageing the effects, a whole update and taking damage keep it so.
    In particular an enemy without a slow effect moves at its base speed. *)
Theorem speed_follows_slow (p : list Point) (e : Enemy.t) :
  (forall data e0, Enemy.new_ p data = Some e0 -> speedOk e0)
  /\ (speedOk e ->
      (forall type value duration,
          speedOk (Enemy.applyStatusEffect type value duration e))
      /\ (forall type, speedOk (Enemy.removeStatusEffect type e))
      /\ (forall deltaTime, speedOk (Enemy.updateStatusEffects deltaTime e))
      /\ (forall deltaTime, speedOk (Enemy.update p deltaTime e))
      /\ (forall amount, speedOk (Enemy.takeDamage amount e))
      /\ (Enemy.statusEffects e !! "slow" = None ->
          Enemy.speed e == Enemy.baseSpeed e)).
Proof.
  split.
  - intros data e0. unfold Enemy.new_.
    destruct (p !! 0%nat) as [p0|]; [|discriminate].
    cbn [mbind option_bind]. intros [= <-].
    unfold speedOk, speedMultiplier. simpl. rewrite lookup_empty. ring.
  - intros Hok. split; [|split; [|split; [|split; [|split]]]].
    + intros. now apply applyStatusEffect_speedOk.
    + intros. apply recalculateSpeed_speedOk.
    + intros. now apply updateStatusEffects_speedOk.
    + intros deltaTime. unfold Enemy.update.
      destruct (_ || _); [exact Hok|].
      pose proof (updateStatusEffects_speedOk deltaTime e Hok) as H1.
      destruct (moveAlongPath_keeps p deltaTime
                  (Enemy.updateStatusEffects deltaTime e))
        as (Hs & Hb & He & _).
      unfold speedOk in *. rewrite Hs, Hb, He. exact H1.
    + intros. exact Hok.
    + intros Hnone. unfold speedOk, speedMultiplier in Hok.
      rewrite Hnone in Hok. rewrite Hok. ring.
Qed.

Lemma speed_follows_slow_witness :
  let e := Enemy.applyStatusEffect "slow" (3 # 10) 2
             (Sample.pest "pest" 50 1 0 ∅) in
  speedOk e /\ speedOk (Enemy.update path (1 # 10) e).
Proof.
  intros e.
  assert (Hok : speedOk e) by (vm_compute; reflexivity).
  split; [exact Hok|].
  destruct (speed_follows_slow path e) as (_ & H).
  destruct (H Hok) as (_ & _ & _ & Hu & _). apply Hu.
Defined.

(** X6. One pass of [updateStatusEffects] over the effects of an enemy takes
    [deltaTime] off the remaining duration of every effect, keeps its value,
    and drops exactly the effects whose remaining duration is then zero or
    less; apart from the effects and the speed the enemy is unchanged. *)
Theorem updateStatusEffects_expiry (deltaTime : Q) (e : Enemy.t) :
  let e' := Enemy.updateStatusEffects deltaTime e in
  (forall k, Enemy.statusEffects e' !! k
             = Enemy.statusEffects e !! k ≫= aged deltaTime)
  /\ sameButEffects e e'.
Proof.
  cbv zeta. unfold Enemy.updateStatusEffects.
  set (M0 := Enemy.statusEffects e).
  assert (H : forall m, m ⊆ M0 ->
       (forall k,
           Enemy.statusEffects
             (map_fold (fun effectType _ acc =>
                          Enemy.ageEffect deltaTime effectType acc) e m) !! k
           = match m !! k with
             | Some ef => aged deltaTime ef
             | None => M0 !! k
             end)
       /\ sameButEffects e
            (map_fold (fun effectType _ acc =>
                         Enemy.ageEffect deltaTime effectType acc) e m));
    [|destruct (H M0 (reflexivity _)) as [H1 H2]; split; [|exact H2];
      intros k; rewrite H1; destruct (M0 !! k); reflexivity].
  apply (map_fold_weak_ind
           (fun r m =>
              m ⊆ M0 ->
              (forall k, Enemy.statusEffects r !! k
                         = match m !! k with
                           | Some ef => aged deltaTime ef
                           | None => M0 !! k
                           end)
              /\ sameButEffects e r)).
  - intros _. split; [|apply sameButEffects_refl].
    intros k. now rewrite lookup_empty.
  - intros i x m r Hnone IH Hsub.
    assert (Hm : m ⊆ M0).
    { etransitivity; [|exact Hsub]. now apply insert_subseteq. }
    assert (Hi : M0 !! i = Some x).
    { eapply lookup_weaken; [|exact Hsub]. apply lookup_insert_eq. }
    destruct (IH Hm) as [IH1 IH2].
    split; [|now apply ageEffect_sameButEffects].
    assert (Hri : Enemy.statusEffects r !! i = Some x).
    { rewrite IH1, Hnone. exact Hi. }
    intros k. unfold Enemy.ageEffect. rewrite Hri. cbv zeta.
    change (Enemy.duration
              (Enemy.mkEffect (Enemy.value x) (Enemy.duration x - deltaTime)))
      with (Enemy.duration x - deltaTime).
    destruct (Qle_bool (Enemy.duration x - deltaTime) 0) eqn:E.
    + unfold Enemy.removeStatusEffect, Enemy.recalculateSpeed. simpl.
      destruct (decide (k = i)) as [->|Hne].
      * rewrite lookup_delete_eq, lookup_insert_eq. unfold aged.
        now rewrite E.
      * rewrite lookup_delete_ne, !lookup_insert_ne by congruence. apply IH1.
    + simpl. destruct (decide (k = i)) as [->|Hne].
      * rewrite !lookup_insert_eq. unfold aged. now rewrite E.
      * rewrite !lookup_insert_ne by congruence. apply IH1.
Qed.

(** X7. A slow effect that is at least as strong as the one an enemy
    already carries never makes the enemy faster. *)
Theorem stronger_slow_never_speeds_up (value duration : Q) (e : Enemy.t) :
  speedOk e ->
  0 <= Enemy.baseSpeed e ->
  0 <= value ->
  (forall ex, Enemy.statusEffects e !! "slow" = Some ex ->
              Enemy.value ex <= value) ->
  Enemy.speed (Enemy.applyStatusEffect "slow" value duration e)
  <= Enemy.speed e.
Proof.
  intros Hok Hbase Hval Hex. unfold Enemy.applyStatusEffect.
  destruct (_ && _); [apply Qle_refl|].
  destruct (match Enemy.statusEffects e !! "slow" with
            | Some ex => _
            | None => true
            end); [|apply Qle_refl].
  unfold Enemy.recalculateSpeed. simpl. rewrite lookup_insert_eq.
  cbn [Enemy.value]. unfold speedOk, speedMultiplier in Hok. rewrite Hok.
  destruct (Enemy.statusEffects e !! "slow") as [ex|].
  - specialize (Hex ex eq_refl). nra.
  - nra.
Qed.

Lemma stronger_slow_never_speeds_up_witness :
  let e := Enemy.applyStatusEffect "slow" (3 # 10) 2
             (Sample.pest "pest" 50 1 0 ∅) in
  Enemy.speed (Enemy.applyStatusEffect "slow" (1 # 2) 1 e) <= Enemy.speed e.
Proof.
  intros e. apply (stronger_slow_never_speeds_up (1 # 2) 1 e).
  - vm_compute. reflexivity.
  - vm_compute. discriminate.
  - vm_compute. discriminate.
  - intros ex Hex. vm_compute in Hex. injection Hex as <-.
    vm_compute. discriminate.
Defined.

(** X8. A slow effect that is weaker than the one in place but lasts longer
    replaces it, and the enemy gets faster although it has just been
    slowed. *)
Theorem weaker_slow_speeds_up (value duration : Q) (e : Enemy.t)
    (ex : Enemy.Effect) :
  speedOk e ->
  0 < Enemy.baseSpeed e ->
  Enemy.id e <> "pest_boss" ->
  Enemy.statusEffects e !! "slow" = Some ex ->
  value < Enemy.value ex ->
  Enemy.duration ex < duration ->
  let e' := Enemy.applyStatusEffect "slow" value duration e in
  Enemy.statusEffects e' !! "slow" = Some (Enemy.mkEffect value duration)
  /\ Enemy.speed e < Enemy.speed e'.
Proof.
  intros Hok Hbase Hid Hex Hval Hdur. cbv zeta.
  unfold Enemy.applyStatusEffect.
  apply String.eqb_neq in Hid. rewrite Hid. cbn [andb].
  rewrite Hex.
  apply Qlt_bool_iff in Hdur. rewrite Hdur, orb_true_r.
  unfold Enemy.recalculateSpeed. simpl. rewrite lookup_insert_eq.
  split; [reflexivity|].
  cbn [Enemy.value]. unfold speedOk, speedMultiplier in Hok.
  rewrite Hex in Hok. rewrite Hok. nra.
Qed.

Lemma weaker_slow_speeds_up_witness :
  let e := Enemy.applyStatusEffect "slow" (1 # 2) 1
             (Sample.pest "pest" 50 1 0 ∅) in
  Enemy.speed e < Enemy.speed (Enemy.applyStatusEffect "slow" (1 # 10) 3 e).
Proof.
  intros e.
  apply (weaker_slow_speeds_up (1 # 10) 3 e (Enemy.mkEffect (1 # 2) 1)).
  - vm_compute. reflexivity.
  - vm_compute. reflexivity.
  - vm_compute. discriminate.
  - vm_compute. reflexivity.
  - vm_compute. reflexivity.
  - vm_compute. reflexivity.
Defined.

(** ** Tower: the update of one tower *)

Section TickFacts.
Import TowerObj.

Lemma sameButCooldown_refl (a : t) : sameButCooldown a a.
Proof. now destruct a. Qed.

Lemma sameButCooldown_set (c : Q) (a b : t) :
  sameButCooldown a b -> sameButCooldown a (set_cooldown c b).
Proof.
  unfold sameButCooldown. intros H. destruct a, b. simpl in *.
  injection H; intros; subst. reflexivity.
Qed.

Lemma sameButCooldown_fields (a b : t) :
  sameButCooldown a b ->
  type b = type a /\ stats b = stats a /\ x b = x a /\ y b = y a
  /\ infection b = infection a /\ id b = id a.
Proof. unfold sameButCooldown. intros ->. repeat split. Qed.

Lemma towerTick_refl (r : nat) (g : GameState.t) (this : t) :
  GameState.towerObjs g !! r = Some this -> towerTick r g g.
Proof.
  intros Hlook. exists this, this.
  split; [exact Hlook|]. split; [apply sameButCooldown_refl|].
  rewrite (insert_id _ _ _ Hlook). now destruct g.
Qed.

Lemma towerTick_trans (r : nat) (g g1 g2 : GameState.t) :
  towerTick r g g1 -> towerTick r g1 g2 -> towerTick r g g2.
Proof.
  intros (a & b & Ha & Hab & E1) (b' & c & Hb & Hbc & E2).
  exists a, c. split; [exact Ha|].
  assert (b' = b) as ->.
  { rewrite E1 in Hb. simpl in Hb. rewrite lookup_insert_eq in Hb.
    congruence. }
  split.
  - unfold sameButCooldown in *. rewrite Hbc, Hab. now destruct a.
  - rewrite E2. rewrite E1. simpl. rewrite insert_insert_eq. reflexivity.
Qed.

Lemma towerTick_cooldown (r : nat) (c : Q) (g : GameState.t) (this : t) :
  GameState.towerObjs g !! r = Some this ->
  towerTick r g
    (GameState.set_towerObjs
       (<[ r := set_cooldown c this ]> (GameState.towerObjs g)) g).
Proof.
  intros Hlook. exists this, (set_cooldown c this).
  split; [exact Hlook|].
  split; [apply sameButCooldown_set, sameButCooldown_refl|].
  now destruct g.
Qed.

Lemma towerTick_frame (r : nat) (g g' : GameState.t) :
  towerTick r g g' ->
  GameState.enemies g' = GameState.enemies g
  /\ GameState.enemyObjs g' = GameState.enemyObjs g
  /\ GameState.lives g' = GameState.lives g
  /\ GameState.towers g' = GameState.towers g
  /\ GameState.currentWave g' = GameState.currentWave g
  /\ GameState.waveInProgress g' = GameState.waveInProgress g
  /\ GameState.nextRef g' = GameState.nextRef g
  /\ (forall r', r' <> r ->
        GameState.towerObjs g' !! r' = GameState.towerObjs g !! r').
Proof.
  intros (a & b & Ha & Hab & E). rewrite E. simpl.
  repeat split. intros r' Hne. now rewrite lookup_insert_ne.
Qed.

Lemma updateEconomy_tick (r : nat) (g g' : GameState.t) (this : t) :
  GameState.towerObjs g !! r = Some this ->
  Tower.updateEconomy r g = Some g' ->
  towerTick r g g' /\ GameState.projectiles g' = GameState.projectiles g.
Proof.
  intros Hlook. unfold Tower.updateEconomy. rewrite Hlook.
  cbn [mbind option_bind].
  destruct (income (stats this)) as [amount|];
    [|intros [= <-]; split; [now apply (towerTick_refl r g this)|reflexivity]].
  destruct (_ && _);
    [|intros [= <-]; split; [now apply (towerTick_refl r g this)|reflexivity]].
  intros [= <-]. split; [|reflexivity].
  exists this, (set_cooldown (or_default (interval_s (stats this)) 1) this).
  split; [exact Hlook|].
  split; [apply sameButCooldown_set, sameButCooldown_refl|].
  now destruct g.
Qed.

Lemma updateSensor_tick (r : nat) (g g' : GameState.t) (this : t)
    (tm : option Tower.AutoHeal) :
  GameState.towerObjs g !! r = Some this ->
  Tower.updateSensor r g = Some (g', tm) ->
  towerTick r g g'
  /\ GameState.projectiles g' = GameState.projectiles g
  /\ GameState.money g' = GameState.money g
  /\ GameState.gameStats g' = GameState.gameStats g.
Proof.
  intros Hlook. unfold Tower.updateSensor. rewrite Hlook.
  cbn [mbind option_bind].
  destruct (Qle_bool _ 0); intros [= <- <-].
  - split; [now apply towerTick_cooldown|]. repeat split.
  - split; [now apply (towerTick_refl r g this)|]. repeat split.
Qed.

Lemma attack_tick (r : nat) (g g' : GameState.t) (this : t) :
  GameState.towerObjs g !! r = Some this ->
  Tower.attack r g = Some g' ->
  towerTick r g g'
  /\ GameState.money g' = GameState.money g
  /\ GameState.gameStats g' = GameState.gameStats g
  /\ exists l, GameState.projectiles g' = GameState.projectiles g ++ l
               /\ (length l <= 1)%nat.
Proof.
  intros Hlook. unfold Tower.attack. rewrite Hlook.
  cbn [mbind option_bind]. cbv zeta.
  destruct (Tower.findTargets this _) as [|first others].
  { intros [= <-]. split; [now apply (towerTick_refl r g this)|].
    repeat split. exists []. rewrite app_nil_r. split; [reflexivity|simpl; lia]. }
  destruct (Tower.selectTarget this _) as [target|]; [|discriminate].
  cbn [mbind option_bind].
  destruct (firerate_s (stats this)) as [firerate|]; [|discriminate].
  cbn [mbind option_bind].
  destruct (Tower.createProjectile _ target) as [projectile|];
    [|discriminate].
  cbn [mbind option_bind]. intros [= <-].
  split.
  - exists this, (set_cooldown firerate this).
    split; [exact Hlook|].
    split; [apply sameButCooldown_set, sameButCooldown_refl|].
    now destruct g.
  - repeat split. exists [projectile]. split; [reflexivity|simpl; lia].
Qed.

Lemma updateCombat_tick (r : nat) (g g' : GameState.t) (this : t) :
  GameState.towerObjs g !! r = Some this ->
  Tower.updateCombat r g = Some g' ->
  towerTick r g g'
  /\ GameState.money g' = GameState.money g
  /\ GameState.gameStats g' = GameState.gameStats g
  /\ exists l, GameState.projectiles g' = GameState.projectiles g ++ l
               /\ (length l <= 1)%nat.
Proof.
  intros Hlook. unfold Tower.updateCombat. rewrite Hlook.
  cbn [mbind option_bind].
  destruct (_ && _); [exact (attack_tick r g g' this Hlook)|].
  intros [= <-]. split; [now apply (towerTick_refl r g this)|].
  repeat split. exists []. rewrite app_nil_r. split; [reflexivity|simpl; lia].
Qed.

(** The first step of [Tower.update]: a running cooldown is counted down. *)
Lemma countdown_tick (deltaTime : Q) (r : nat) (g : GameState.t) (this : t) :
  GameState.towerObjs g !! r = Some this ->
  let g1 :=
    if Qlt_bool 0 (cooldown this)
    then GameState.set_towerObjs
           (<[ r := set_cooldown (cooldown this - deltaTime) this ]>
              (GameState.towerObjs g)) g
    else g in
  towerTick r g g1
  /\ GameState.money g1 = GameState.money g
  /\ GameState.gameStats g1 = GameState.gameStats g
  /\ GameState.projectiles g1 = GameState.projectiles g
  /\ GameState.towerObjs g1 !! r
     = Some (if Qlt_bool 0 (cooldown this)
             then set_cooldown (cooldown this - deltaTime) this
             else this).
Proof.
  intros Hlook. cbv zeta. destruct (Qlt_bool 0 (cooldown this)).
  - split; [now apply towerTick_cooldown|]. repeat split.
    simpl. apply lookup_insert_eq.
  - split; [now apply (towerTick_refl r g this)|]. repeat split. exact Hlook.
Qed.

End TickFacts.

(** X9. The update of one tower leaves the enemies, the lives, the tower
    array, the wave counters and every other tower alone, and of the tower
    itself it changes the cooldown only.  Money and statistics change for an
    income tower at most, at most one projectile is added and by a combat
    tower only, and a timer is set by a sensor only. *)
Theorem tower_update_frame (deltaTime : Q) (r : nat) (g g' : GameState.t)
    (this : TowerObj.t) (timer : option Tower.AutoHeal) :
  GameState.towerObjs g !! r = Some this ->
  Tower.update deltaTime r g = Some (g', timer) ->
  towerTick r g g'
  /\ GameState.enemies g' = GameState.enemies g
  /\ GameState.enemyObjs g' = GameState.enemyObjs g
  /\ GameState.lives g' = GameState.lives g
  /\ GameState.towers g' = GameState.towers g
  /\ (forall r', r' <> r ->
        GameState.towerObjs g' !! r' = GameState.towerObjs g !! r')
  /\ (TowerObj.type this <> "eco" ->
      GameState.money g' = GameState.money g
      /\ GameState.gameStats g' = GameState.gameStats g)
  /\ (exists l, GameState.projectiles g' = GameState.projectiles g ++ l
                /\ (length l <= 1)%nat
                /\ (l <> [] -> isCombat this = true))
  /\ (is_Some timer -> TowerObj.type this = "support_sensor").
Proof.
  intros Hlook Hup.
  assert (Hmain :
    towerTick r g g'
    /\ (TowerObj.type this <> "eco" ->
        GameState.money g' = GameState.money g
        /\ GameState.gameStats g' = GameState.gameStats g)
    /\ (exists l, GameState.projectiles g' = GameState.projectiles g ++ l
                  /\ (length l <= 1)%nat
                  /\ (l <> [] -> isCombat this = true))
    /\ (is_Some timer -> TowerObj.type this = "support_sensor")).
  { unfold Tower.update in Hup. rewrite Hlook in Hup.
    cbn [mbind option_bind] in Hup. cbv zeta in Hup.
    destruct (countdown_tick deltaTime r g this Hlook)
      as (T1 & M1 & S1 & P1 & L1).
    cbv zeta in T1, M1, S1, P1, L1.
    set (g1 := if Qlt_bool 0 (TowerObj.cooldown this) then _ else g) in *.
    clearbody g1.
    assert (Hnil : exists l,
               GameState.projectiles g1 = GameState.projectiles g ++ l
               /\ (length l <= 1)%nat /\ (l <> [] -> isCombat this = true)).
    { exists []. rewrite app_nil_r. split; [exact P1|].
      split; [simpl; lia | congruence]. }
    destruct (String.eqb (TowerObj.type this) "eco") eqn:Eeco.
    { destruct (Tower.updateEconomy r g1) as [g2|] eqn:E2; [|discriminate].
      cbn [mbind option_bind] in Hup. injection Hup as <- <-.
      destruct (updateEconomy_tick r g1 g2 _ L1 E2) as [T2 P2].
      apply String.eqb_eq in Eeco.
      split; [exact (towerTick_trans _ _ _ _ T1 T2)|].
      split; [congruence|].
      split; [rewrite P2; exact Hnil|].
      intros [? [=]]. }
    destruct (String.eqb (TowerObj.type this) "support_sensor") eqn:Esen.
    { destruct (updateSensor_tick r g1 g' _ timer L1 Hup)
        as (T2 & P2 & M2 & S2).
      apply String.eqb_eq in Esen.
      split; [exact (towerTick_trans _ _ _ _ T1 T2)|].
      split; [intros _; split; congruence|].
      split; [rewrite P2; exact Hnil|].
      intros _. exact Esen. }
    destruct (_ || _) eqn:Ecom.
    { destruct (Tower.updateCombat r g1) as [g2|] eqn:E2; [|discriminate].
      cbn [mbind option_bind] in Hup. injection Hup as <- <-.
      destruct (updateCombat_tick r g1 g2 _ L1 E2)
        as (T2 & M2 & S2 & l & P2 & Hl).
      split; [exact (towerTick_trans _ _ _ _ T1 T2)|].
      split; [intros _; split; congruence|].
      split; [|intros [? [=]]].
      exists l. rewrite P2, P1. split; [reflexivity|].
      split; [exact Hl|]. intros _. exact Ecom. }
    injection Hup as <- <-.
    split; [exact T1|].
    split; [intros _; split; assumption|].
    split; [exact Hnil|]. intros [? [=]]. }
  destruct Hmain as (T & Hmoney & Hproj & Htimer).
  destruct (towerTick_frame r g g' T) as (F1 & F2 & F3 & F4 & _ & _ & _ & F8).
  repeat (split; [assumption|]). assumption.
Qed.

Lemma tower_update_frame_witness :
  let res := default (Play.fight, None) (Tower.update (1 # 10) 1 Play.fight) in
  GameState.enemies res.1 = GameState.enemies Play.fight
  /\ GameState.lives res.1 = GameState.lives Play.fight.
Proof.
  intros res.
  destruct (tower_update_frame (1 # 10) 1 Play.fight res.1
              (Sample.tower_at Play.fight 1) res.2)
    as (_ & H1 & _ & H3 & _).
  - vm_compute. reflexivity.
  - vm_compute. reflexivity.
  - split; assumption.
Defined.

(** X10. An income tower pays in the very update in which its cooldown runs
    out, once, and starts the next interval; before that it only counts its
    cooldown down. *)
Theorem eco_tower_income (deltaTime : Q) (r : nat) (g : GameState.t)
    (this : TowerObj.t) (amount : Q) :
  GameState.towerObjs g !! r = Some this ->
  TowerObj.type this = "eco" ->
  income (TowerObj.stats this) = Some amount ->
  ~ amount == 0 ->
  0 <= deltaTime ->
  exists g' this',
    Tower.update deltaTime r g = Some (g', None)
    /\ GameState.towerObjs g' !! r = Some this'
    /\ (TowerObj.cooldown this <= deltaTime ->
        GameState.money g' = GameState.money g + amount
        /\ GameState.moneyEarned (GameState.gameStats g')
           = GameState.moneyEarned (GameState.gameStats g) + amount
        /\ TowerObj.cooldown this'
           = or_default (interval_s (TowerObj.stats this)) 1)
    /\ (deltaTime < TowerObj.cooldown this ->
        GameState.money g' = GameState.money g
        /\ GameState.gameStats g' = GameState.gameStats g
        /\ TowerObj.cooldown this' = TowerObj.cooldown this - deltaTime).
Proof.
  intros Hlook Htype Hinc Hne Hdt.
  assert (Hz : Qeq_bool amount 0 = false).
  { destruct (Qeq_bool amount 0) eqn:E; [|reflexivity].
    apply Qeq_bool_iff in E. contradiction. }
  unfold Tower.update. rewrite Hlook. cbn [mbind option_bind]. cbv zeta.
  rewrite Htype. cbn [String.eqb Ascii.eqb Bool.eqb].
  destruct (Qlt_bool 0 (TowerObj.cooldown this)) eqn:Erun.
  - apply Qlt_bool_iff in Erun.
    unfold Tower.updateEconomy. cbn [GameState.towerObjs GameState.set_towerObjs].
    rewrite lookup_insert_eq. cbn [mbind option_bind].
    cbn [TowerObj.stats TowerObj.set_cooldown TowerObj.cooldown].
    rewrite Hinc, Hz. cbn [negb]. rewrite andb_true_r.
    destruct (Qle_bool (TowerObj.cooldown this - deltaTime) 0) eqn:Edue.
    + apply Qle_bool_iff in Edue. cbn [mbind option_bind].
      eexists _, _. split; [reflexivity|].
      split; [simpl; apply lookup_insert_eq|].
      split; [intros _; repeat split | intros Hlt; lra].
    + apply Qle_bool_false in Edue. cbn [mbind option_bind].
      eexists _, _. split; [reflexivity|].
      split; [simpl; apply lookup_insert_eq|].
      split; [intros Hle; lra | intros _; repeat split].
  - apply Qlt_bool_false in Erun.
    unfold Tower.updateEconomy. rewrite Hlook. cbn [mbind option_bind].
    rewrite Hinc, Hz. cbn [negb]. rewrite andb_true_r.
    apply Qle_bool_iff in Erun. rewrite Erun. apply Qle_bool_iff in Erun.
    cbn [mbind option_bind].
    eexists _, _. split; [reflexivity|].
    split; [simpl; apply lookup_insert_eq|].
    split; [intros _; repeat split | intros Hlt; lra].
Qed.

Lemma eco_tower_income_witness :
  exists g',
    Tower.update (1 # 10) 0 Play.farmed = Some (g', None)
    /\ GameState.money g' = GameState.money Play.farmed + 25.
Proof.
  destruct (eco_tower_income (1 # 10) 0 Play.farmed
              (Sample.tower_at Play.farmed 0) 25)
    as (g' & this' & Hup & _ & Hpay & _).
  - vm_compute. reflexivity.
  - vm_compute. reflexivity.
  - vm_compute. reflexivity.
  - vm_compute. discriminate.
  - vm_compute. discriminate.
  - exists g'. split; [exact Hup|]. apply Hpay. vm_compute. discriminate.
Defined.

Lemma isCombat_type (this : TowerObj.t) :
  isCombat this = true ->
  String.eqb (TowerObj.type this) "eco" = false
  /\ String.eqb (TowerObj.type this) "support_sensor" = false.
Proof.
  unfold isCombat. intros H.
  apply orb_true_iff in H as [H|H]; [apply orb_true_iff in H as [H|H]|];
    apply String.eqb_eq in H; rewrite H; split; reflexivity.
Qed.

(** X11. A combat tower that can attack fires in the very update in which
    its cooldown runs out, provided an enemy is in range: the target is the
    candidate that [selectTarget] returns, one projectile made for it is
    appended, and the cooldown restarts at the fire rate.  While the
    cooldown runs the update only counts it down. *)
Theorem combat_tower_fires_when_ready (deltaTime : Q) (r : nat)
    (g : GameState.t) (this : TowerObj.t) :
  GameState.towerObjs g !! r = Some this ->
  isCombat this = true ->
  0 <= deltaTime ->
  (TowerObj.cooldown this <= deltaTime ->
   Tower.canAttack this = true ->
   Tower.findTargets this
     (deref (GameState.enemyObjs g) (GameState.enemies g)) <> [] ->
   exists best firerate projectile,
     Tower.selectTarget this
       (Tower.findTargets this
          (deref (GameState.enemyObjs g) (GameState.enemies g))) = Some best
     /\ firerate_s (TowerObj.stats this) = Some firerate
     /\ Tower.createProjectile this best = Some projectile
     /\ Tower.update deltaTime r g
        = Some (GameState.set_projectiles
                  (GameState.projectiles g ++ [projectile])
                  (GameState.set_towerObjs
                     (<[ r := TowerObj.set_cooldown firerate this ]>
                        (GameState.towerObjs g)) g), None))
  /\ (deltaTime < TowerObj.cooldown this ->
      Tower.update deltaTime r g
      = Some (GameState.set_towerObjs
                (<[ r := TowerObj.set_cooldown
                           (TowerObj.cooldown this - deltaTime) this ]>
                   (GameState.towerObjs g)) g, None)).
Proof.
  intros Hlook Hcom Hdt.
  destruct (isCombat_type this Hcom) as [Heco Hsen].
  unfold isCombat in Hcom. split.
  - intros Hcool Hcan Htargets.
    unfold Tower.update. rewrite Hlook. cbn [mbind option_bind]. cbv zeta.
    rewrite Heco, Hsen, Hcom.
    destruct (Qlt_bool 0 (TowerObj.cooldown this)) eqn:Erun.
    + set (this1 := TowerObj.set_cooldown (TowerObj.cooldown this - deltaTime)
                      this).
      set (g1 := GameState.set_towerObjs
                   (<[ r := this1 ]> (GameState.towerObjs g)) g).
      destruct (updateCombat_fires_at_best r g1 this1)
        as (best & firerate & projectile & Hsel & Hf & Hp & Hrun).
      * apply lookup_insert_eq.
      * simpl. lra.
      * exact Hcan.
      * exact Htargets.
      * exists best, firerate, projectile.
        split; [exact Hsel|]. split; [exact Hf|]. split; [exact Hp|].
        rewrite Hrun. cbn [mbind option_bind]. unfold g1.
        cbn [GameState.towerObjs GameState.set_towerObjs
             GameState.projectiles].
        rewrite insert_insert_eq. now destruct g.
    + apply Qlt_bool_false in Erun.
      destruct (updateCombat_fires_at_best r g this Hlook Erun Hcan Htargets)
        as (best & firerate & projectile & Hsel & Hf & Hp & Hrun).
      exists best, firerate, projectile.
      split; [exact Hsel|]. split; [exact Hf|]. split; [exact Hp|].
      rewrite Hrun. reflexivity.
  - intros Hlt.
    unfold Tower.update. rewrite Hlook. cbn [mbind option_bind]. cbv zeta.
    rewrite Heco, Hsen, Hcom.
    assert (Hrun : Qlt_bool 0 (TowerObj.cooldown this) = true)
      by (apply Qlt_bool_iff; lra).
    rewrite Hrun. unfold Tower.updateCombat.
    cbn [GameState.towerObjs GameState.set_towerObjs].
    rewrite lookup_insert_eq. cbn [mbind option_bind].
    cbn [TowerObj.cooldown TowerObj.set_cooldown].
    assert (Hwait : Qle_bool (TowerObj.cooldown this - deltaTime) 0 = false)
      by (apply Qle_bool_false; lra).
    rewrite Hwait. reflexivity.
Qed.

Lemma combat_tower_fires_when_ready_witness :
  exists g',
    Tower.update (1 # 10) 1 Play.fight = Some (g', None)
    /\ length (GameState.projectiles g')
       = S (length (GameState.projectiles Play.fight)).
Proof.
  destruct (combat_tower_fires_when_ready (1 # 10) 1 Play.fight
              (Sample.tower_at Play.fight 1)) as [Hfire _].
  - vm_compute. reflexivity.
  - vm_compute. reflexivity.
  - vm_compute. discriminate.
  - destruct Hfire as (best & firerate & projectile & _ & _ & _ & Hrun).
    + vm_compute. discriminate.
    + vm_compute. reflexivity.
    + vm_compute. discriminate.
    + eexists. split; [exact Hrun|].
      cbn [GameState.projectiles GameState.set_projectiles].
      rewrite length_app. change (length [projectile]) with 1%nat. lia.
Defined.

(** ** Tower: the sensor *)

Section SensorFacts.

(** The first element that a filter keeps of the objects behind an array. *)
Lemma filter_deref_head {A} (P : nat * A -> bool) (h : gmap nat A)
    (rs : list nat) (first : nat * A) (others : list (nat * A)) :
  filter P (deref h rs) = first :: others ->
  exists i,
    rs !! i = Some first.1
    /\ h !! first.1 = Some first.2
    /\ P first = true
    /\ forall j r a, (j < i)%nat -> rs !! j = Some r -> h !! r = Some a ->
                     P (r, a) = false.
Proof.
  induction rs as [|r0 rs IH]; [discriminate|].
  rewrite deref_cons. destruct (h !! r0) as [a0|] eqn:E0.
  - rewrite filter_cons. destruct (decide (P (r0, a0))) as [Hp|Hp].
    + intros [= <- _]. exists 0%nat. simpl.
      split; [reflexivity|]. split; [exact E0|].
      split; [now apply Is_true_true|]. intros; lia.
    + intros H. destruct (IH H) as (i & Hi & Hh & HP & Hbefore).
      exists (S i). split; [exact Hi|]. split; [exact Hh|].
      split; [exact HP|].
      intros [|j] r a Hj Hr Ha.
      * simpl in Hr. injection Hr as <-. rewrite E0 in Ha.
        injection Ha as <-. now apply Is_true_false.
      * apply (Hbefore j r a); [lia | exact Hr | exact Ha].
  - intros H. destruct (IH H) as (i & Hi & Hh & HP & Hbefore).
    exists (S i). split; [exact Hi|]. split; [exact Hh|].
    split; [exact HP|].
    intros [|j] r a Hj Hr Ha.
    + simpl in Hr. injection Hr as <-. congruence.
    + apply (Hbefore j r a); [lia | exact Hr | exact Ha].
Qed.

Lemma filter_deref_nil {A} (P : nat * A -> bool) (h : gmap nat A)
    (rs : list nat) (r : nat) (a : A) :
  filter P (deref h rs) = [] ->
  r ∈ rs -> h !! r = Some a -> P (r, a) = false.
Proof.
  intros Hnil Hin Ha.
  destruct (P (r, a)) eqn:HP; [|reflexivity].
  assert (Hmem : (r, a) ∈ filter P (deref h rs)).
  { apply list_elem_of_filter. split; [now apply Is_true_true|].
    unfold deref. apply list_elem_of_omap. exists r.
    split; [exact Hin|]. now rewrite Ha. }
  rewrite Hnil in Hmem. now apply elem_of_nil in Hmem.
Qed.

End SensorFacts.

(** X12. A scan sets a timer exactly when the sensor heals by itself and
    some tower of the array is infected and within its range.  The timer is
    for the first such tower in the order of the array, and its delay is the
    configured healing time, five seconds by default. *)
Theorem scanForInfections_first_infected (this : TowerObj.t)
    (g : GameState.t) :
  let hit (tower : nat * TowerObj.t) :=
    TowerObj.isInfected tower.2
    && Entity.isInRange (TowerObj.x this) (TowerObj.y this)
         (TowerObj.x tower.2) (TowerObj.y tower.2)
         (range (TowerObj.stats this)) in
  (forall timer,
      Tower.scanForInfections this g = Some timer ->
      auto_heal (TowerObj.stats this) = Some true
      /\ Tower.healDelay timer
         = or_default (auto_heal_time_s (TowerObj.stats this)) 5 * 1000
      /\ exists i tower,
           GameState.towers g !! i = Some (Tower.healTower timer)
           /\ GameState.towerObjs g !! Tower.healTower timer = Some tower
           /\ hit (Tower.healTower timer, tower) = true
           /\ forall j r other,
                (j < i)%nat ->
                GameState.towers g !! j = Some r ->
                GameState.towerObjs g !! r = Some other ->
                hit (r, other) = false)
  /\ (Tower.scanForInfections this g = None ->
      auto_heal (TowerObj.stats this) = Some true ->
      forall r tower,
        r ∈ GameState.towers g ->
        GameState.towerObjs g !! r = Some tower ->
        hit (r, tower) = false).
Proof.
  cbv zeta. unfold Tower.scanForInfections. cbv zeta.
  destruct (filter _ (deref (GameState.towerObjs g) (GameState.towers g)))
    as [|first others] eqn:E.
  - split; [discriminate|]. intros _ _ r tower Hin Hlook.
    exact (filter_deref_nil _ _ _ r tower E Hin Hlook).
  - destruct (filter_deref_head _ _ _ first others E)
      as (i & Hi & Hh & HP & Hbefore).
    destruct (auto_heal (TowerObj.stats this)) as [[|]|];
      (split; [|discriminate || congruence]); try discriminate.
    intros timer [= <-]. split; [reflexivity|]. split; [reflexivity|].
    exists i, first.2. simpl. split; [exact Hi|]. split; [exact Hh|].
    split; [now destruct first|]. exact Hbefore.
Qed.

Lemma scanForInfections_first_infected_witness :
  exists timer,
    Tower.scanForInfections (Sample.tower_at Play.watched 2) Play.watched
    = Some timer
    /\ Tower.healDelay timer = 5000.
Proof.
  destruct (scanForInfections_first_infected
              (Sample.tower_at Play.watched 2) Play.watched) as [Hsome _].
  eexists. split; [vm_compute; reflexivity|].
  destruct (Hsome (Tower.mkAutoHeal 1 5000)) as (_ & Hdelay & _).
  - vm_compute. reflexivity.
  - reflexivity.
Defined.

(** X13. When a healing timer fires, the tower is looked at again: a tower
    that has been cured in the meantime is left alone and nothing is
    counted; a tower that is still infected is cured, its stats are
    recomputed and the cure is counted.  Either way the timer is gone. *)
Theorem fireTimer_checks_again (index : nat) (m : GameManager.t)
    (timer : Tower.AutoHeal) (this : TowerObj.t) :
  GameManager.timers m !! index = Some timer ->
  GameState.towerObjs (GameManager.gameState m) !! Tower.healTower timer
  = Some this ->
  exists m',
    GameManager.fireTimer index m = Some m'
    /\ GameManager.timers m' = delete index (GameManager.timers m)
    /\ (TowerObj.infection this = None ->
        GameManager.gameState m' = GameManager.gameState m)
    /\ (TowerObj.isInfected this = true ->
        exists this',
          GameState.towerObjs (GameManager.gameState m')
            !! Tower.healTower timer = Some this'
          /\ TowerObj.infection this' = None
          /\ statsCurrent (GameManager.gameState m') (Tower.healTower timer)
          /\ GameState.infectionsCured
               (GameState.gameStats (GameManager.gameState m'))
             = (GameState.infectionsCured
                  (GameState.gameStats (GameManager.gameState m)) + 1)%Z).
Proof.
  intros Htimer Hlook. unfold GameManager.fireTimer. rewrite Htimer.
  cbn [mbind option_bind]. unfold Tower.autoHealCallback. rewrite Hlook.
  cbn [mbind option_bind].
  destruct (TowerObj.infection this) as [inf|] eqn:Einf.
  - destruct (cure_infected _ _ this inf Hlook Einf)
      as (g' & this' & Hcure & Hl' & Hn' & Hcur & _ & Hcount).
    rewrite Hcure. cbn [mbind option_bind]. eexists.
    split; [reflexivity|]. split; [reflexivity|].
    split; [discriminate|]. intros _. exists this'. simpl. auto.
  - eexists. split; [reflexivity|]. split; [reflexivity|].
    split; [intros _; reflexivity|].
    unfold TowerObj.isInfected. rewrite Einf. discriminate.
Qed.

Lemma fireTimer_checks_again_witness :
  let m :=
    GameManager.set_timers [Tower.mkAutoHeal 1 5000]
      (GameManager.set_gameState Play.watched
         (GameManager.initialize Sample.gameData)) in
  exists m',
    GameManager.fireTimer 0 m = Some m'
    /\ GameManager.timers m' = []
    /\ TowerObj.isInfected (Sample.tower_at (GameManager.gameState m') 1)
       = false.
Proof.
  intros m.
  destruct (fireTimer_checks_again 0 m (Tower.mkAutoHeal 1 5000)
              (Sample.tower_at Play.watched 1))
    as (m' & Hfire & Htimers & _ & Hcured).
  - reflexivity.
  - vm_compute. reflexivity.
  - exists m'. split; [exact Hfire|]. split; [exact Htimers|].
    destruct Hcured as (this' & Hl & Hn & _); [vm_compute; reflexivity|].
    unfold Sample.tower_at. cbn [Tower.healTower] in Hl. rewrite Hl. simpl.
    unfold TowerObj.isInfected. now rewrite Hn.
Defined.

(** ** Tower: upgrades and infections *)

(** X14. [upgrade] refuses a tower that is at its last level and leaves it
    as it is.  A successful upgrade raises the level by exactly one, never
    beyond the number of upgrades, adds the cost of the upgrade bought to
    the total cost, and makes that upgrade the base stat block of the
    tower; position, type and infection are kept. *)
Theorem upgrade_one_level (self : nat) (ts : list (nat * TowerObj.t))
    (this : TowerObj.t) :
  ((length (upgrades (TowerObj.towerData this)) <= TowerObj.level this)%nat ->
   Tower.upgrade self ts this = Some (this, false))
  /\ (forall this',
         Tower.upgrade self ts this = Some (this', true) ->
         TowerObj.level this' = S (TowerObj.level this)
         /\ (TowerObj.level this'
             <= length (upgrades (TowerObj.towerData this')))%nat
         /\ (exists data upgradeCost,
               upgrades (TowerObj.towerData this) !! TowerObj.level this
               = Some data
               /\ cost data = Some upgradeCost
               /\ TowerObj.totalCost this'
                  = TowerObj.totalCost this + upgradeCost
               /\ TowerObj.baseStats this' = data)
         /\ TowerObj.x this' = TowerObj.x this
         /\ TowerObj.y this' = TowerObj.y this
         /\ TowerObj.type this' = TowerObj.type this
         /\ TowerObj.infection this' = TowerObj.infection this).
Proof.
  unfold Tower.upgrade. split.
  - intros Hmax. apply Nat.leb_le in Hmax. now rewrite Hmax.
  - intros this'.
    destruct (_ <=? _)%nat eqn:Emax; [discriminate|].
    apply Nat.leb_gt in Emax.
    destruct (upgrades (TowerObj.towerData this) !! TowerObj.level this)
      as [data|] eqn:Edata; [|discriminate].
    cbn [mbind option_bind].
    destruct (cost data) as [upgradeCost|] eqn:Ecost; [|discriminate].
    cbn [mbind option_bind].
    destruct (Tower.applyStats _ _ _) as [this2|] eqn:Happly; [|discriminate].
    cbn [mbind option_bind]. intros [= <-].
    destruct (applyStats_fields _ _ _ _ Happly)
      as (Hx & Hy & Hty & Hl & Htd & _ & Hinf & Hcost & Hbase).
    cbn [TowerObj.x TowerObj.y TowerObj.type TowerObj.level
         TowerObj.towerData TowerObj.infection TowerObj.totalCost
         TowerObj.set_level_cost] in Hx, Hy, Hty, Hl, Htd, Hinf, Hcost.
    split; [rewrite Hl; lia|].
    split; [rewrite Hl, Htd; lia|].
    split; [|auto].
    exists data, upgradeCost. split; [reflexivity|]. split; [exact Ecost|].
    split; [exact Hcost|].
    rewrite Hbase. unfold Tower.levelData.
    cbn [TowerObj.level TowerObj.towerData TowerObj.set_level_cost].
    replace (TowerObj.level this + 1 =? 0)%nat with false
      by (symmetry; apply Nat.eqb_neq; lia).
    replace (TowerObj.level this + 1 - 1)%nat with (TowerObj.level this)
      by lia.
    now rewrite Edata.
Qed.

Lemma upgrade_one_level_witness :
  Tower.upgrade 1 [] (Sample.tower_at Sample.upgraded 1)
  = Some (Sample.tower_at Sample.upgraded 1, false).
Proof.
  destruct (upgrade_one_level 1 [] (Sample.tower_at Sample.upgraded 1))
    as [Hmax _].
  apply Hmax. vm_compute. lia.
Defined.

Section InfectFacts.

Lemma random_index (random : Q) (n : nat) :
  0 <= random -> random < 1 -> (0 < n)%nat ->
  (0 <= Math_floor (random * inject_Z (Z.of_nat n)) < Z.of_nat n)%Z.
Proof.
  intros H0 H1 Hn. unfold Math_floor.
  assert (Hpos : 0 < inject_Z (Z.of_nat n)).
  { change 0 with (inject_Z 0). rewrite <- Zlt_Qlt. lia. }
  split.
  - change 0%Z with (Qfloor (inject_Z 0)).
    apply Qfloor_resp_le. change (inject_Z 0) with 0. nra.
  - rewrite Zlt_Qlt.
    apply Qle_lt_trans with (random * inject_Z (Z.of_nat n));
      [apply Qfloor_le | nra].
Qed.

(** With the infection mechanic configured, [applyStats] cannot fail. *)
Lemma applyStats_configured (self : nat) (ts : list (nat * TowerObj.t))
    (this : TowerObj.t) :
  is_Some (infection_mechanic
             (GameData.game_settings (TowerObj.gameData this))) ->
  is_Some (Tower.applyStats self ts this).
Proof.
  intros [mechanic Hm]. rewrite applyStats_unfold. cbv zeta.
  destruct (TowerObj.isInfected this) eqn:E.
  - unfold Tower.applyInfectionDebuff. unfold TowerObj.isInfected in E.
    destruct (TowerObj.infection this); [|discriminate].
    rewrite Hm. cbn [mbind option_bind]. eauto.
  - cbn [mbind option_bind]. eauto.
Qed.

End InfectFacts.

(** X15. With the infection mechanic configured and a draw in [0, 1),
    [infectRandomTower] always succeeds.  It does nothing when every tower
    of the array is infected already or is a sensor; otherwise it infects
    exactly one tower, which was healthy and is not a sensor, with a fresh
    record of zero clicks, counts one infection and leaves every other
    tower, the tower array and the money as they are. *)
Theorem infectRandomTower_picks_eligible (random : Q) (g : GameState.t) :
  0 <= random -> random < 1 ->
  (forall r this,
      r ∈ GameState.towers g -> GameState.towerObjs g !! r = Some this ->
      is_Some (infection_mechanic
                 (GameData.game_settings (TowerObj.gameData this)))) ->
  exists g',
    InfectionManager.infectRandomTower random g = Some g'
    /\ ((g' = g
         /\ forall r this,
              r ∈ GameState.towers g ->
              GameState.towerObjs g !! r = Some this ->
              TowerObj.isInfected this = true
              \/ TowerObj.type this = "support_sensor")
        \/ exists r this this' mechanic,
             r ∈ GameState.towers g
             /\ GameState.towerObjs g !! r = Some this
             /\ TowerObj.isInfected this = false
             /\ TowerObj.type this <> "support_sensor"
             /\ infection_mechanic
                  (GameData.game_settings (TowerObj.gameData this))
                = Some mechanic
             /\ TowerObj.infection this'
                = Some (TowerObj.mkInfection 0
                          (cure_clicks_required mechanic))
             /\ g' = GameState.set_gameStats
                       (GameState.set_infectionsTotal
                          (GameState.infectionsTotal (GameState.gameStats g)
                           + 1)%Z (GameState.gameStats g))
                       (GameState.set_towerObjs
                          (<[ r := this' ]> (GameState.towerObjs g)) g)).
Proof.
  intros H0 H1 Hmech. unfold InfectionManager.infectRandomTower.
  set (eligible := filter _ _).
  destruct eligible as [|first others] eqn:E.
  - exists g. split; [reflexivity|]. left. split; [reflexivity|].
    intros r this Hr Hlook.
    pose proof (filter_deref_nil _ _ _ r this E Hr Hlook) as Hno.
    cbn [snd] in Hno. apply andb_false_iff in Hno as [Hno|Hno].
    + left. now apply negb_false_iff in Hno.
    + right. apply negb_false_iff in Hno. now apply String.eqb_eq.
  - cbv zeta.
    destruct (random_index random (length (first :: others)) H0 H1)
      as [Hlo Hhi]; [simpl; lia|].
    set (index := Math_floor _) in *.
    assert (Hneg : (index <? 0)%Z = false) by (apply Z.ltb_ge; exact Hlo).
    rewrite Hneg.
    destruct (lookup_lt_is_Some_2 (first :: others) (Z.to_nat index))
      as [[r this] Hpick]; [lia|].
    rewrite Hpick. cbn [mbind option_bind fst snd].
    assert (Hin : (r, this) ∈ filter
              (fun tw : nat * TowerObj.t =>
                 negb (TowerObj.isInfected tw.2)
                 && negb (String.eqb (TowerObj.type tw.2) "support_sensor"))
              (deref (GameState.towerObjs g) (GameState.towers g))).
    { fold eligible. rewrite E. apply list_elem_of_lookup. eauto. }
    apply list_elem_of_filter in Hin as [Hp Hin].
    apply deref_elem in Hin as [Hr Hlook].
    apply Is_true_true in Hp. cbn [snd] in Hp.
    apply andb_true_iff in Hp as [Hhealthy Hsensor].
    apply negb_true_iff in Hhealthy. apply negb_true_iff in Hsensor.
    destruct (Hmech r this Hr Hlook) as [mechanic Hm].
    unfold Tower.infect. rewrite Hsensor, Hm. cbn [mbind option_bind].
    destruct (applyStats_configured r []
                (TowerObj.set_infection
                   (Some (TowerObj.mkInfection 0
                            (cure_clicks_required mechanic))) this))
      as [this' Happly].
    { cbn [TowerObj.gameData TowerObj.set_infection]. rewrite Hm. eauto. }
    rewrite Happly. cbn [mbind option_bind]. eexists.
    split; [reflexivity|]. right. exists r, this, this', mechanic.
    split; [exact Hr|]. split; [exact Hlook|]. split; [exact Hhealthy|].
    split; [now apply String.eqb_neq|]. split; [exact Hm|].
    split; [|reflexivity].
    destruct (applyStats_fields _ _ _ _ Happly) as (_&_&_&_&_&_&Hinf&_).
    exact Hinf.
Qed.

Lemma infectRandomTower_picks_eligible_witness :
  is_Some (InfectionManager.infectRandomTower (1 # 2) Sample.placed).
Proof.
  destruct (infectRandomTower_picks_eligible (1 # 2) Sample.placed)
    as (g' & Hrun & _).
  - vm_compute. discriminate.
  - vm_compute. reflexivity.
  - intros r this Hr Hlook.
    assert (Ht : GameState.towers Sample.placed = [0; 1]%nat)
      by (vm_compute; reflexivity).
    rewrite Ht in Hr.
    apply elem_of_cons in Hr as [->|Hr];
      [|apply elem_of_cons in Hr as [->|Hr];
        [|now apply elem_of_nil in Hr]];
      vm_compute in Hlook; injection Hlook as <-;
      vm_compute; eexists; reflexivity.
  - rewrite Hrun. eexists. reflexivity.
Defined.



(** ** Projectile: one update *)

Section ShotFacts.
Import ProjectileObj.

Lemma hit_fst (p : t) (g : GameState.t) :
  (Projectile.hit p g).1 = set_active false p.
Proof.
  unfold Projectile.hit. destruct (Projectile.liveTarget p g) as [[r e]|];
    reflexivity.
Qed.

Lemma updateTrail_length (p : t) :
  (length (trail p) <= maxTrailLength p)%nat ->
  (length (trail (Projectile.updateTrail p)) <= maxTrailLength p)%nat.
Proof.
  intros Hlen. unfold Projectile.updateTrail. cbv zeta. cbn [trail set_trail].
  destruct (_ <? _)%nat eqn:E.
  - destruct (trail p) as [|pt l]; simpl in *; [lia|].
    rewrite length_app. simpl. lia.
  - apply Nat.ltb_ge in E. exact E.
Qed.




End ShotFacts.

(** X17. An inactive projectile is not touched.  A projectile that is still
    active after its update has only aged and moved: the game state is as
    before, and its lifetime, which grew by the time step, is within its
    maximal lifetime; one that outlived it is deactivated without an
    effect.  The trail stays within its maximal length, and the damage, the
    firing tower, the target and the blast radius never change. *)
Theorem projectile_update_lifetime (deltaTime : Q) (p p' : ProjectileObj.t)
    (g g' : GameState.t) :
  Projectile.update deltaTime p g = Some (p', g') ->
  (ProjectileObj.active p = false -> p' = p /\ g' = g)
  /\ (ProjectileObj.active p' = true ->
      ProjectileObj.active p = true /\ g' = g
      /\ ProjectileObj.lifetime p' = ProjectileObj.lifetime p + deltaTime
      /\ ProjectileObj.lifetime p' <= ProjectileObj.maxLifetime p')
  /\ (ProjectileObj.active p = true ->
      ProjectileObj.maxLifetime p < ProjectileObj.lifetime p + deltaTime ->
      ProjectileObj.active p' = false /\ g' = g)
  /\ ((length (ProjectileObj.trail p) <= ProjectileObj.maxTrailLength p)%nat ->
      (length (ProjectileObj.trail p') <= ProjectileObj.maxTrailLength p')%nat)
  /\ ProjectileObj.damage p' = ProjectileObj.damage p
  /\ ProjectileObj.towerId p' = ProjectileObj.towerId p
  /\ ProjectileObj.target p' = ProjectileObj.target p
  /\ ProjectileObj.aoeRadius p' = ProjectileObj.aoeRadius p
  /\ ProjectileObj.maxLifetime p' = ProjectileObj.maxLifetime p.
Proof.
  unfold Projectile.update.
  destruct (ProjectileObj.active p) eqn:Eact; cbn [negb].
  2:{ intros [= <- <-]. split; [auto|]. split; [congruence|].
      split; [discriminate|]. repeat split; auto. }
  cbv zeta. cbn [ProjectileObj.maxLifetime ProjectileObj.lifetime
                 ProjectileObj.set_lifetime].
  destruct (Qlt_bool (ProjectileObj.maxLifetime p)
              (ProjectileObj.lifetime p + deltaTime)) eqn:Eold.
  { intros [= <- <-]. split; [discriminate|]. split; [discriminate|].
    split; [auto|]. repeat split; auto. }
  apply Qlt_bool_false in Eold.
  set (p2 := Projectile.updateTrail
               (ProjectileObj.set_lifetime
                  (ProjectileObj.lifetime p + deltaTime) p)).
  assert (Htrail : (length (ProjectileObj.trail p)
                    <= ProjectileObj.maxTrailLength p)%nat ->
                   (length (ProjectileObj.trail p2)
                    <= ProjectileObj.maxTrailLength p)%nat).
  { intros Hlen.
    apply (updateTrail_length
             (ProjectileObj.set_lifetime
                (ProjectileObj.lifetime p + deltaTime) p)).
    exact Hlen. }
  assert (Hcases :
    (p' = ProjectileObj.set_active false p2)
    \/ (g' = g
        /\ exists dx dy distance,
             p' = Projectile.moveTowards deltaTime dx dy distance p2) ->
    (true = false -> p' = p /\ g' = g)
    /\ (ProjectileObj.active p' = true ->
        true = true /\ g' = g
        /\ ProjectileObj.lifetime p' = ProjectileObj.lifetime p + deltaTime
        /\ ProjectileObj.lifetime p' <= ProjectileObj.maxLifetime p')
    /\ (true = true ->
        ProjectileObj.maxLifetime p < ProjectileObj.lifetime p + deltaTime ->
        ProjectileObj.active p' = false /\ g' = g)
    /\ ((length (ProjectileObj.trail p)
         <= ProjectileObj.maxTrailLength p)%nat ->
        (length (ProjectileObj.trail p')
         <= ProjectileObj.maxTrailLength p')%nat)
    /\ ProjectileObj.damage p' = ProjectileObj.damage p
    /\ ProjectileObj.towerId p' = ProjectileObj.towerId p
    /\ ProjectileObj.target p' = ProjectileObj.target p
    /\ ProjectileObj.aoeRadius p' = ProjectileObj.aoeRadius p
    /\ ProjectileObj.maxLifetime p' = ProjectileObj.maxLifetime p).
  { intros [-> | (-> & dx & dy & distance & ->)].
    - split; [discriminate|]. split; [discriminate|].
      split; [intros _ Hlt; lra|]. split; [exact Htrail|].
      repeat split.
    - split; [discriminate|].
      split; [intros _; repeat split; exact Eold|].
      split; [intros _ Hlt; lra|]. split; [exact Htrail|].
      repeat split. }
  destruct (Qlt_bool 0 (ProjectileObj.aoeRadius p2)).
  - unfold Projectile.updateAOE.
    destruct (ProjectileObj.targetPos p2) as [pos|]; [|discriminate].
    cbn [mbind option_bind]. cbv zeta.
    destruct (Qlt_bool _ 10).
    + unfold Projectile.explode. cbv zeta. intros [= <- <-].
      apply Hcases. left. reflexivity.
    + intros [= <- <-]. apply Hcases. right. split; [reflexivity|]. eauto.
  - unfold Projectile.updateSingleTarget.
    destruct (Projectile.liveTarget p2 g) as [[r e]|] eqn:Elive.
    + cbv zeta. destruct (Qlt_bool _ 10).
      * pose proof (hit_fst p2 g) as Hfst.
        destruct (Projectile.hit p2 g) as [ph gh]. cbn [fst] in Hfst.
        intros [= <- <-]. apply Hcases. left. exact Hfst.
      * intros [= <- <-]. apply Hcases. right. split; [reflexivity|]. eauto.
    + intros [= <- <-]. apply Hcases. left. reflexivity.
Qed.

Lemma projectile_update_lifetime_witness :
  let res := default (Play.shot, Play.fight)
               (Projectile.update (1 # 10) Play.shot Play.fight) in
  (length (ProjectileObj.trail res.1)
   <= ProjectileObj.maxTrailLength res.1)%nat.
Proof.
  intros res.
  destruct (projectile_update_lifetime (1 # 10) Play.shot res.1
              Play.fight res.2) as (_ & _ & _ & Htrail & _).
  - vm_compute. reflexivity.
  - apply Htrail. vm_compute. lia.
Defined.



Section BlastStatistics.
Import ProjectileObj.


End BlastStatistics.


(** ** WaveManager: the queue and the spawns *)

Section QueueFacts.
Import WaveManager.

Lemma buildQueue_concat (gd : GameData.t) (groups : list Group) :
  buildQueue gd groups = concat (map (groupEntries gd) groups).
Proof.
  unfold buildQueue.
  assert (H : forall acc,
             foldl
               (fun queue group =>
                  match List.find
                          (fun e => String.eqb (ed_id e) (enemy_id group))
                          (GameData.enemies gd) with
                  | None => queue
                  | Some data => queue ++ groupSpawns data group
                  end) acc groups
             = acc ++ concat (map (groupEntries gd) groups)).
  { induction groups as [|group groups IH]; intros acc.
    - simpl. now rewrite app_nil_r.
    - cbn [foldl map concat]. rewrite IH. unfold groupEntries at 2.
      destruct (List.find _ _); [now rewrite app_assoc | reflexivity]. }
  apply (H []).
Qed.

Lemma groupEntries_length (gd : GameData.t) (group : Group) :
  length (groupEntries gd group) = knownCount gd group.
Proof.
  unfold groupEntries, knownCount. destruct (List.find _ _); [|reflexivity].
  unfold groupSpawns. now rewrite length_map, length_seq.
Qed.

Lemma groupEntries_known (gd : GameData.t) (group : Group) (s : Spawn) :
  s ∈ groupEntries gd group ->
  enemyData s ∈ GameData.enemies gd
  /\ ed_id (enemyData s) = enemy_id group.
Proof.
  unfold groupEntries.
  destruct (List.find _ _) as [data|] eqn:E;
    [|intros H; now apply elem_of_nil in H].
  apply List.find_some in E as [Hin Hid].
  unfold groupSpawns. intros Hs.
  apply list_elem_of_fmap in Hs as (i & -> & _). cbn [enemyData].
  split; [now apply list_elem_of_In | now apply String.eqb_eq].
Qed.

Lemma spawnDue_refs (p : list Point) (timer : Q) (queue : list Spawn) :
  forall (g : GameState.t) (rest : list Spawn) (g' : GameState.t),
    spawnDue p timer queue g = Some (rest, g') ->
    exists k,
      rest = drop k queue
      /\ (k <= length queue)%nat
      /\ GameState.enemies g'
         = GameState.enemies g ++ seq (GameState.nextRef g) k
      /\ GameState.nextRef g' = (GameState.nextRef g + k)%nat
      /\ (forall r, (r < GameState.nextRef g)%nat ->
            GameState.enemyObjs g' !! r = GameState.enemyObjs g !! r)
      /\ (forall i s, (i < k)%nat -> queue !! i = Some s ->
            GameState.enemyObjs g' !! (GameState.nextRef g + i)%nat
            = Enemy.new_ p (enemyData s))
      /\ Forall (fun s => spawnTime s <= timer) (take k queue)
      /\ GameState.money g' = GameState.money g
      /\ GameState.lives g' = GameState.lives g
      /\ GameState.towers g' = GameState.towers g
      /\ GameState.towerObjs g' = GameState.towerObjs g.
Proof.
  induction queue as [|s queue IH]; intros g rest g'; cbn [spawnDue].
  - intros [= <- <-]. exists 0%nat. cbn [seq drop take].
    rewrite app_nil_r, Nat.add_0_r.
    repeat split; auto; try (intros; lia); try (simpl; lia).
  - destruct (Qle_bool (spawnTime s) timer) eqn:Edue.
    + apply Qle_bool_iff in Edue.
      destruct (spawn p (enemyData s) g) as [g1|] eqn:Espawn;
        [|discriminate].
      cbn [mbind option_bind]. intros Hrest.
      destruct (IH g1 rest g' Hrest)
        as (k & Hk & Hlen & He & Hn & Hold & Hnew & Hdue & Hm & Hl & Ht & Ho).
      unfold spawn in Espawn.
      destruct (Enemy.new_ p (enemyData s)) as [e|] eqn:Enew; [|discriminate].
      cbn [mbind option_bind] in Espawn. injection Espawn as <-.
      cbn [GameState.nextRef GameState.set_nextRef GameState.enemies
           GameState.set_enemies GameState.enemyObjs GameState.set_enemyObjs
           GameState.money GameState.lives GameState.towers
           GameState.towerObjs] in *.
      exists (S k). cbn [drop take seq length].
      split; [exact Hk|]. split; [lia|].
      split; [rewrite He, <- app_assoc; reflexivity|].
      split; [lia|].
      split.
      { intros r Hr. rewrite Hold by lia. apply lookup_insert_ne. lia. }
      split.
      { intros [|i] s' Hi Hs'.
        - cbn in Hs'. injection Hs' as <-. rewrite Nat.add_0_r.
          rewrite Hold by lia. rewrite lookup_insert_eq. now rewrite Enew.
        - cbn in Hs'. rewrite <- Nat.add_succ_comm.
          apply Hnew; [lia | exact Hs']. }
      split; [constructor; assumption|].
      repeat split; assumption.
    + intros [= <- <-]. exists 0%nat. cbn [seq drop take].
      rewrite app_nil_r, Nat.add_0_r.
      repeat split; auto; try (intros; lia); try (simpl; lia).
Qed.

End QueueFacts.

(** X20. [startWave] rejects a wave number below 1 or beyond the configured
    waves and then leaves the manager as it is.  For a configured wave it
    resets the spawn timer and queues, for every composition group whose
    enemy is configured, as many entries as the group counts; a group with
    an unknown enemy is skipped, and every entry carries a configured enemy
    named by a group of the wave. *)
Theorem startWave_queue (waveNumber : Z) (gd : GameData.t)
    (w : WaveManager.t) :
  ((waveNumber < 1)%Z
   \/ (Z.of_nat (length (GameData.waves gd)) < waveNumber)%Z ->
   WaveManager.startWave waveNumber gd w = (w, false))
  /\ (forall waveData,
         (1 <= waveNumber)%Z ->
         GameData.waves gd !! Z.to_nat (waveNumber - 1) = Some waveData ->
         exists w',
           WaveManager.startWave waveNumber gd w = (w', true)
           /\ WaveManager.spawnTimer w' = 0
           /\ WaveManager.spawnQueue w'
              = concat (map (groupEntries gd) (composition waveData))
           /\ length (WaveManager.spawnQueue w')
              = sum_list (map (knownCount gd) (composition waveData))
           /\ Forall
                (fun s =>
                   WaveManager.enemyData s ∈ GameData.enemies gd
                   /\ exists group,
                        group ∈ composition waveData
                        /\ ed_id (WaveManager.enemyData s) = enemy_id group)
                (WaveManager.spawnQueue w')).
Proof.
  unfold WaveManager.startWave. split.
  - intros [Hlow | Hhigh].
    + replace (waveNumber - 1 <? 0)%Z with true
        by (symmetry; apply Z.ltb_lt; lia).
      reflexivity.
    + destruct (waveNumber - 1 <? 0)%Z; [reflexivity|].
      rewrite lookup_ge_None_2 by lia. reflexivity.
  - intros waveData Hlow Hlook.
    replace (waveNumber - 1 <? 0)%Z with false
      by (symmetry; apply Z.ltb_ge; lia).
    rewrite Hlook. eexists. split; [reflexivity|].
    cbn [WaveManager.spawnTimer WaveManager.spawnQueue].
    split; [reflexivity|]. rewrite buildQueue_concat.
    split; [reflexivity|]. split.
    + induction (composition waveData) as [|group groups IH];
        [reflexivity|].
      cbn [map concat sum_list sum_list_with].
      rewrite length_app, groupEntries_length, IH. reflexivity.
    + apply List.Forall_forall. intros s Hs.
      apply in_concat in Hs as (entries & Hentries & Hs).
      apply in_map_iff in Hentries as (group & <- & Hgroup).
      apply (proj2 (list_elem_of_In _ _)) in Hs.
      apply (proj2 (list_elem_of_In _ _)) in Hgroup.
      destruct (groupEntries_known gd group s Hs) as [Hdata Hid].
      split; [exact Hdata|]. exists group. split; assumption.
Qed.

Lemma startWave_queue_witness :
  exists w',
    WaveManager.startWave 1 Sample.gameData (WaveManager.mk [] 0) = (w', true)
    /\ length (WaveManager.spawnQueue w') = 4%nat.
Proof.
  destruct (startWave_queue 1 Sample.gameData (WaveManager.mk [] 0))
    as [_ H].
  destruct (H (mkWave [ mkGroup "pest" 2 1000; mkGroup "pest_fast" 2 500 ]))
    as (w' & Hrun & _ & _ & Hlen & _).
  - lia.
  - reflexivity.
  - exists w'. split; [exact Hrun|]. rewrite Hlen. vm_compute. reflexivity.
Defined.

(** X21. With an empty queue [update] does nothing at all: the spawn clock
    stands still.  Otherwise the clock advances by the time step and the
    entries taken from the front of the queue, all of them due, become the
    newest enemies of the enemy array, in queue order and under fresh
    references, each built from the configuration of its entry; the enemies
    already there, the money, the lives and the towers are not touched. *)
Theorem wave_update_spawns (p : list Point) (deltaTime : Q)
    (w : WaveManager.t) (g : GameState.t) :
  p <> [] ->
  exists k w' g',
    WaveManager.update p deltaTime w g = Some (w', g')
    /\ WaveManager.spawnQueue w' = drop k (WaveManager.spawnQueue w)
    /\ (k <= length (WaveManager.spawnQueue w))%nat
    /\ GameState.enemies g'
       = GameState.enemies g ++ seq (GameState.nextRef g) k
    /\ GameState.nextRef g' = (GameState.nextRef g + k)%nat
    /\ (forall r, (r < GameState.nextRef g)%nat ->
          GameState.enemyObjs g' !! r = GameState.enemyObjs g !! r)
    /\ (forall i s, (i < k)%nat -> WaveManager.spawnQueue w !! i = Some s ->
          GameState.enemyObjs g' !! (GameState.nextRef g + i)%nat
          = Enemy.new_ p (WaveManager.enemyData s))
    /\ Forall (fun s => WaveManager.spawnTime s
                        <= WaveManager.spawnTimer w + deltaTime)
         (take k (WaveManager.spawnQueue w))
    /\ (WaveManager.spawnQueue w = [] -> w' = w /\ g' = g)
    /\ (WaveManager.spawnQueue w <> [] ->
        WaveManager.spawnTimer w' = WaveManager.spawnTimer w + deltaTime)
    /\ GameState.money g' = GameState.money g
    /\ GameState.lives g' = GameState.lives g
    /\ GameState.towers g' = GameState.towers g.
Proof.
  intros Hp. unfold WaveManager.update.
  destruct (WaveManager.spawnQueue w) as [|s queue] eqn:Equeue.
  - exists 0%nat, w, g. cbn [drop take seq length].
    rewrite app_nil_r, Nat.add_0_r.
    repeat split; auto; try (intros; lia); try congruence.
  - cbv zeta.
    destruct (spawnDue_prefix p (WaveManager.spawnTimer w + deltaTime)
                (s :: queue) Hp g) as (due & rest & g' & Hrun & _).
    rewrite Hrun. cbn [mbind option_bind].
    destruct (spawnDue_refs p _ _ g rest g' Hrun)
      as (k & Hk & Hlen & He & Hn & Hold & Hnew & Hdue & Hm & Hl & Ht & _).
    exists k. eexists. exists g'. split; [reflexivity|].
    cbn [WaveManager.spawnQueue WaveManager.spawnTimer].
    split; [exact Hk|]. split; [exact Hlen|]. split; [exact He|].
    split; [exact Hn|]. split; [exact Hold|]. split; [exact Hnew|].
    split; [exact Hdue|]. split; [discriminate|].
    split; [reflexivity|]. auto.
Qed.

Lemma wave_update_spawns_witness :
  exists w' g',
    WaveManager.update path (1 # 10) Sample.wave1 Sample.initial
    = Some (w', g')
    /\ GameState.money g' = GameState.money Sample.initial.
Proof.
  destruct (wave_update_spawns path (1 # 10) Sample.wave1 Sample.initial)
    as (k & w' & g' & Hrun & H).
  - vm_compute. discriminate.
  - exists w', g'. split; [exact Hrun|].
    destruct H as (_ & _ & _ & _ & _ & _ & _ & _ & _ & Hm & _). exact Hm.
Defined.

(** ** GameManager: the loop *)

(** X22. Whatever the two timestamps are, the time step that a frame works
    with is positive and at most a tenth of a second: [gameLoop] caps it and
    [update] replaces a step that is zero or negative by 16 ms.  Between two
    frames that are up to 100 ms apart it is the elapsed time in seconds. *)
Theorem frame_step_bounds (timestamp lastTime : Q) :
  let deltaTime :=
    GameManager.validDelta
      (Math_min ((timestamp - lastTime) / 1000) (1 # 10)) in
  0 < deltaTime
  /\ deltaTime <= 1 # 10
  /\ (timestamp <= lastTime -> deltaTime = 16 # 1000)
  /\ (lastTime < timestamp -> timestamp - lastTime <= 100 ->
      deltaTime = (timestamp - lastTime) / 1000)
  /\ (100 < timestamp - lastTime -> deltaTime = 1 # 10).
Proof.
  cbv zeta. unfold GameManager.validDelta, Math_min.
  set (d := (timestamp - lastTime) / 1000).
  assert (Hd : d == (timestamp - lastTime) * (1 # 1000))
    by (unfold d; field).
  destruct (Qle_bool d (1 # 10)) eqn:Ecap.
  - apply Qle_bool_iff in Ecap.
    destruct (Qeq_bool d 0) eqn:Ezero.
    + apply Qeq_bool_iff in Ezero. cbn [orb].
      split; [reflexivity|]. split; [discriminate|].
      split; [reflexivity|].
      split; [intros Hlt _; lra | intros Hlt; lra].
    + cbn [orb]. destruct (Qle_bool d 0) eqn:Eneg.
      * apply Qle_bool_iff in Eneg.
        split; [reflexivity|]. split; [discriminate|].
        split; [reflexivity|].
        split; [intros Hlt _; lra | intros Hlt; lra].
      * apply Qle_bool_false in Eneg.
        split; [exact Eneg|]. split; [exact Ecap|].
        split; [intros Hle; lra|].
        split; [reflexivity | intros Hlt; lra].
  - apply Qle_bool_false in Ecap.
    assert (Ezero : Qeq_bool (1 # 10) 0 = false) by reflexivity.
    assert (Eneg : Qle_bool (1 # 10) 0 = false) by reflexivity.
    rewrite Ezero, Eneg. cbn [orb].
    split; [reflexivity|]. split; [discriminate|].
    split; [intros Hle; lra|].
    split; [intros _ Hle; lra | reflexivity].
Qed.

Lemma frame_step_bounds_witness :
  GameManager.validDelta (Math_min ((1050 - 1000) / 1000) (1 # 10))
  = (1050 - 1000) / 1000.
Proof.
  destruct (frame_step_bounds 1050 1000) as (_ & _ & _ & H & _).
  apply H; vm_compute; [reflexivity | discriminate].
Defined.

(** X23. A paused game is frozen: a frame only records its timestamp and
    asks for the next frame.  Pausing is possible while playing only, and
    toggling twice restores the manager.  In the menu, when paused by state,
    after a defeat and after a victory [update] changes nothing, and after
    a defeat or a victory the loop asks for no further frame. *)
Theorem paused_game_is_frozen (p : list Point) (timestamp random : Q)
    (m : GameManager.t) :
  (GameManager.isPaused m = true ->
   exists m',
     GameManager.gameLoop p timestamp random m = Some m'
     /\ GameManager.gameState m' = GameManager.gameState m
     /\ GameManager.waveManager m' = GameManager.waveManager m
     /\ GameManager.infectionManager m' = GameManager.infectionManager m
     /\ GameManager.currentState m' = GameManager.currentState m
     /\ GameManager.timers m' = GameManager.timers m
     /\ GameManager.isPaused m' = true
     /\ GameManager.lastTime m' = timestamp)
  /\ (GameManager.currentState m <> GameManager.PLAYING ->
      GameManager.togglePause m = m)
  /\ (GameManager.currentState m = GameManager.PLAYING ->
      GameManager.isPaused (GameManager.togglePause m)
      = negb (GameManager.isPaused m)
      /\ GameManager.togglePause (GameManager.togglePause m) = m)
  /\ (GameManager.currentState m <> GameManager.PLAYING ->
      GameManager.currentState m <> GameManager.WAVE_BREAK ->
      forall deltaTime, GameManager.update p deltaTime random m = Some m)
  /\ (forall m',
         GameManager.gameLoop p timestamp random m = Some m' ->
         (GameManager.animationFrameId m' = false
          <-> GameManager.currentState m' = GameManager.GAME_OVER
              \/ GameManager.currentState m' = GameManager.VICTORY)).
Proof.
  split; [|split; [|split; [|split]]].
  - intros Hp. unfold GameManager.gameLoop. cbv zeta.
    cbn [GameManager.isPaused GameManager.set_lastTime]. rewrite Hp.
    cbn [mbind option_bind]. eexists. split; [reflexivity|].
    repeat split. exact Hp.
  - intros Hs. unfold GameManager.togglePause.
    destruct (GameManager.currentState m); congruence.
  - intros Hs. destruct m as [g w i c l a b t]. cbn in Hs. subst c.
    unfold GameManager.togglePause. cbn. rewrite negb_involutive.
    split; reflexivity.
  - intros Hplay Hbreak deltaTime. unfold GameManager.update. cbv zeta.
    destruct (GameManager.currentState m); congruence.
  - intros m'. unfold GameManager.gameLoop. cbv zeta.
    destruct (if GameManager.isPaused _ then _ else _) as [m2|];
      [|discriminate].
    cbn [mbind option_bind]. intros [= <-].
    cbn [GameManager.animationFrameId GameManager.currentState
         GameManager.set_animationFrameId].
    destruct (GameManager.currentState m2); split;
      intros H; try discriminate; auto; destruct H; discriminate.
Qed.

Lemma paused_game_is_frozen_witness :
  let m :=
    GameManager.set_isPaused true
      (GameManager.set_currentState GameManager.PLAYING
         (GameManager.initialize Sample.gameData)) in
  exists m',
    GameManager.gameLoop path 1000 (1 # 2) m = Some m'
    /\ GameManager.gameState m' = GameManager.gameState m.
Proof.
  intros m.
  destruct (paused_game_is_frozen path 1000 (1 # 2) m) as [H _].
  destruct H as (m' & Hrun & Hsame & _); [reflexivity|].
  exists m'. split; assumption.
Defined.

Lemma startWave_concat (waveNumber : Z) (gd : GameData.t)
    (w : WaveManager.t) (waveData : Wave) :
  (1 <= waveNumber)%Z ->
  GameData.waves gd !! Z.to_nat (waveNumber - 1) = Some waveData ->
  exists w',
    WaveManager.startWave waveNumber gd w = (w', true)
    /\ WaveManager.spawnTimer w' = 0
    /\ WaveManager.spawnQueue w'
       = concat (map (groupEntries gd) (composition waveData)).
Proof.
  intros Hlow Hlook. unfold WaveManager.startWave.
  replace (waveNumber - 1 <? 0)%Z with false
    by (symmetry; apply Z.ltb_ge; lia).
  rewrite Hlook. eexists. split; [reflexivity|].
  split; [reflexivity|]. apply buildQueue_concat.
Qed.

(** X24. [startNextWave] acts during a wave break only.  It first counts the
    wave up; beyond the last configured wave that is the victory, which
    also stops the infections.  Otherwise the state becomes PLAYING with
    the wave in progress, and the wave manager holds the queue of the new
    wave with its clock at zero. *)
Theorem startNextWave_from_break (m : GameManager.t) :
  let g := GameManager.gameState m in
  let next := (GameState.currentWave g + 1)%Z in
  let waves := GameData.waves (GameState.gameData g) in
  (GameManager.currentState m <> GameManager.WAVE_BREAK ->
   GameManager.startNextWave m = m)
  /\ (GameManager.currentState m = GameManager.WAVE_BREAK ->
      let m' := GameManager.startNextWave m in
      GameState.currentWave (GameManager.gameState m') = next
      /\ ((Z.of_nat (length waves) < next)%Z ->
          GameManager.currentState m' = GameManager.VICTORY
          /\ InfectionManager.enabled (GameManager.infectionManager m')
             = false
          /\ GameManager.waveManager m' = GameManager.waveManager m
          /\ GameState.waveInProgress (GameManager.gameState m')
             = GameState.waveInProgress g)
      /\ (forall waveData,
             (1 <= next)%Z ->
             waves !! Z.to_nat (next - 1) = Some waveData ->
             GameManager.currentState m' = GameManager.PLAYING
             /\ GameState.waveInProgress (GameManager.gameState m') = true
             /\ WaveManager.spawnTimer (GameManager.waveManager m') = 0
             /\ WaveManager.spawnQueue (GameManager.waveManager m')
                = concat (map (groupEntries (GameState.gameData g))
                            (composition waveData))
             /\ GameManager.infectionManager m'
                = GameManager.infectionManager m)
      /\ GameState.money (GameManager.gameState m') = GameState.money g
      /\ GameState.lives (GameManager.gameState m') = GameState.lives g
      /\ GameState.towers (GameManager.gameState m') = GameState.towers g
      /\ GameState.enemies (GameManager.gameState m') = GameState.enemies g).
Proof.
  cbv zeta. split.
  - intros Hs. unfold GameManager.startNextWave.
    destruct (GameManager.currentState m); congruence.
  - intros Hs. unfold GameManager.startNextWave. rewrite Hs. cbv zeta.
    cbn [GameManager.gameState GameManager.set_gameState
         GameState.currentWave GameManager.set_currentWave
         GameState.gameData].
    destruct (Z.of_nat _ <? _)%Z eqn:Elast.
    + apply Z.ltb_lt in Elast.
      split; [reflexivity|]. split; [intros _; repeat split|].
      split; [|repeat split].
      intros waveData Hlow Hlook. apply lookup_lt_Some in Hlook. lia.
    + apply Z.ltb_ge in Elast.
      destruct (WaveManager.startWave _ _ _) as [w started] eqn:Estart.
      destruct started.
      * split; [reflexivity|]. split; [intros Hlt; lia|].
        split; [|repeat split].
        intros waveData Hlow Hlook.
        destruct (startWave_concat _ _
                    (GameManager.waveManager m) waveData Hlow Hlook)
          as (w' & Hrun & Htimer & Hqueue).
        cbn [GameManager.waveManager GameManager.set_currentState
             GameManager.set_gameState] in Estart.
        rewrite Hrun in Estart. injection Estart as <-.
        repeat split; assumption.
      * split; [reflexivity|]. split; [intros Hlt; lia|].
        split; [|repeat split].
        intros waveData Hlow Hlook.
        destruct (startWave_concat _ _
                    (GameManager.waveManager m) waveData Hlow Hlook)
          as (w' & Hrun & _).
        cbn [GameManager.waveManager GameManager.set_currentState
             GameManager.set_gameState] in Estart.
        rewrite Hrun in Estart. discriminate.
Qed.

Lemma startNextWave_from_break_witness :
  let m :=
    GameManager.set_currentState GameManager.WAVE_BREAK
      (GameManager.initialize Sample.gameData) in
  GameManager.currentState (GameManager.startNextWave m)
  = GameManager.PLAYING.
Proof.
  intros m.
  destruct (startNextWave_from_break m) as [_ H].
  destruct (H eq_refl) as (_ & _ & Hplay & _).
  destruct (Hplay (mkWave [ mkGroup "pest" 2 1000; mkGroup "pest_fast" 2 500 ]))
    as (Hstate & _).
  - vm_compute. discriminate.
  - reflexivity.
  - exact Hstate.
Defined.

(** ** GameManager: enemies and projectiles of one tick *)

Section SweepFacts.

(** What one iteration of the loop of [updateEnemies] does. *)
Lemma updateEnemy_step (p : list Point) (deltaTime : Q) (m : GameManager.t)
    (acc : list nat) (r : nat) (e : Enemy.t) :
  GameState.enemyObjs (GameManager.gameState m) !! r = Some e ->
  let res := GameManager.updateEnemy p deltaTime (m, acc) r in
  let enemy := Enemy.update p deltaTime e in
  GameState.enemyObjs (GameManager.gameState res.1)
  = <[ r := enemy ]> (GameState.enemyObjs (GameManager.gameState m))
  /\ GameState.enemies (GameManager.gameState res.1)
     = GameState.enemies (GameManager.gameState m)
  /\ GameState.towers (GameManager.gameState res.1)
     = GameState.towers (GameManager.gameState m)
  /\ GameState.towerObjs (GameManager.gameState res.1)
     = GameState.towerObjs (GameManager.gameState m)
  /\ GameState.projectiles (GameManager.gameState res.1)
     = GameState.projectiles (GameManager.gameState m)
  /\ GameState.waveInProgress (GameManager.gameState res.1)
     = GameState.waveInProgress (GameManager.gameState m)
  /\ GameState.currentWave (GameManager.gameState res.1)
     = GameState.currentWave (GameManager.gameState m)
  /\ GameState.gameData (GameManager.gameState res.1)
     = GameState.gameData (GameManager.gameState m)
  /\ GameManager.waveManager res.1 = GameManager.waveManager m
  /\ res.2
     = (if Enemy.reachedEnd enemy || negb (Enemy.isAlive enemy)
        then acc ++ [r] else acc).
Proof.
  intros Hlook. cbv zeta. unfold GameManager.updateEnemy. rewrite Hlook.
  cbv zeta. destruct (Enemy.reachedEnd (Enemy.update p deltaTime e)).
  - unfold GameState.takeDamage. cbv zeta.
    destruct (Qle_bool _ 0); cbn; repeat split.
  - cbn [orb]. destruct (Enemy.isAlive (Enemy.update p deltaTime e));
      cbn; repeat split.
Qed.

Lemma updateEnemy_loop (p : list Point) (deltaTime : Q) (rs : list nat) :
  forall (m : GameManager.t) (acc : list nat),
    NoDup rs ->
    (forall r, r ∈ rs ->
       is_Some (GameState.enemyObjs (GameManager.gameState m) !! r)) ->
    let res := foldl (GameManager.updateEnemy p deltaTime) (m, acc) rs in
    GameState.enemies (GameManager.gameState res.1)
    = GameState.enemies (GameManager.gameState m)
    /\ GameState.towers (GameManager.gameState res.1)
       = GameState.towers (GameManager.gameState m)
    /\ GameState.towerObjs (GameManager.gameState res.1)
       = GameState.towerObjs (GameManager.gameState m)
    /\ GameState.projectiles (GameManager.gameState res.1)
       = GameState.projectiles (GameManager.gameState m)
    /\ GameState.waveInProgress (GameManager.gameState res.1)
       = GameState.waveInProgress (GameManager.gameState m)
    /\ GameState.currentWave (GameManager.gameState res.1)
       = GameState.currentWave (GameManager.gameState m)
    /\ GameState.gameData (GameManager.gameState res.1)
       = GameState.gameData (GameManager.gameState m)
    /\ GameManager.waveManager res.1 = GameManager.waveManager m
    /\ (forall r, r ∉ rs ->
          GameState.enemyObjs (GameManager.gameState res.1) !! r
          = GameState.enemyObjs (GameManager.gameState m) !! r)
    /\ (forall r e, r ∈ rs ->
          GameState.enemyObjs (GameManager.gameState m) !! r = Some e ->
          GameState.enemyObjs (GameManager.gameState res.1) !! r
          = Some (Enemy.update p deltaTime e))
    /\ (forall r, r ∈ res.2 <->
          r ∈ acc
          \/ (r ∈ rs
              /\ exists e,
                   GameState.enemyObjs (GameManager.gameState m) !! r
                   = Some e
                   /\ (Enemy.reachedEnd (Enemy.update p deltaTime e)
                       || negb (Enemy.isAlive (Enemy.update p deltaTime e)))
                      = true)).
Proof.
  induction rs as [|r0 rs IH]; intros m acc Hnd Hobj; cbv zeta.
  - cbn [foldl fst snd]. repeat split; auto.
    + intros r e Hr. now apply elem_of_nil in Hr.
    + intros [H | [H _]]; [exact H | now apply elem_of_nil in H].
  - cbn [foldl]. apply list.NoDup_cons in Hnd as [Hfresh Hnd].
    destruct (Hobj r0) as [e0 Hlook0]; [left|].
    destruct (updateEnemy_step p deltaTime m acc r0 e0 Hlook0)
      as (Ho & He & Ht & Hto & Hpr & Hw & Hc & Hgd & Hwm & Hacc).
    cbv zeta in Ho, He, Ht, Hto, Hpr, Hw, Hc, Hgd, Hwm, Hacc.
    destruct (GameManager.updateEnemy p deltaTime (m, acc) r0)
      as [m1 acc1].
    cbn [fst snd] in Ho, He, Ht, Hto, Hpr, Hw, Hc, Hgd, Hwm, Hacc.
    destruct (IH m1 acc1 Hnd) as
      (He' & Ht' & Hto' & Hpr' & Hw' & Hc' & Hgd' & Hwm' & Hout & Hin & Hrem).
    { intros r Hr. rewrite Ho.
      destruct (decide (r = r0)) as [->|Hne];
        [rewrite lookup_insert_eq; eauto|].
      rewrite lookup_insert_ne by congruence. apply Hobj. now right. }
    cbv zeta in He', Ht', Hto', Hpr', Hw', Hc', Hgd', Hwm', Hout, Hin, Hrem.
    split; [congruence|]. split; [congruence|]. split; [congruence|].
    split; [congruence|]. split; [congruence|]. split; [congruence|].
    split; [congruence|]. split; [congruence|].
    split.
    { intros r Hr. apply not_elem_of_cons in Hr as [Hne Hr].
      rewrite (Hout r Hr), Ho. now apply lookup_insert_ne. }
    split.
    { intros r e Hr Hlook. apply elem_of_cons in Hr as [->|Hr].
      - rewrite (Hout r0 Hfresh), Ho, lookup_insert_eq. congruence.
      - apply Hin; [exact Hr|]. rewrite Ho.
        rewrite lookup_insert_ne; [exact Hlook|].
        intros <-. contradiction. }
    intros r. rewrite Hrem, Hacc. split.
    + intros [Hr | (Hr & e & Hlook & Hgone)].
      * destruct (_ || _) eqn:Egone; [|now left].
        apply elem_of_app in Hr as [Hr|Hr]; [now left|].
        apply list_elem_of_singleton in Hr as ->. right.
        split; [left|]. eauto.
      * right. split; [now right|]. exists e. split; [|exact Hgone].
        rewrite Ho in Hlook. rewrite lookup_insert_ne in Hlook;
          [exact Hlook|]. intros <-. contradiction.
    + intros [Hr | (Hr & e & Hlook & Hgone)].
      * left. destruct (_ || _); [apply elem_of_app; now left | exact Hr].
      * apply elem_of_cons in Hr as [->|Hr].
        -- left. rewrite Hlook0 in Hlook. injection Hlook as <-.
           rewrite Hgone. apply elem_of_app. right.
           now apply list_elem_of_singleton.
        -- right. split; [exact Hr|]. exists e. split; [|exact Hgone].
           rewrite Ho. rewrite lookup_insert_ne; [exact Hlook|].
           intros <-. contradiction.
Qed.

Lemma List_filter_sublist {A} (f : A -> bool) (l : list A) :
  sublist (List.filter f l) l.
Proof.
  induction l as [|a l IH]; [constructor|].
  cbn [List.filter]. destruct (f a).
  - apply sublist_skip. exact IH.
  - apply sublist_cons. exact IH.
Qed.

End SweepFacts.

(** X25. After [updateEnemies] the enemy array holds, in their old order,
    exactly the enemies that after their own update are alive and have not
    reached the end of the path; every enemy of the array has been updated
    once, and the towers, the projectiles and the wave manager are as
    before. *)
Theorem updateEnemies_compacts (p : list Point) (deltaTime : Q)
    (m : GameManager.t) :
  NoDup (GameState.enemies (GameManager.gameState m)) ->
  (forall r, r ∈ GameState.enemies (GameManager.gameState m) ->
     is_Some (GameState.enemyObjs (GameManager.gameState m) !! r)) ->
  let m' := GameManager.updateEnemies p deltaTime m in
  (forall r,
      r ∈ GameState.enemies (GameManager.gameState m') <->
      r ∈ GameState.enemies (GameManager.gameState m)
      /\ exists e,
           GameState.enemyObjs (GameManager.gameState m) !! r = Some e
           /\ Enemy.reachedEnd (Enemy.update p deltaTime e) = false
           /\ Enemy.isAlive (Enemy.update p deltaTime e) = true)
  /\ sublist (GameState.enemies (GameManager.gameState m'))
       (GameState.enemies (GameManager.gameState m))
  /\ (forall r e,
        r ∈ GameState.enemies (GameManager.gameState m) ->
        GameState.enemyObjs (GameManager.gameState m) !! r = Some e ->
        GameState.enemyObjs (GameManager.gameState m') !! r
        = Some (Enemy.update p deltaTime e))
  /\ GameState.towers (GameManager.gameState m')
     = GameState.towers (GameManager.gameState m)
  /\ GameState.towerObjs (GameManager.gameState m')
     = GameState.towerObjs (GameManager.gameState m)
  /\ GameState.projectiles (GameManager.gameState m')
     = GameState.projectiles (GameManager.gameState m)
  /\ GameManager.waveManager m' = GameManager.waveManager m.
Proof.
  intros Hnd Hobj. cbv zeta. unfold GameManager.updateEnemies.
  destruct (updateEnemy_loop p deltaTime
              (GameState.enemies (GameManager.gameState m)) m [] Hnd Hobj)
    as (He & Ht & Hto & Hpr & _ & _ & _ & Hwm & _ & Hin & Hrem).
  cbv zeta in He, Ht, Hto, Hpr, Hwm, Hin, Hrem.
  destruct (foldl _ _ _) as [m1 enemiesToRemove].
  cbn [fst snd] in He, Ht, Hto, Hpr, Hwm, Hin, Hrem.
  cbn [GameManager.gameState GameManager.set_gameState
       GameManager.waveManager GameState.enemies GameState.set_enemies
       GameState.towers GameState.towerObjs GameState.projectiles
       GameState.enemyObjs].
  rewrite He.
  assert (Hkeep : forall r,
             negb (existsb (Nat.eqb r) enemiesToRemove) = true
             <-> r ∉ enemiesToRemove).
  { intros r. rewrite negb_true_iff. split.
    - intros Hno Hr. apply list_elem_of_In in Hr.
      assert (Hex : existsb (Nat.eqb r) enemiesToRemove = true).
      { apply existsb_exists. exists r. split; [exact Hr|].
        apply Nat.eqb_refl. }
      congruence.
    - intros Hr. destruct (existsb _ _) eqn:Eex; [|reflexivity].
      apply existsb_exists in Eex as (r' & Hr' & Heq).
      apply Nat.eqb_eq in Heq as <-. apply list_elem_of_In in Hr'.
      contradiction. }
  split.
  { intros r. rewrite list_elem_of_In, filter_In, <- list_elem_of_In, Hkeep.
    rewrite Hrem. split.
    - intros [Hr Hno]. split; [exact Hr|].
      destruct (Hobj r Hr) as [e Hlook]. exists e. split; [exact Hlook|].
      destruct (Enemy.reachedEnd _) eqn:E1;
        [exfalso; apply Hno; right; split; [exact Hr|]; exists e;
         split; [exact Hlook|]; now rewrite E1|].
      destruct (Enemy.isAlive _) eqn:E2; [auto|].
      exfalso. apply Hno. right. split; [exact Hr|]. exists e.
      split; [exact Hlook|]. now rewrite E1, E2.
    - intros (Hr & e & Hlook & E1 & E2). split; [exact Hr|].
      intros [Hnil | (_ & e' & Hlook' & Hgone)];
        [now apply elem_of_nil in Hnil|].
      rewrite Hlook in Hlook'. injection Hlook' as <-.
      rewrite E1, E2 in Hgone. discriminate. }
  split.
  { apply List_filter_sublist. }
  split; [exact Hin|]. auto.
Qed.

Lemma updateEnemies_compacts_witness :
  let m := Play.playing Play.fight in
  GameState.towers
    (GameManager.gameState (GameManager.updateEnemies path (1 # 10) m))
  = GameState.towers (GameManager.gameState m).
Proof.
  intros m.
  destruct (updateEnemies_compacts path (1 # 10) m) as (_ & _ & _ & H & _).
  - apply (bool_decide_unpack _). vm_compute. reflexivity.
  - intros r Hr.
    assert (He : GameState.enemies (GameManager.gameState m) = [2; 3; 4]%nat)
      by reflexivity.
    rewrite He in Hr.
    repeat (apply elem_of_cons in Hr as [->|Hr];
            [vm_compute; eexists; reflexivity|]).
    now apply elem_of_nil in Hr.
  - exact H.
Defined.

Section ProjectileSweep.

Lemma combatFrame_refl (g : GameState.t) : combatFrame g g.
Proof. now destruct g. Qed.

Lemma combatFrame_trans (g g1 g2 : GameState.t) :
  combatFrame g g1 -> combatFrame g1 g2 -> combatFrame g g2.
Proof.
  unfold combatFrame. intros H1 H2. destruct g, g1, g2. cbn in *.
  injection H1; injection H2; intros; subst. reflexivity.
Qed.

Lemma combatFrame_fields (g g' : GameState.t) :
  combatFrame g g' ->
  GameState.money g' = GameState.money g
  /\ GameState.lives g' = GameState.lives g
  /\ GameState.enemies g' = GameState.enemies g
  /\ GameState.towers g' = GameState.towers g
  /\ GameState.towerObjs g' = GameState.towerObjs g
  /\ GameState.projectiles g' = GameState.projectiles g
  /\ GameState.waveInProgress g' = GameState.waveInProgress g
  /\ GameState.currentWave g' = GameState.currentWave g
  /\ GameState.gameData g' = GameState.gameData g
  /\ GameState.nextRef g' = GameState.nextRef g.
Proof. unfold combatFrame. intros ->. repeat split. Qed.

Lemma trackDamage_combatFrame (p : ProjectileObj.t) (g : GameState.t) :
  combatFrame g (Projectile.trackDamage p g).
Proof.
  unfold Projectile.trackDamage. cbv zeta.
  destruct (_ !! ProjectileObj.towerId p); now destruct g.
Qed.

Lemma set_enemyObjs_combatFrame (h : gmap nat Enemy.t) (g : GameState.t) :
  combatFrame g (GameState.set_enemyObjs h g).
Proof. now destruct g. Qed.

Lemma hit_combatFrame (p : ProjectileObj.t) (g : GameState.t) :
  combatFrame g (Projectile.hit p g).2.
Proof.
  unfold Projectile.hit.
  destruct (Projectile.liveTarget p g) as [[r e]|]; cbv zeta; cbn [snd];
    [|apply combatFrame_refl].
  eapply combatFrame_trans; [apply trackDamage_combatFrame|].
  apply set_enemyObjs_combatFrame.
Qed.

Lemma explode_combatFrame (p : ProjectileObj.t) (g : GameState.t) :
  combatFrame g (Projectile.explode p g).2.
Proof.
  unfold Projectile.explode. cbv zeta. cbn [snd].
  generalize (filter
                (fun enemy : nat * Enemy.t =>
                   Enemy.isAlive enemy.2
                   && Entity.isInRange (ProjectileObj.x p)
                        (ProjectileObj.y p) (Enemy.x enemy.2)
                        (Enemy.y enemy.2)
                        (Some (ProjectileObj.aoeRadius p)))
                (deref (GameState.enemyObjs g) (GameState.enemies g))).
  intros targets.
  assert (H : forall g0, combatFrame g g0 ->
             combatFrame g
               (foldl
                  (fun acc (enemy : nat * Enemy.t) =>
                     Projectile.trackDamage p
                       (GameState.set_enemyObjs
                          (alter (Enemy.takeDamage (ProjectileObj.damage p))
                             enemy.1 (GameState.enemyObjs acc)) acc))
                  g0 targets)).
  { induction targets as [|enemy targets IH]; intros g0 H0; [exact H0|].
    cbn [foldl]. apply IH.
    eapply combatFrame_trans; [exact H0|].
    eapply combatFrame_trans; [apply set_enemyObjs_combatFrame|].
    apply trackDamage_combatFrame. }
  apply H, combatFrame_refl.
Qed.

Lemma projectile_update_combatFrame (deltaTime : Q)
    (p p' : ProjectileObj.t) (g g' : GameState.t) :
  Projectile.update deltaTime p g = Some (p', g') -> combatFrame g g'.
Proof.
  unfold Projectile.update.
  destruct (negb _); [intros [= <- <-]; apply combatFrame_refl|].
  cbv zeta. destruct (Qlt_bool _ _);
    [intros [= <- <-]; apply combatFrame_refl|].
  destruct (Qlt_bool 0 _).
  - unfold Projectile.updateAOE.
    destruct (ProjectileObj.targetPos _) as [pos|]; [|discriminate].
    cbn [mbind option_bind]. cbv zeta. destruct (Qlt_bool _ 10).
    + match goal with
      | |- Some (Projectile.explode ?q g) = _ -> _ =>
          pose proof (explode_combatFrame q g) as Hf;
          destruct (Projectile.explode q g) as [pe ge]
      end.
      cbn [snd] in Hf. intros [= <- <-]. exact Hf.
    + intros [= <- <-]. apply combatFrame_refl.
  - unfold Projectile.updateSingleTarget.
    destruct (Projectile.liveTarget _ g) as [[r e]|];
      [|intros [= <- <-]; apply combatFrame_refl].
    cbv zeta. destruct (Qlt_bool _ 10).
    + match goal with
      | |- Some (Projectile.hit ?q g) = _ -> _ =>
          pose proof (hit_combatFrame q g) as Hf;
          destruct (Projectile.hit q g) as [ph gh]
      end.
      cbn [snd] in Hf. intros [= <- <-]. exact Hf.
    + intros [= <- <-]. apply combatFrame_refl.
Qed.

Lemma forEach_projectile_frame (deltaTime : Q) (ps : list ProjectileObj.t) :
  forall (g : GameState.t) (ps' : list ProjectileObj.t) (g' : GameState.t),
    GameManager.forEach_projectile deltaTime ps g = Some (ps', g') ->
    combatFrame g g' /\ length ps' = length ps.
Proof.
  induction ps as [|p ps IH]; intros g ps' g'; cbn [GameManager.forEach_projectile].
  - intros [= <- <-]. split; [apply combatFrame_refl | reflexivity].
  - destruct (Projectile.update deltaTime p g) as [[p1 g1]|] eqn:E1;
      [|discriminate].
    cbn [mbind option_bind].
    destruct (GameManager.forEach_projectile deltaTime ps g1)
      as [[ps2 g2]|] eqn:E2; [|discriminate].
    cbn [mbind option_bind]. intros [= <- <-].
    destruct (IH g1 ps2 g2 E2) as [Hf Hl].
    split; [|simpl; now rewrite Hl].
    eapply combatFrame_trans; [|exact Hf].
    exact (projectile_update_combatFrame _ _ _ _ _ E1).
Qed.

End ProjectileSweep.

(** X26. After [updateProjectiles] every projectile left in the array is
    active and the array has not grown; the projectiles change nothing of
    the game state but the enemies behind the references and the
    statistics: money, lives, the enemy array and the towers are as
    before. *)
Theorem updateProjectiles_sweeps (deltaTime : Q) (m m' : GameManager.t) :
  GameManager.updateProjectiles deltaTime m = Some m' ->
  Forall (fun p => ProjectileObj.active p = true)
    (GameState.projectiles (GameManager.gameState m'))
  /\ (length (GameState.projectiles (GameManager.gameState m'))
      <= length (GameState.projectiles (GameManager.gameState m)))%nat
  /\ GameState.money (GameManager.gameState m')
     = GameState.money (GameManager.gameState m)
  /\ GameState.lives (GameManager.gameState m')
     = GameState.lives (GameManager.gameState m)
  /\ GameState.enemies (GameManager.gameState m')
     = GameState.enemies (GameManager.gameState m)
  /\ GameState.towers (GameManager.gameState m')
     = GameState.towers (GameManager.gameState m)
  /\ GameState.towerObjs (GameManager.gameState m')
     = GameState.towerObjs (GameManager.gameState m)
  /\ GameManager.currentState m' = GameManager.currentState m.
Proof.
  unfold GameManager.updateProjectiles.
  destruct (GameManager.forEach_projectile _ _ _) as [[ps g]|] eqn:E;
    [|discriminate].
  cbn [mbind option_bind]. intros [= <-].
  destruct (forEach_projectile_frame _ _ _ _ _ E) as [Hf Hl].
  destruct (combatFrame_fields _ _ Hf) as (Hm & Hli & He & Ht & Hto & _).
  cbn [GameManager.gameState GameManager.set_gameState
       GameManager.currentState GameState.projectiles
       GameState.set_projectiles GameState.money GameState.lives
       GameState.enemies GameState.towers GameState.towerObjs].
  split.
  { apply List.Forall_forall. intros p Hp.
    apply filter_In in Hp as [_ Hp]. exact Hp. }
  split.
  { rewrite <- Hl. apply List.filter_length_le. }
  repeat split; assumption.
Qed.

Lemma updateProjectiles_sweeps_witness :
  let m :=
    Play.playing
      (GameState.set_projectiles [Play.shot] Play.fight) in
  exists m',
    GameManager.updateProjectiles (1 # 10) m = Some m'
    /\ GameState.money (GameManager.gameState m')
       = GameState.money (GameManager.gameState m).
Proof.
  intros m.
  destruct (GameManager.updateProjectiles (1 # 10) m) as [m'|] eqn:E;
    [|vm_compute in E; discriminate].
  exists m'. split; [reflexivity|].
  destruct (updateProjectiles_sweeps (1 # 10) m m' E)
    as (_ & _ & Hmoney & _).
  exact Hmoney.
Defined.

(** ** GameManager: the end of a wave *)

Section TickFrame.

Lemma tower_update_tick (deltaTime : Q) (r : nat) (g g' : GameState.t)
    (timer : option Tower.AutoHeal) :
  Tower.update deltaTime r g = Some (g', timer) -> towerTick r g g'.
Proof.
  unfold Tower.update.
  destruct (GameState.towerObjs g !! r) as [this|] eqn:Hlook;
    [|discriminate].
  cbn [mbind option_bind]. cbv zeta.
  destruct (countdown_tick deltaTime r g this Hlook) as (T1 & _ & _ & _ & L1).
  cbv zeta in T1, L1.
  set (g1 := if Qlt_bool 0 (TowerObj.cooldown this) then _ else g) in *.
  clearbody g1.
  destruct (String.eqb (TowerObj.type this) "eco").
  { destruct (Tower.updateEconomy r g1) as [g2|] eqn:E2; [|discriminate].
    cbn [mbind option_bind]. intros [= <- <-].
    destruct (updateEconomy_tick r g1 g2 _ L1 E2) as [T2 _].
    exact (towerTick_trans _ _ _ _ T1 T2). }
  destruct (String.eqb (TowerObj.type this) "support_sensor").
  { intros Hup.
    destruct (updateSensor_tick r g1 g' _ timer L1 Hup) as (T2 & _).
    exact (towerTick_trans _ _ _ _ T1 T2). }
  destruct (_ || _).
  { destruct (Tower.updateCombat r g1) as [g2|] eqn:E2; [|discriminate].
    cbn [mbind option_bind]. intros [= <- <-].
    destruct (updateCombat_tick r g1 g2 _ L1 E2) as (T2 & _).
    exact (towerTick_trans _ _ _ _ T1 T2). }
  intros [= <- <-]. exact T1.
Qed.

Lemma forEach_update_wave (deltaTime : Q) (rs : list nat) :
  forall (g : GameState.t) (pending : list Tower.AutoHeal)
         (g' : GameState.t) (pending' : list Tower.AutoHeal),
    GameManager.forEach_update deltaTime rs g pending = Some (g', pending') ->
    GameState.waveInProgress g' = GameState.waveInProgress g
    /\ GameState.enemies g' = GameState.enemies g
    /\ GameState.lives g' = GameState.lives g.
Proof.
  induction rs as [|r rs IH]; intros g pending g' pending';
    cbn [GameManager.forEach_update].
  - intros [= <- <-]. repeat split.
  - destruct (Tower.update deltaTime r g) as [[g1 timer]|] eqn:E1;
      [|discriminate].
    cbn [mbind option_bind]. intros Hrest.
    destruct (IH _ _ _ _ Hrest) as (Hw & He & Hl).
    destruct (towerTick_frame r g g1 (tower_update_tick _ _ _ _ _ E1))
      as (He1 & _ & Hl1 & _ & _ & Hw1 & _).
    repeat split; congruence.
Qed.

Lemma spawnDue_wave (p : list Point) (timer : Q)
    (queue : list WaveManager.Spawn) :
  forall (g : GameState.t) (rest : list WaveManager.Spawn)
         (g' : GameState.t),
    WaveManager.spawnDue p timer queue g = Some (rest, g') ->
    GameState.waveInProgress g' = GameState.waveInProgress g.
Proof.
  induction queue as [|s queue IH]; intros g rest g';
    cbn [WaveManager.spawnDue].
  - now intros [= <- <-].
  - destruct (Qle_bool _ timer); [|now intros [= <- <-]].
    unfold WaveManager.spawn.
    destruct (Enemy.new_ p _) as [e|]; [|discriminate].
    cbn [mbind option_bind]. intros Hrest.
    now rewrite (IH _ _ _ Hrest).
Qed.

Lemma infection_update_wave (deltaTime random : Q) (im im' : InfectionManager.t)
    (g g' : GameState.t) :
  InfectionManager.update deltaTime random im g = Some (im', g') ->
  GameState.waveInProgress g' = GameState.waveInProgress g.
Proof.
  unfold InfectionManager.update.
  destruct (_ || _); [now intros [= <- <-]|].
  cbv zeta. destruct (Qle_bool _ _); [|now intros [= <- <-]].
  unfold InfectionManager.infectRandomTower.
  destruct (filter _ _) as [|first others];
    [cbn [mbind option_bind]; now intros [= <- <-]|].
  cbv zeta.
  destruct (if (_ <? 0)%Z then None else _) as [tower|];
    [|discriminate].
  cbn [mbind option_bind].
  destruct (Tower.infect _ _) as [tower'|]; [|discriminate].
  cbn [mbind option_bind]. now intros [= <- <-].
Qed.

Lemma updateEnemy_wave (p : list Point) (deltaTime : Q) (rs : list nat) :
  forall (m : GameManager.t) (acc : list nat),
    let res := foldl (GameManager.updateEnemy p deltaTime) (m, acc) rs in
    GameState.waveInProgress (GameManager.gameState res.1)
    = GameState.waveInProgress (GameManager.gameState m)
    /\ GameManager.waveManager res.1 = GameManager.waveManager m
    /\ (GameManager.currentState res.1 = GameManager.currentState m
        \/ GameManager.currentState res.1 = GameManager.GAME_OVER).
Proof.
  induction rs as [|r rs IH]; intros m acc; cbv zeta.
  - cbn [foldl fst]. auto.
  - cbn [foldl].
    assert (Hstep :
      let res := GameManager.updateEnemy p deltaTime (m, acc) r in
      GameState.waveInProgress (GameManager.gameState res.1)
      = GameState.waveInProgress (GameManager.gameState m)
      /\ GameManager.waveManager res.1 = GameManager.waveManager m
      /\ (GameManager.currentState res.1 = GameManager.currentState m
          \/ GameManager.currentState res.1 = GameManager.GAME_OVER)).
    { cbv zeta. unfold GameManager.updateEnemy.
      destruct (GameState.enemyObjs (GameManager.gameState m) !! r)
        as [e|]; [|cbn [fst]; auto].
      cbv zeta. destruct (Enemy.reachedEnd _).
      - unfold GameState.takeDamage. cbv zeta.
        destruct (Qle_bool _ 0); cbn; auto.
      - destruct (negb _); cbn; auto. }
    cbv zeta in Hstep.
    destruct (GameManager.updateEnemy p deltaTime (m, acc) r) as [m1 acc1].
    cbn [fst] in Hstep. destruct Hstep as (Hw & Hwm & Hs).
    destruct (IH m1 acc1) as (Hw' & Hwm' & Hs'). cbv zeta in Hw', Hwm', Hs'.
    split; [congruence|]. split; [congruence|].
    destruct Hs' as [Hs'|Hs']; [|now right].
    destruct Hs as [Hs|Hs]; [left | right]; congruence.
Qed.

End TickFrame.

(** X27. A tick that finds the wave complete ends the wave whatever else
    happened in it: the state after it is WAVE_BREAK, or VICTORY when the
    wave was the last one, and never GAME_OVER, even if the last life was
    lost in this very tick.  A tick that does not complete the wave leaves
    the wave in progress, and the state is the old one or GAME_OVER. *)
Theorem wave_end_overrides_defeat (p : list Point) (deltaTime random : Q)
    (m m' : GameManager.t) :
  GameManager.updateGameplay p deltaTime random m = Some m' ->
  GameState.waveInProgress (GameManager.gameState m) = true ->
  (WaveManager.isComplete (GameManager.waveManager m')
     (GameManager.gameState m') = true ->
   GameState.waveInProgress (GameManager.gameState m') = false
   /\ (GameManager.currentState m' = GameManager.WAVE_BREAK
       \/ GameManager.currentState m' = GameManager.VICTORY)
   /\ (GameManager.currentState m' = GameManager.VICTORY <->
       (Z.of_nat (length (GameData.waves
                            (GameState.gameData (GameManager.gameState m'))))
        <= GameState.currentWave (GameManager.gameState m'))%Z))
  /\ (WaveManager.isComplete (GameManager.waveManager m')
        (GameManager.gameState m') = false ->
      GameState.waveInProgress (GameManager.gameState m') = true
      /\ (GameManager.currentState m' = GameManager.currentState m
          \/ GameManager.currentState m' = GameManager.GAME_OVER)).
Proof.
  intros Hrun Hwave. unfold GameManager.updateGameplay in Hrun.
  destruct (InfectionManager.update _ _ _ _) as [[im g1]|] eqn:E1;
    [|discriminate].
  cbn [mbind option_bind] in Hrun.
  destruct (WaveManager.update _ _ _ _) as [[w g2]|] eqn:E2; [|discriminate].
  cbn [mbind option_bind] in Hrun. cbv zeta in Hrun.
  destruct (GameManager.updateTowers _ _) as [m3|] eqn:E3; [|discriminate].
  cbn [mbind option_bind] in Hrun.
  destruct (GameManager.updateProjectiles _ _) as [m4|] eqn:E4;
    [|discriminate].
  cbn [mbind option_bind] in Hrun.
  assert (H1 : GameState.waveInProgress g1 = true).
  { rewrite (infection_update_wave _ _ _ _ _ _ E1). exact Hwave. }
  assert (H2 : GameState.waveInProgress g2 = true).
  { unfold WaveManager.update in E2.
    destruct (WaveManager.spawnQueue _); [now injection E2 as <- <-|].
    cbv zeta in E2.
    destruct (WaveManager.spawnDue _ _ _ _) as [[queue g2']|] eqn:Edue;
      [|discriminate].
    cbn [mbind option_bind] in E2. injection E2 as <- <-.
    now rewrite (spawnDue_wave _ _ _ _ _ _ Edue). }
  assert (H3 : GameState.waveInProgress (GameManager.gameState m3) = true
               /\ GameManager.currentState m3 = GameManager.currentState m).
  { unfold GameManager.updateTowers in E3.
    destruct (GameManager.forEach_update _ _ _ _) as [[g3 pending]|] eqn:Et;
      [|discriminate].
    cbn [mbind option_bind] in E3. injection E3 as <-.
    destruct (forEach_update_wave _ _ _ _ _ _ Et) as (Hw & _).
    cbn in Hw |- *. split; [congruence | reflexivity]. }
  destruct H3 as [H3 S3].
  assert (H4 : GameState.waveInProgress (GameManager.gameState m4) = true
               /\ GameManager.currentState m4 = GameManager.currentState m).
  { unfold GameManager.updateProjectiles in E4.
    destruct (GameManager.forEach_projectile _ _ _) as [[ps g4]|] eqn:Ep;
      [|discriminate].
    cbn [mbind option_bind] in E4. injection E4 as <-.
    destruct (forEach_projectile_frame _ _ _ _ _ Ep) as [Hf _].
    destruct (combatFrame_fields _ _ Hf) as (_&_&_&_&_&_&Hw&_).
    cbn. split; congruence. }
  destruct H4 as [H4 S4].
  set (m5 := GameManager.updateEnemies p deltaTime m4) in *.
  assert (H5 : GameState.waveInProgress (GameManager.gameState m5) = true
               /\ (GameManager.currentState m5 = GameManager.currentState m
                   \/ GameManager.currentState m5 = GameManager.GAME_OVER)).
  { unfold m5, GameManager.updateEnemies.
    destruct (updateEnemy_wave p deltaTime
                (GameState.enemies (GameManager.gameState m4)) m4 [])
      as (Hw & _ & Hs).
    cbv zeta in Hw, Hs. destruct (foldl _ _ _) as [m6 rem].
    cbn in Hw, Hs |- *. split; [congruence|].
    destruct Hs as [Hs|Hs]; [left | right]; congruence. }
  destruct H5 as [H5 S5]. clearbody m5.
  rewrite H5 in Hrun. cbn [andb] in Hrun.
  destruct (WaveManager.isComplete (GameManager.waveManager m5)
              (GameManager.gameState m5)) eqn:Edone;
    injection Hrun as <-.
  - split; [|unfold GameManager.waveComplete; cbv zeta;
             destruct (_ <=? _)%Z; cbn; intros Hc;
             unfold WaveManager.isComplete in *; cbn in Hc; congruence].
    intros _. unfold GameManager.waveComplete. cbv zeta.
    cbn [GameManager.gameState GameManager.set_gameState
         GameManager.set_currentState GameState.gameData
         GameState.currentWave GameManager.set_waveInProgress].
    destruct (_ <=? _)%Z eqn:Elast.
    + apply Z.leb_le in Elast. cbn. split; [reflexivity|].
      split; [now right|]. split; [intros _; exact Elast | reflexivity].
    + apply Z.leb_gt in Elast. cbn. split; [reflexivity|].
      split; [now left|]. split; [discriminate | intros Hle; lia].
  - split; [congruence|]. intros _. split; assumption.
Qed.

Lemma wave_end_overrides_defeat_witness :
  let m' :=
    default Play.lastStand
      (GameManager.updateGameplay path (1 # 10) (1 # 2) Play.lastStand) in
  GameState.lives (GameManager.gameState m') = 0
  /\ GameManager.currentState m' = GameManager.VICTORY.
Proof.
  intros m'. split; [vm_compute; reflexivity|].
  destruct (wave_end_overrides_defeat path (1 # 10) (1 # 2)
              Play.lastStand m') as [Hdone _].
  - vm_compute. reflexivity.
  - reflexivity.
  - destruct Hdone as (_ & _ & Hvictory); [vm_compute; reflexivity|].
    apply Hvictory. vm_compute. discriminate.
Defined.

(** ** GameManager: selling, placing and upgrading *)

Section CommandFacts.
Import TowerObj.


Lemma sameButSnapshots_fields (a b : t) :
  sameButSnapshots a b ->
  x b = x a /\ y b = y a /\ id b = id a /\ type b = type a
  /\ level b = level a /\ totalCost b = totalCost a
  /\ infection b = infection a /\ towerData b = towerData a
  /\ cooldown b = cooldown a.
Proof. unfold sameButSnapshots. intros ->. repeat split. Qed.

Lemma applyStats_sameButSnapshots (self : nat) (ts : list (nat * t))
    (this this' : t) :
  Tower.applyStats self ts this = Some this' -> sameButSnapshots this this'.
Proof.
  rewrite applyStats_unfold. cbv zeta.
  destruct (if isInfected this then _ else _) as [final|]; [|discriminate].
  cbn [mbind option_bind]. intros [= <-]. now destruct this.
Qed.

Lemma forEach_applyStats_same (all : list nat) (rs : list nat) :
  forall h h' : gmap nat t,
    GameManager.forEach_applyStats rs all h = Some h' ->
    forall r, option_Forall2 sameButSnapshots (h !! r) (h' !! r).
Proof.
  induction rs as [|r0 rs IH]; intros h h';
    cbn [GameManager.forEach_applyStats].
  - intros [= <-] r. destruct (h !! r); constructor.
    apply sameButSnapshots_refl.
  - unfold Tower.applyStats_in.
    destruct (h !! r0) as [this|] eqn:Hlook; [|discriminate].
    cbn [mbind option_bind].
    destruct (Tower.applyStats r0 _ this) as [this'|] eqn:Happly;
      [|discriminate].
    cbn [mbind option_bind]. intros Hrest r.
    pose proof (IH _ _ Hrest r) as Hr.
    destruct (decide (r = r0)) as [->|Hne].
    + rewrite lookup_insert_eq in Hr. rewrite Hlook.
      inversion Hr as [a b Hab|]; subst. constructor.
      eapply sameButSnapshots_trans; [|exact Hab].
      exact (applyStats_sameButSnapshots _ _ _ _ Happly).
    + now rewrite lookup_insert_ne in Hr by congruence.
Qed.

Lemma reapplyStats_same (g g' : GameState.t) :
  GameManager.reapplyStats g = Some g' ->
  g' = GameState.set_towerObjs (GameState.towerObjs g') g
  /\ forall r,
       option_Forall2 sameButSnapshots
         (GameState.towerObjs g !! r) (GameState.towerObjs g' !! r).
Proof.
  unfold GameManager.reapplyStats.
  destruct (GameManager.forEach_applyStats _ _ _) as [h|] eqn:E;
    [|discriminate].
  cbn [mbind option_bind]. intros [= <-]. split; [reflexivity|].
  exact (forEach_applyStats_same _ _ _ _ E).
Qed.

End CommandFacts.



(** X29. [placeTower] either changes nothing, which is what happens when no
    tower type is selected, when the spot is refused or when the money does
    not cover the placement cost, or it does all of the following: the cost
    is paid, a tower of the selected type at level 0, healthy and at the
    clicked spot, becomes the newest tower of the array under a fresh
    reference and is selected, the placement is over, and one more tower is
    counted as placed.  A spot is accepted only at least 20 inside the
    canvas and with no tower of the array closer than 40. *)
Theorem placeTower_effect (canvasWidth canvasHeight : Q) (p : list Point)
    (x y : Q) (g g' : GameState.t) :
  GameManager.placeTower canvasWidth canvasHeight p x y g = Some g' ->
  (GameState.placingTowerType g = None -> g' = g)
  /\ (GameManager.canPlaceTowerAt canvasWidth canvasHeight p x y g = false ->
      g' = g)
  /\ (GameManager.canPlaceTowerAt canvasWidth canvasHeight p x y g = true ->
      20 <= x /\ x <= canvasWidth - 20 /\ 20 <= y /\ y <= canvasHeight - 20
      /\ forall r tower,
           r ∈ GameState.towers g ->
           GameState.towerObjs g !! r = Some tower ->
           40 <= Math_hypot (x - TowerObj.x tower) (y - TowerObj.y tower))
  /\ (g' = g
      \/ exists towerId towerData tower,
           GameState.placingTowerType g = Some towerId
           /\ List.find (fun d => String.eqb (td_id d) towerId)
                (GameData.towers (GameState.gameData g)) = Some towerData
           /\ GameManager.canPlaceTowerAt canvasWidth canvasHeight p x y g
              = true
           /\ cost_place towerData <= GameState.money g
           /\ GameState.money g' = GameState.money g - cost_place towerData
           /\ GameState.towers g'
              = GameState.towers g ++ [GameState.nextRef g]
           /\ GameState.nextRef g' = S (GameState.nextRef g)
           /\ GameState.selectedTower g' = Some (GameState.nextRef g)
           /\ GameState.placingTowerType g' = None
           /\ GameState.towersPlaced (GameState.gameStats g')
              = (GameState.towersPlaced (GameState.gameStats g) + 1)%Z
           /\ GameState.towerObjs g' !! GameState.nextRef g = Some tower
           /\ TowerObj.x tower = x /\ TowerObj.y tower = y
           /\ TowerObj.id tower = towerId
           /\ TowerObj.level tower = 0%nat
           /\ TowerObj.totalCost tower = cost_place towerData
           /\ TowerObj.infection tower = None
           /\ GameState.enemies g' = GameState.enemies g
           /\ GameState.lives g' = GameState.lives g).
Proof.
  intros Hrun.
  split; [|split; [|split]].
  - intros Hnone. unfold GameManager.placeTower in Hrun.
    rewrite Hnone in Hrun. now injection Hrun as <-.
  - intros Hno. unfold GameManager.placeTower in Hrun.
    destruct (GameState.placingTowerType g); [|now injection Hrun as <-].
    destruct (List.find _ _); [|now injection Hrun as <-].
    rewrite Hno in Hrun. now injection Hrun as <-.
  - clear Hrun. unfold GameManager.canPlaceTowerAt.
    destruct (Qlt_bool x 20) eqn:E1; [discriminate|].
    destruct (Qlt_bool (canvasWidth - 20) x) eqn:E2; [discriminate|].
    destruct (Qlt_bool y 20) eqn:E3; [discriminate|].
    destruct (Qlt_bool (canvasHeight - 20) y) eqn:E4; [discriminate|].
    cbn [orb]. destruct (existsb _ (zip p (tail p))); [discriminate|].
    intros Hclear. apply negb_true_iff in Hclear.
    apply Qlt_bool_false in E1, E2, E3, E4.
    repeat (split; [assumption|]).
    intros r tower Hr Hlook. apply Qlt_bool_false.
    destruct (Qlt_bool (Math_hypot _ _) 40) eqn:Enear; [|reflexivity].
    assert (Hex : existsb
              (fun tw : nat * TowerObj.t =>
                 Qlt_bool
                   (Math_hypot (x - TowerObj.x tw.2) (y - TowerObj.y tw.2))
                   40)
              (deref (GameState.towerObjs g) (GameState.towers g)) = true).
    { apply existsb_exists. exists (r, tower). split; [|exact Enear].
      apply list_elem_of_In. apply deref_elem. split; assumption. }
    congruence.
  - unfold GameManager.placeTower in Hrun.
    destruct (GameState.placingTowerType g) as [towerId|] eqn:Etype;
      [|left; now injection Hrun as <-].
    destruct (List.find _ _) as [towerData|] eqn:Efind;
      [|left; now injection Hrun as <-].
    destruct (GameManager.canPlaceTowerAt _ _ _ _ _ _) eqn:Ecan;
      [|left; now injection Hrun as <-].
    unfold GameState.purchase, GameState.canAfford in Hrun.
    destruct (Qle_bool (cost_place towerData) (GameState.money g)) eqn:Epay;
      [|left; now injection Hrun as <-].
    apply Qle_bool_iff in Epay. cbv zeta in Hrun.
    cbn [GameState.nextRef GameState.gameData GameState.set_money] in Hrun.
    destruct (Tower.new_ _ x y towerId (GameState.gameData g))
      as [tower|] eqn:Hnew; [|discriminate].
    cbn [mbind option_bind] in Hrun.
    destruct (GameManager.reapplyStats _) as [g3|] eqn:Hre; [|discriminate].
    cbn [mbind option_bind] in Hrun. injection Hrun as <-.
    destruct (reapplyStats_same _ _ Hre) as [Hg3 Hsame].
    specialize (Hsame (GameState.nextRef g)).
    cbn [GameState.towerObjs GameState.set_gameStats GameState.set_nextRef
         GameState.set_towers GameState.set_towerObjs GameState.set_money]
      in Hsame.
    rewrite lookup_insert_eq in Hsame.
    inversion Hsame as [a tower' Hab Ha Hb|]; subst a.
    destruct (sameButSnapshots_fields _ _ Hab)
      as (Hx & Hy & Hid & _ & Hl & Hc & Hi & _).
    unfold Tower.new_ in Hnew. rewrite Efind in Hnew.
    cbn [mbind option_bind] in Hnew.
    destruct (applyStats_fields _ _ _ _ Hnew)
      as (Hx0 & Hy0 & _ & Hl0 & _ & _ & Hi0 & Hc0 & _).
    pose proof (applyStats_sameButSnapshots _ _ _ _ Hnew) as Hnew'.
    destruct (sameButSnapshots_fields _ _ Hnew') as (_ & _ & Hid0 & _).
    cbn [TowerObj.x TowerObj.y TowerObj.id TowerObj.level
         TowerObj.totalCost TowerObj.infection] in Hx0, Hy0, Hl0, Hi0, Hc0,
                                                    Hid0.
    right. exists towerId, towerData, tower'.
    split; [reflexivity|]. split; [exact Efind|].
    split; [assumption || reflexivity|].
    split; [exact Epay|].
    rewrite Hg3.
    cbn [GameManager.cancelTowerPlacement GameState.money GameState.towers
         GameState.nextRef GameState.selectedTower GameState.placingTowerType
         GameState.gameStats GameState.towerObjs GameState.enemies
         GameState.lives GameState.set_selectedTower
         GameState.set_placingTowerType GameState.set_towerObjs
         GameState.set_gameStats GameState.set_nextRef GameState.set_towers
         GameState.set_money GameState.towersPlaced
         GameState.set_towersPlaced].
    repeat (split; [reflexivity|]).
    split; [first [reflexivity | symmetry; exact Hb]|].
    split; [congruence|]. split; [congruence|]. split; [congruence|].
    split; [congruence|]. split; [congruence|]. split; [congruence|].
    split; reflexivity.
Qed.

Lemma placeTower_effect_witness :
  GameState.money Sample.first = GameState.money Sample.initial - 150.
Proof.
  destruct (placeTower_effect 800 600 path 100 100
              (GameManager.selectTowerToPlace (Some "greenhouse")
                 Sample.initial) Sample.first)
    as (_ & _ & _ & [Hsame | Hplaced]).
  - vm_compute. reflexivity.
  - vm_compute in Hsame. discriminate.
  - destruct Hplaced as (towerId & towerData & tower & Ht & Hf & _ & _
                         & Hmoney & _).
    vm_compute in Ht. injection Ht as <-.
    vm_compute in Hf. injection Hf as <-.
    rewrite Hmoney. reflexivity.
Defined.

(** X30. [upgradeTower] changes nothing for a tower at its last level and
    when the money does not cover the upgrade.  Otherwise exactly the cost
    of the next upgrade is paid, the tower goes up one level and its total
    cost grows by that cost, one more upgrade is counted, and the tower
    array, the enemies and the lives are as before. *)
Theorem upgradeTower_effect (r : nat) (g g' : GameState.t)
    (this : TowerObj.t) :
  GameState.towerObjs g !! r = Some this ->
  List.find (fun d => String.eqb (td_id d) (TowerObj.id this))
    (GameData.towers (GameState.gameData g))
  = Some (TowerObj.towerData this) ->
  GameManager.upgradeTower (Some r) g = Some g' ->
  ((length (upgrades (TowerObj.towerData this)) <= TowerObj.level this)%nat ->
   g' = g)
  /\ (forall data upgradeCost,
         upgrades (TowerObj.towerData this) !! TowerObj.level this
         = Some data ->
         cost data = Some upgradeCost ->
         (GameState.money g < upgradeCost -> g' = g)
         /\ (upgradeCost <= GameState.money g ->
             GameState.money g' = GameState.money g - upgradeCost
             /\ GameState.towersUpgraded (GameState.gameStats g')
                = (GameState.towersUpgraded (GameState.gameStats g) + 1)%Z
             /\ GameState.towers g' = GameState.towers g
             /\ GameState.enemies g' = GameState.enemies g
             /\ GameState.lives g' = GameState.lives g
             /\ exists this',
                  GameState.towerObjs g' !! r = Some this'
                  /\ TowerObj.level this' = S (TowerObj.level this)
                  /\ TowerObj.totalCost this'
                     = TowerObj.totalCost this + upgradeCost
                  /\ TowerObj.infection this' = TowerObj.infection this)).
Proof.
  intros Hlook Hfind Hrun. unfold GameManager.upgradeTower in Hrun.
  rewrite Hlook in Hrun. cbn [mbind option_bind] in Hrun.
  rewrite Hfind in Hrun. split.
  - intros Hmax. apply Nat.leb_le in Hmax. rewrite Hmax in Hrun.
    now injection Hrun as <-.
  - intros data upgradeCost Hdata Hcost.
    assert (Hlt : (TowerObj.level this
                   < length (upgrades (TowerObj.towerData this)))%nat)
      by (apply lookup_lt_Some in Hdata; exact Hdata).
    replace (length (upgrades (TowerObj.towerData this))
             <=? TowerObj.level this)%nat with false in Hrun
      by (symmetry; apply Nat.leb_gt; exact Hlt).
    rewrite Hdata in Hrun. cbn [mbind option_bind] in Hrun.
    rewrite Hcost in Hrun.
    unfold GameState.purchase, GameState.canAfford in Hrun. split.
    + intros Hpoor.
      replace (Qle_bool upgradeCost (GameState.money g)) with false in Hrun
        by (symmetry; apply Qle_bool_false; exact Hpoor).
      now injection Hrun as <-.
    + intros Hrich. apply Qle_bool_iff in Hrich. rewrite Hrich in Hrun.
      cbn [GameState.towerObjs GameState.towers GameState.set_money] in Hrun.
      destruct (Tower.upgrade r _ this) as [[this1 done]|] eqn:Hup;
        [|discriminate].
      cbn [mbind option_bind fst] in Hrun. cbv zeta in Hrun.
      destruct (reapplyStats_same _ _ Hrun) as [Hg' Hsame].
      specialize (Hsame r).
      cbn [GameState.towerObjs GameState.set_gameStats
           GameState.set_towerObjs GameState.set_money] in Hsame.
      rewrite lookup_insert_eq in Hsame.
      inversion Hsame as [a this' Hab Ha Hb|]; subst a.
      destruct (sameButSnapshots_fields _ _ Hab)
        as (_ & _ & _ & _ & Hl & Hc & Hi & _).
      unfold Tower.upgrade in Hup.
      replace (length (upgrades (TowerObj.towerData this))
               <=? TowerObj.level this)%nat with false in Hup
        by (symmetry; apply Nat.leb_gt; exact Hlt).
      rewrite Hdata in Hup. cbn [mbind option_bind] in Hup.
      rewrite Hcost in Hup. cbn [mbind option_bind] in Hup.
      destruct (Tower.applyStats _ _ _) as [this2|] eqn:Happly;
        [|discriminate].
      cbn [mbind option_bind] in Hup. injection Hup as <- <-.
      destruct (applyStats_fields _ _ _ _ Happly)
        as (_ & _ & _ & Hl2 & _ & _ & Hi2 & Hc2 & _).
      cbn [TowerObj.level TowerObj.totalCost TowerObj.infection
           TowerObj.set_level_cost] in Hl2, Hc2, Hi2.
      rewrite Hg'.
      cbn [GameState.money GameState.towers GameState.gameStats
           GameState.enemies GameState.lives GameState.towerObjs
           GameState.set_towerObjs GameState.set_gameStats
           GameState.set_money GameState.towersUpgraded
           GameState.set_towersUpgraded].
      repeat (split; [reflexivity|]).
      exists this'. split; [first [reflexivity | symmetry; exact Hb]|].
      split; [rewrite Hl, Hl2; lia|]. split; congruence.
Qed.

Lemma upgradeTower_effect_witness :
  GameState.money Sample.upgraded = GameState.money Sample.placed - 30.
Proof.
  destruct (upgradeTower_effect 1 Sample.placed Sample.upgraded
              (Sample.tower_at Sample.placed 1)) as [_ H].
  - vm_compute. reflexivity.
  - vm_compute. reflexivity.
  - vm_compute. reflexivity.
  - destruct (H (mkStats (Some 15) (Some (4 # 5)) (Some 110) None None None
                   None None None None None None (Some 30)) 30)
      as [_ Hpaid].
    + vm_compute. reflexivity.
    + reflexivity.
    + destruct Hpaid as (Hmoney & _); [vm_compute; discriminate|].
      exact Hmoney.
Defined.
